(** * instamancer: the interception-and-pagination engine of [src/api.ts]

    A shallow embedding of the [Instagram] class: the duplicate set
    [PostIdSet], the request and response drains, the graft and hibernation
    flags, the navigation retry of [constructPage] and the generator loop.

    The class is asynchronous and talks to a browser.  The embedding threads
    the object's fields through every method as an explicit [State]; what the
    methods do to the outside world (log lines, status lines, sleeps, browser
    calls, continued requests) is appended to the [events] field; what the
    outside world does to the object (navigation results, intercepted
    requests and responses, detail pages) is given as input. *)

From Stdlib Require Import ZArith Ascii String List Lia.
From stdpp Require Import base gmap list strings pretty.
Import ListNotations.
Local Open Scope string_scope.
Local Open Scope list_scope.
Local Open Scope Z_scope.
Local Set Warnings "-register-all,-clear-no-such-hyp".

(** ** JSON payloads and the lodash lookup *)

(** A parsed JSON value.  Numbers are integers here; an object is the list of
    its fields in order, each key once (of a repeated key [JSON.parse] keeps
    the last value). *)
Inductive JSON : Type :=
| JNull
| JBool (b : bool)
| JNum (n : Z)
| JStr (s : string)
| JArr (elems : list JSON)
| JObj (fields : list (string * JSON)).

(** A JavaScript value read out of a payload: [None] is [undefined]. *)
Definition JSval : Type := option JSON.

(** JavaScript truthiness of a parsed value. *)
Definition truthy (v : JSON) : bool :=
  match v with
  | JNull => false
  | JBool b => b
  | JNum n => negb (Z.eqb n 0)
  | JStr s => negb (String.eqb s "")
  | JArr _ | JObj _ => true
  end.

Definition truthyVal (v : JSval) : bool :=
  match v with
  | None => false
  | Some j => truthy j
  end.

Fixpoint assoc (k : string) (fs : list (string * JSON)) : JSval :=
  match fs with
  | [] => None
  | (k', v) :: rest => if String.eqb k k' then Some v else assoc k rest
  end.

Definition isDigit (c : ascii) : bool :=
  let n := nat_of_ascii c in ((48 <=? n) && (n <=? 57))%nat.

Fixpoint digitsValue (s : string) (acc : nat) : option nat :=
  match s with
  | EmptyString => Some acc
  | String c rest =>
      if isDigit c then digitsValue rest (10 * acc + (nat_of_ascii c - 48))%nat
      else None
  end.

(** A property name that is an array index: decimal digits, no leading zero. *)
Definition arrayIndex (k : string) : option nat :=
  match k with
  | EmptyString => None
  | String c rest =>
      if Ascii.eqb c "0"%char
      then (match rest with EmptyString => Some 0%nat | _ => None end)
      else digitsValue k 0
  end.

(** [v[k]] for a value that is neither [null] nor [undefined]: own fields of
    an object, elements and [length] of an array, characters and [length] of
    a string.  Inherited properties ([constructor], methods) are not JSON
    values and read as [undefined] here. *)
Definition getProp (v : JSON) (k : string) : JSval :=
  match v with
  | JObj fs => assoc k fs
  | JArr xs =>
      if String.eqb k "length" then Some (JNum (Z.of_nat (List.length xs)))
      else match arrayIndex k with
           | Some i => nth_error xs i
           | None => None
           end
  | JStr s =>
      if String.eqb k "length" then Some (JNum (Z.of_nat (String.length s)))
      else match arrayIndex k with
           | Some i =>
               match String.get i s with
               | Some c => Some (JStr (String c EmptyString))
               | None => None
               end
           | None => None
           end
  | JNull | JBool _ | JNum _ => None
  end.

(** Split a path at every dot: lodash's [stringToPath] on a path without
    brackets (["a.b"] gives [a; b], [".b"] gives the empty key then [b]).
    The paths of the three endpoints are of this kind; the bracket and
    quoted-key syntax of lodash is not covered. *)
Fixpoint splitDots (s : string) (cur : string) : list string :=
  match s with
  | EmptyString => [cur]
  | String c rest =>
      if Ascii.eqb c "."%char then cur :: splitDots rest ""
      else splitDots rest (cur ++ String c EmptyString)%string
  end.

Definition stringToPath (path : string) : list string := splitDots path "".

(** lodash's [castPath]: a path that is itself a field of the object is one
    key; otherwise it is split. *)
Definition castPath (path : string) (object : JSON) : list string :=
  match object with
  | JObj fs =>
      match assoc path fs with
      | Some _ => [path]
      | None => stringToPath path
      end
  | _ => stringToPath path
  end.

(** lodash's [baseGet]: the walk stops at [null] or [undefined]; stopping
    before the end of the path gives [undefined]. *)
Fixpoint baseGet (object : JSval) (path : list string) : JSval :=
  match path with
  | [] => object
  | k :: rest =>
      match object with
      | None | Some JNull => None
      | Some v => baseGet (getProp v k) rest
      end
  end.

(** [_.get(object, path, defaultValue)]. *)
Definition lodash_get (object : JSval) (path : string) (defaultValue : JSON) : JSON :=
  match object with
  | None | Some JNull => defaultValue
  | Some v =>
      match baseGet (Some v) (castPath path v) with
      | None => defaultValue
      | Some r => r
      end
  end.

(** ** PostIdSet *)

Module PostIdSet.

(** [private ids: Set<string>].  The type annotation is erased when the
    code runs, so the element type is left open here. *)
Abbreviation t := (gset _).

Section Ids.

Context {K : Type} `{Countable K}.

Definition empty : gset K := ∅.

Definition has (id : K) (ids : gset K) : bool := bool_decide (id ∈ ids).

(** [add(id)]: the answer of [has] before the insertion, and the set after
    it. *)
Definition add (id : K) (ids : gset K) : bool * gset K :=
  let contains := has id ids in
  (contains, {[ id ]} ∪ ids).

(** The set after a sequence of [add] calls, oldest first. *)
Definition addAll (calls : list K) (ids : gset K) : gset K :=
  fold_left (fun s id => snd (add id s)) calls ids.

End Ids.

End PostIdSet.

(** What the [Set] holds once the engine has put the ids of a payload into
    it: [post["node"]["id"]] is whatever the payload carries.  A [Set]
    compares [undefined], [null], booleans, numbers and strings by value, and
    objects and arrays by reference; [KRef r] is the reference of one object.
    Every object of a parsed payload is a new one. *)
Inductive IdKey : Type :=
| KUndefined
| KNull
| KBool (b : bool)
| KNum (n : Z)
| KStr (s : string)
| KRef (r : nat).

#[global] Instance IdKey_eq_dec : EqDecision IdKey.
Proof. solve_decision. Defined.

#[global] Instance IdKey_countable : Countable IdKey.
Proof.
  refine (inj_countable'
    (fun k => match k with
              | KUndefined => inl (inl true)
              | KNull => inl (inl false)
              | KBool b => inl (inr b)
              | KNum n => inr (inl n)
              | KStr s => inr (inr (inl s))
              | KRef r => inr (inr (inr r))
              end)
    (fun x => match x with
              | inl (inl true) => KUndefined
              | inl (inl false) => KNull
              | inl (inr b) => KBool b
              | inr (inl n) => KNum n
              | inr (inr (inl s)) => KStr s
              | inr (inr (inr r)) => KRef r
              end) _).
  by intros [].
Defined.

(** The key of a value that is compared by value. *)
Definition primitiveKey (v : JSval) : option IdKey :=
  match v with
  | None => Some KUndefined
  | Some JNull => Some KNull
  | Some (JBool b) => Some (KBool b)
  | Some (JNum n) => Some (KNum n)
  | Some (JStr s) => Some (KStr s)
  | Some (JArr _) | Some (JObj _) => None
  end.

(** The references a set holds, and one it does not hold. *)
Definition refsOf (ids : gset IdKey) : gset nat :=
  set_omap (fun k => match k with KRef r => Some r | _ => None end) ids.

Definition freshRef (ids : gset IdKey) : nat := fresh (refsOf ids).

(** The key under which a value read from a payload meets the set [ids]: an
    object or an array is a reference the set cannot hold yet. *)
Definition keyOf (ids : gset IdKey) (v : JSval) : IdKey :=
  match primitiveKey v with
  | Some k => k
  | None => KRef (freshRef ids)
  end.

(** [String(v)], as the concatenation ["..." + v] computes it: the elements
    of an array joined by commas, [null] among them as the empty string. *)
Fixpoint jsString (v : JSON) : string :=
  match v with
  | JNull => "null"
  | JBool true => "true"
  | JBool false => "false"
  | JNum n => pretty n
  | JStr s => s
  | JArr xs =>
      String.concat ","
        (map (fun x => match x with JNull => "" | _ => jsString x end) xs)
  | JObj _ => "[object Object]"
  end.

Definition stringOf (v : JSval) : string :=
  match v with
  | None => "undefined"
  | Some j => jsString j
  end.

(** ** Requests, responses and what the engine does to the outside world *)

Definition Headers : Type := list (string * string).

(** An intercepted request: [req.url()] and [req.headers()]. *)
Record Request : Type := { req_url : string; req_headers : Headers }.

(** What [res.json()] does: it returns the parsed body or throws. *)
Inductive Body : Type :=
| Parsed (data : JSON)
| Unparseable (err : string).

(** An intercepted response: [res.url()] and the result of [res.json()]. *)
Record Response : Type := { res_url : string; res_body : Body }.

(** [enum Progress]. *)
Inductive Progress : Type :=
| LAUNCHING | OPENING | SCRAPING | BRANCHING | GRAFTING | CLOSING | PAUSED | ABORTED.

(** The calls the engine makes on its collaborators, in the order made. *)
Inductive Event : Type :=
| EvStatus (state : Progress) (sleeping scraped : Z)
    (* [progress]: the status line written to stdout and to [logger.debug] *)
| EvLogError (e : string)                           (* [logger.error] *)
| EvLogInfo (msg : string)                          (* [logger.info] *)
| EvLaunch (args : list string) (headless : bool)   (* [launch] *)
| EvNewPage                                         (* [browser.newPage] *)
| EvGoto (url : string)                             (* [page.goto] *)
| EvListen                 (* [setRequestInterception] and the [page.on] calls *)
| EvPageClose                                       (* [page.close] *)
| EvBrowserClose                                    (* [browser.close] *)
| EvContinue (url : option string) (headers : option Headers)
    (* [req.continue]; [None] is an [undefined] override *)
| EvKey (key : string)                              (* [keyboard.press] *)
| EvMouseMove                                       (* [mouse.move] *)
| EvWait (ms : Z)                                   (* [setTimeout] awaited *)
| EvNewline.                                        (* the final newline *)

(** An entry of [pagePromises]: the [postPage] call for a shortcode, and
    whether it has pushed its record yet. *)
Record PagePromise : Type := { pp_shortcode : JSval; pp_settled : bool }.

(** ** Options and the fields of the class *)

(** [interface IOptions]; [None] is a field left [undefined].  The logger is
    the [events] sink. *)
Record IOptions : Type := {
  opt_total : option Z;
  opt_headless : option bool;
  opt_silent : option bool;
  opt_sleepTime : option Z;
  opt_hibernationTime : option Z;
  opt_enableGrafting : option bool;
  opt_fullAPI : option bool;
  opt_proxyURL : option string
}.

(** The [readonly] fields of [Instagram], and [process.env.NO_SANDBOX]. *)
Record Config : Type := {
  resource_id : string;   (* [this.id] *)
  url : string;
  pageQuery : string;
  edgeQuery : string;
  total : Z;
  headless : bool;
  silent : bool;
  sleepTime : Z;
  hibernationTime : Z;
  enableGrafting : bool;
  fullAPI : bool;
  proxyURL : option string;
  noSandbox : bool
}.

Definition catchURL : string := "https://www.instagram.com/graphql/query".
Definition postURL : string := "https://instagram.com/p/".
Definition jumpMod : Z := 100.
Definition maxPageUrlAttempts : Z := 3.

(** The mutable fields of [Instagram]; [events] collects the calls made so
    far and [yielded] the posts the generator has handed to its caller. *)
Record State : Type := {
  page : bool;              (* whether [this.browser] and [this.page] are assigned *)
  postBuffer : list JSON;
  requestBuffer : list Request;
  responseBuffer : list Response;
  pagePromises : list PagePromise;
  graft : bool;
  lastURL : option string;
  lastHeaders : option Headers;
  hibernate : bool;
  started : bool;
  paused : bool;
  finished : bool;
  postIds : gset IdKey;     (* the [Set] inside [PostIdSet] *)
  index : Z;
  jumps : Z;
  pageUrlAttempts : Z;
  sleepRemaining : Z;
  events : list Event;
  yielded : list JSON
}.

Definition set_page (v : bool) (st : State) : State :=
  {| page := v;
     postBuffer := postBuffer st;
     requestBuffer := requestBuffer st;
     responseBuffer := responseBuffer st;
     pagePromises := pagePromises st;
     graft := graft st;
     lastURL := lastURL st;
     lastHeaders := lastHeaders st;
     hibernate := hibernate st;
     started := started st;
     paused := paused st;
     finished := finished st;
     postIds := postIds st;
     index := index st;
     jumps := jumps st;
     pageUrlAttempts := pageUrlAttempts st;
     sleepRemaining := sleepRemaining st;
     events := events st;
     yielded := yielded st |}.

Definition set_postBuffer (v : list JSON) (st : State) : State :=
  {| page := page st;
     postBuffer := v;
     requestBuffer := requestBuffer st;
     responseBuffer := responseBuffer st;
     pagePromises := pagePromises st;
     graft := graft st;
     lastURL := lastURL st;
     lastHeaders := lastHeaders st;
     hibernate := hibernate st;
     started := started st;
     paused := paused st;
     finished := finished st;
     postIds := postIds st;
     index := index st;
     jumps := jumps st;
     pageUrlAttempts := pageUrlAttempts st;
     sleepRemaining := sleepRemaining st;
     events := events st;
     yielded := yielded st |}.

Definition set_requestBuffer (v : list Request) (st : State) : State :=
  {| page := page st;
     postBuffer := postBuffer st;
     requestBuffer := v;
     responseBuffer := responseBuffer st;
     pagePromises := pagePromises st;
     graft := graft st;
     lastURL := lastURL st;
     lastHeaders := lastHeaders st;
     hibernate := hibernate st;
     started := started st;
     paused := paused st;
     finished := finished st;
     postIds := postIds st;
     index := index st;
     jumps := jumps st;
     pageUrlAttempts := pageUrlAttempts st;
     sleepRemaining := sleepRemaining st;
     events := events st;
     yielded := yielded st |}.

Definition set_responseBuffer (v : list Response) (st : State) : State :=
  {| page := page st;
     postBuffer := postBuffer st;
     requestBuffer := requestBuffer st;
     responseBuffer := v;
     pagePromises := pagePromises st;
     graft := graft st;
     lastURL := lastURL st;
     lastHeaders := lastHeaders st;
     hibernate := hibernate st;
     started := started st;
     paused := paused st;
     finished := finished st;
     postIds := postIds st;
     index := index st;
     jumps := jumps st;
     pageUrlAttempts := pageUrlAttempts st;
     sleepRemaining := sleepRemaining st;
     events := events st;
     yielded := yielded st |}.

Definition set_pagePromises (v : list PagePromise) (st : State) : State :=
  {| page := page st;
     postBuffer := postBuffer st;
     requestBuffer := requestBuffer st;
     responseBuffer := responseBuffer st;
     pagePromises := v;
     graft := graft st;
     lastURL := lastURL st;
     lastHeaders := lastHeaders st;
     hibernate := hibernate st;
     started := started st;
     paused := paused st;
     finished := finished st;
     postIds := postIds st;
     index := index st;
     jumps := jumps st;
     pageUrlAttempts := pageUrlAttempts st;
     sleepRemaining := sleepRemaining st;
     events := events st;
     yielded := yielded st |}.

Definition set_graft (v : bool) (st : State) : State :=
  {| page := page st;
     postBuffer := postBuffer st;
     requestBuffer := requestBuffer st;
     responseBuffer := responseBuffer st;
     pagePromises := pagePromises st;
     graft := v;
     lastURL := lastURL st;
     lastHeaders := lastHeaders st;
     hibernate := hibernate st;
     started := started st;
     paused := paused st;
     finished := finished st;
     postIds := postIds st;
     index := index st;
     jumps := jumps st;
     pageUrlAttempts := pageUrlAttempts st;
     sleepRemaining := sleepRemaining st;
     events := events st;
     yielded := yielded st |}.

Definition set_lastURL (v : option string) (st : State) : State :=
  {| page := page st;
     postBuffer := postBuffer st;
     requestBuffer := requestBuffer st;
     responseBuffer := responseBuffer st;
     pagePromises := pagePromises st;
     graft := graft st;
     lastURL := v;
     lastHeaders := lastHeaders st;
     hibernate := hibernate st;
     started := started st;
     paused := paused st;
     finished := finished st;
     postIds := postIds st;
     index := index st;
     jumps := jumps st;
     pageUrlAttempts := pageUrlAttempts st;
     sleepRemaining := sleepRemaining st;
     events := events st;
     yielded := yielded st |}.

Definition set_lastHeaders (v : option Headers) (st : State) : State :=
  {| page := page st;
     postBuffer := postBuffer st;
     requestBuffer := requestBuffer st;
     responseBuffer := responseBuffer st;
     pagePromises := pagePromises st;
     graft := graft st;
     lastURL := lastURL st;
     lastHeaders := v;
     hibernate := hibernate st;
     started := started st;
     paused := paused st;
     finished := finished st;
     postIds := postIds st;
     index := index st;
     jumps := jumps st;
     pageUrlAttempts := pageUrlAttempts st;
     sleepRemaining := sleepRemaining st;
     events := events st;
     yielded := yielded st |}.

Definition set_hibernate (v : bool) (st : State) : State :=
  {| page := page st;
     postBuffer := postBuffer st;
     requestBuffer := requestBuffer st;
     responseBuffer := responseBuffer st;
     pagePromises := pagePromises st;
     graft := graft st;
     lastURL := lastURL st;
     lastHeaders := lastHeaders st;
     hibernate := v;
     started := started st;
     paused := paused st;
     finished := finished st;
     postIds := postIds st;
     index := index st;
     jumps := jumps st;
     pageUrlAttempts := pageUrlAttempts st;
     sleepRemaining := sleepRemaining st;
     events := events st;
     yielded := yielded st |}.

Definition set_started (v : bool) (st : State) : State :=
  {| page := page st;
     postBuffer := postBuffer st;
     requestBuffer := requestBuffer st;
     responseBuffer := responseBuffer st;
     pagePromises := pagePromises st;
     graft := graft st;
     lastURL := lastURL st;
     lastHeaders := lastHeaders st;
     hibernate := hibernate st;
     started := v;
     paused := paused st;
     finished := finished st;
     postIds := postIds st;
     index := index st;
     jumps := jumps st;
     pageUrlAttempts := pageUrlAttempts st;
     sleepRemaining := sleepRemaining st;
     events := events st;
     yielded := yielded st |}.

Definition set_paused (v : bool) (st : State) : State :=
  {| page := page st;
     postBuffer := postBuffer st;
     requestBuffer := requestBuffer st;
     responseBuffer := responseBuffer st;
     pagePromises := pagePromises st;
     graft := graft st;
     lastURL := lastURL st;
     lastHeaders := lastHeaders st;
     hibernate := hibernate st;
     started := started st;
     paused := v;
     finished := finished st;
     postIds := postIds st;
     index := index st;
     jumps := jumps st;
     pageUrlAttempts := pageUrlAttempts st;
     sleepRemaining := sleepRemaining st;
     events := events st;
     yielded := yielded st |}.

Definition set_finished (v : bool) (st : State) : State :=
  {| page := page st;
     postBuffer := postBuffer st;
     requestBuffer := requestBuffer st;
     responseBuffer := responseBuffer st;
     pagePromises := pagePromises st;
     graft := graft st;
     lastURL := lastURL st;
     lastHeaders := lastHeaders st;
     hibernate := hibernate st;
     started := started st;
     paused := paused st;
     finished := v;
     postIds := postIds st;
     index := index st;
     jumps := jumps st;
     pageUrlAttempts := pageUrlAttempts st;
     sleepRemaining := sleepRemaining st;
     events := events st;
     yielded := yielded st |}.

Definition set_postIds (v : PostIdSet.t) (st : State) : State :=
  {| page := page st;
     postBuffer := postBuffer st;
     requestBuffer := requestBuffer st;
     responseBuffer := responseBuffer st;
     pagePromises := pagePromises st;
     graft := graft st;
     lastURL := lastURL st;
     lastHeaders := lastHeaders st;
     hibernate := hibernate st;
     started := started st;
     paused := paused st;
     finished := finished st;
     postIds := v;
     index := index st;
     jumps := jumps st;
     pageUrlAttempts := pageUrlAttempts st;
     sleepRemaining := sleepRemaining st;
     events := events st;
     yielded := yielded st |}.

Definition set_index (v : Z) (st : State) : State :=
  {| page := page st;
     postBuffer := postBuffer st;
     requestBuffer := requestBuffer st;
     responseBuffer := responseBuffer st;
     pagePromises := pagePromises st;
     graft := graft st;
     lastURL := lastURL st;
     lastHeaders := lastHeaders st;
     hibernate := hibernate st;
     started := started st;
     paused := paused st;
     finished := finished st;
     postIds := postIds st;
     index := v;
     jumps := jumps st;
     pageUrlAttempts := pageUrlAttempts st;
     sleepRemaining := sleepRemaining st;
     events := events st;
     yielded := yielded st |}.

Definition set_jumps (v : Z) (st : State) : State :=
  {| page := page st;
     postBuffer := postBuffer st;
     requestBuffer := requestBuffer st;
     responseBuffer := responseBuffer st;
     pagePromises := pagePromises st;
     graft := graft st;
     lastURL := lastURL st;
     lastHeaders := lastHeaders st;
     hibernate := hibernate st;
     started := started st;
     paused := paused st;
     finished := finished st;
     postIds := postIds st;
     index := index st;
     jumps := v;
     pageUrlAttempts := pageUrlAttempts st;
     sleepRemaining := sleepRemaining st;
     events := events st;
     yielded := yielded st |}.

Definition set_pageUrlAttempts (v : Z) (st : State) : State :=
  {| page := page st;
     postBuffer := postBuffer st;
     requestBuffer := requestBuffer st;
     responseBuffer := responseBuffer st;
     pagePromises := pagePromises st;
     graft := graft st;
     lastURL := lastURL st;
     lastHeaders := lastHeaders st;
     hibernate := hibernate st;
     started := started st;
     paused := paused st;
     finished := finished st;
     postIds := postIds st;
     index := index st;
     jumps := jumps st;
     pageUrlAttempts := v;
     sleepRemaining := sleepRemaining st;
     events := events st;
     yielded := yielded st |}.

Definition set_sleepRemaining (v : Z) (st : State) : State :=
  {| page := page st;
     postBuffer := postBuffer st;
     requestBuffer := requestBuffer st;
     responseBuffer := responseBuffer st;
     pagePromises := pagePromises st;
     graft := graft st;
     lastURL := lastURL st;
     lastHeaders := lastHeaders st;
     hibernate := hibernate st;
     started := started st;
     paused := paused st;
     finished := finished st;
     postIds := postIds st;
     index := index st;
     jumps := jumps st;
     pageUrlAttempts := pageUrlAttempts st;
     sleepRemaining := v;
     events := events st;
     yielded := yielded st |}.

Definition set_events (v : list Event) (st : State) : State :=
  {| page := page st;
     postBuffer := postBuffer st;
     requestBuffer := requestBuffer st;
     responseBuffer := responseBuffer st;
     pagePromises := pagePromises st;
     graft := graft st;
     lastURL := lastURL st;
     lastHeaders := lastHeaders st;
     hibernate := hibernate st;
     started := started st;
     paused := paused st;
     finished := finished st;
     postIds := postIds st;
     index := index st;
     jumps := jumps st;
     pageUrlAttempts := pageUrlAttempts st;
     sleepRemaining := sleepRemaining st;
     events := v;
     yielded := yielded st |}.

Definition set_yielded (v : list JSON) (st : State) : State :=
  {| page := page st;
     postBuffer := postBuffer st;
     requestBuffer := requestBuffer st;
     responseBuffer := responseBuffer st;
     pagePromises := pagePromises st;
     graft := graft st;
     lastURL := lastURL st;
     lastHeaders := lastHeaders st;
     hibernate := hibernate st;
     started := started st;
     paused := paused st;
     finished := finished st;
     postIds := postIds st;
     index := index st;
     jumps := jumps st;
     pageUrlAttempts := pageUrlAttempts st;
     sleepRemaining := sleepRemaining st;
     events := events st;
     yielded := v |}.

(** [Instagram.defaultOptions] followed by the constructor's copies. *)
Definition mkConfig (endpoint ident pq eq : string) (env_no_sandbox : bool)
    (options : IOptions) : Config :=
  {| resource_id := ident;
     url := (endpoint ++ ident)%string;
     pageQuery := pq;
     edgeQuery := eq;
     total := default 0 (opt_total options);
     headless := default true (opt_headless options);
     silent := default false (opt_silent options);
     sleepTime := default 2 (opt_sleepTime options);
     hibernationTime := default (60 * 20) (opt_hibernationTime options);
     enableGrafting := default true (opt_enableGrafting options);
     fullAPI := default false (opt_fullAPI options);
     proxyURL := opt_proxyURL options;
     noSandbox := env_no_sandbox |}.

(** The field initialisers of the class. *)
Definition initialState : State :=
  {| page := false;
     postBuffer := [];
     requestBuffer := [];
     responseBuffer := [];
     pagePromises := [];
     graft := false;
     lastURL := None;
     lastHeaders := None;
     hibernate := false;
     started := false;
     paused := false;
     finished := false;
     postIds := PostIdSet.empty;
     index := 0;
     jumps := 0;
     pageUrlAttempts := 0;
     sleepRemaining := 0;
     events := [];
     yielded := [] |}.

(** The three subclasses fix the endpoint and the two query paths. *)
Definition Hashtag (ident : string) : bool -> IOptions -> Config :=
  mkConfig "https://instagram.com/explore/tags/" ident
    "data.hashtag.edge_hashtag_to_media.page_info"
    "data.hashtag.edge_hashtag_to_media.edges".

Definition Location (ident : string) : bool -> IOptions -> Config :=
  mkConfig "https://instagram.com/explore/locations/" ident
    "data.location.edge_location_to_media.page_info"
    "data.location.edge_location_to_media.edges".

Definition User (ident : string) : bool -> IOptions -> Config :=
  mkConfig "https://instagram.com/" ident
    "data.user.edge_owner_to_timeline_media.page_info"
    "data.user.edge_owner_to_timeline_media.edges".

(** ** Results of a method *)

(** The exceptions the engine can raise: the fatal navigation error, and a
    [TypeError] of the JavaScript runtime. *)
Inductive Exn : Type :=
| FailedToVisitURL
| TypeError.

(** How a method ends: it returns, it throws, or it waits for input that
    the given environment does not contain. *)
Inductive Outcome (A : Type) : Type :=
| Ok (a : A) (st : State)
| Throw (e : Exn) (st : State)
| Blocked (st : State).
Arguments Ok {A} a st.
Arguments Throw {A} e st.
Arguments Blocked {A} st.

Definition bind {A B : Type} (m : Outcome A) (k : A -> State -> Outcome B) : Outcome B :=
  match m with
  | Ok a st => k a st
  | Throw e st => Throw e st
  | Blocked st => Blocked st
  end.

Notation "x <~ m ;; k" := (bind m (fun x => k))
  (at level 100, m at next level, right associativity).

Definition emit (evs : list Event) (st : State) : State :=
  set_events (events st ++ evs) st.

(** [url.includes(needle)]. *)
Definition includes (needle s : string) : bool :=
  match String.index 0 needle s with
  | Some _ => true
  | None => false
  end.

(** [matchURL]. *)
Definition matchURL (u : string) : bool :=
  String.prefix catchURL u && negb (includes "include_reel" u).

(** ** The methods of [Instagram] *)

Section Engine.

(** The configuration of the instance, and the record a detail page holds for
    a shortcode ([postPage] retries until its visit succeeds). *)
Context (cfg : Config) (detailPage : JSval -> JSON).

(** [progress(state)]: nothing when silent. *)
Definition progress (p : Progress) (st : State) : State :=
  if silent cfg then st
  else emit [EvStatus p (sleepRemaining st) (index st)] st.

(** The countdown of [sleep]: one status line and one second per round. *)
Fixpoint sleepLoop (rounds : nat) (i : Z) (st : State) : State :=
  match rounds with
  | O => st
  | S rounds' =>
      sleepLoop rounds' (i - 1)
        (emit [EvWait 1000] (progress SCRAPING (set_sleepRemaining i st)))
  end.

(** [sleep(time)]: [for (let i = time; i > 0; i--)]. *)
Definition sleep (time : Z) (st : State) : State :=
  progress SCRAPING (set_sleepRemaining 0 (sleepLoop (Z.to_nat time) time st)).

(** [interceptRequest] and [interceptResponse]. *)
Definition interceptRequest (req : Request) (st : State) : State :=
  set_requestBuffer (requestBuffer st ++ [req]) st.

Definition interceptResponse (res : Response) (st : State) : State :=
  set_responseBuffer (responseBuffer st ++ [res]) st.

(** [addToPostBuffer]. *)
Definition addToPostBuffer (post : JSON) (st : State) : State :=
  set_postBuffer (postBuffer st ++ [post]) st.

(** The body of the loop of [processRequests] for one request. *)
Definition processRequest (req : Request) (st : State) : State :=
  if negb (matchURL (req_url req)) then st
  else if graft st
  then emit [EvContinue (lastURL st) (lastHeaders st)] st
  else emit [EvContinue (Some (req_url req)) (Some (req_headers req))]
         (set_lastHeaders (Some (req_headers req))
            (set_lastURL (Some (req_url req)) st)).

(** [processRequests]. *)
Definition processRequests (st : State) : State :=
  set_requestBuffer [] (fold_left (fun s req => processRequest req s) (requestBuffer st) st).

(** [v[k]] where [v] may be [null] or [undefined]. *)
Definition readProp (v : JSval) (k : string) : Exn + JSval :=
  match v with
  | None | Some JNull => inl TypeError
  | Some j => inr (getProp j k)
  end.

(** [post["node"]["id"]]: whatever value the payload has there, [undefined]
    when the node has no [id]. *)
Definition postIdOf (post : JSON) : Exn + JSval :=
  match readProp (Some post) "node" with
  | inl e => inl e
  | inr node => readProp node "id"
  end.

(** [post["node"]["shortcode"]], read after the id. *)
Definition shortcodeOf (post : JSON) : JSval :=
  match getProp post "node" with
  | Some node => getProp node "shortcode"
  | None => None
  end.

(** [data && "status" in data && data["status"] === "fail"]; the [in]
    operator throws on a truthy value that is not an object. *)
Definition rateLimited (data : JSval) : Exn + bool :=
  match data with
  | None => inr false
  | Some d =>
      if negb (truthy d) then inr false
      else match d with
           | JObj fs =>
               inr (match assoc "status" fs with
                    | Some (JStr s) => String.eqb s "fail"
                    | _ => false
                    end)
           | JArr _ => inr false
           | _ => inl TypeError
           end
  end.

(** The page-info test: both lookups are truthy. *)
Definition hasNextPage (data : JSval) : bool :=
  truthy (lodash_get data (pageQuery cfg ++ ".has_next_page")%string (JBool false))
  && truthy (lodash_get data (pageQuery cfg ++ ".end_cursor")%string (JBool false)).

Fixpoint chars (s : string) : list JSON :=
  match s with
  | EmptyString => []
  | String c rest => JStr (String c EmptyString) :: chars rest
  end.

(** What [for (const post of posts)] iterates; [None] is not iterable. *)
Definition iterate (posts : JSON) : option (list JSON) :=
  match posts with
  | JArr xs => Some xs
  | JStr s => Some (chars s)
  | _ => None
  end.

(** The inner loop of [processResponses] over the posts of one response. *)
Fixpoint processPosts (posts : list JSON) (st : State) : Outcome unit :=
  match posts with
  | [] => Ok tt st
  | post :: rest =>
      match postIdOf post with
      | inl e => Throw e st
      | inr postId =>
          let (contains, ids) := PostIdSet.add (keyOf (postIds st) postId) (postIds st) in
          let st1 := set_postIds ids st in
          if contains
          then processPosts rest
                 (emit [EvLogInfo ("Duplicate id found: " ++ stringOf postId)%string] st1)
          else if (index st1 <? total cfg) || (total cfg =? 0)
          then
            let st2 := set_index (index st1 + 1) st1 in
            if fullAPI cfg
            then processPosts rest
                   (set_pagePromises
                      (pagePromises st2
                         ++ [{| pp_shortcode := shortcodeOf post; pp_settled := false |}]) st2)
            else processPosts rest (addToPostBuffer post st2)
          else Ok tt (set_finished true st1)
      end
  end.

(** The body of the outer loop of [processResponses] for one response; the
    result is the new value of [disableGraft]. *)
Definition processResponse (res : Response) (disableGraft : bool) (st : State) : Outcome bool :=
  if negb (matchURL (res_url res)) then Ok disableGraft st
  else
    let (data, st1) :=
      match res_body res with
      | Parsed d => (Some d, st)
      | Unparseable e =>
          (None, emit [EvLogError "Error processing response JSON"; EvLogError e] st)
      end in
    match rateLimited data with
    | inl e => Throw e st1
    | inr true => Ok true (set_hibernate true (emit [EvLogInfo "Rate limited"] st1))
    | inr false =>
        let st2 :=
          if negb (hasNextPage data)
          then set_finished true (emit [EvLogInfo "No posts remaining"] st1)
          else st1 in
        match iterate (lodash_get data (edgeQuery cfg) (JArr [])) with
        | None => Throw TypeError st2
        | Some posts => _ <~ processPosts posts st2 ;; Ok true
        end
    end.

Fixpoint processResponseList (rs : list Response) (disableGraft : bool) (st : State)
    : Outcome bool :=
  match rs with
  | [] => Ok disableGraft st
  | res :: rest =>
      dg <~ processResponse res disableGraft st ;; processResponseList rest dg
  end.

(** [processResponses]. *)
Definition processResponses (st : State) : Outcome unit :=
  dg <~ processResponseList (responseBuffer st) false st ;;
  fun st1 =>
    let st2 := if graft st1 && dg then set_graft false st1 else st1 in
    Ok tt (set_responseBuffer [] st2).

(** [postPage] and [await Promise.all(this.pagePromises)].  [detailPage sc]
    is the record that [postPage(sc)] pushes once its page has loaded; the
    attempts that fail before that (error log, status line, two seconds of
    sleep, a new page) are left out of the events.  The detail pages are
    taken to answer in the order of the calls: every call that has not
    pushed its record yet does so at the await, in that order. *)
Definition settle (p : PagePromise) (st : State) : State :=
  if pp_settled p then st else addToPostBuffer (detailPage (pp_shortcode p)) st.

Definition awaitPagePromises (st : State) : State :=
  set_pagePromises
    (map (fun p => {| pp_shortcode := pp_shortcode p; pp_settled := true |}) (pagePromises st))
    (fold_left (fun s p => settle p s) (pagePromises st) st).

(** [postPop]: [None] is the [null] of an empty buffer. *)
Definition postPop (st : State) : JSval * State :=
  match postBuffer st with
  | [] => (None, st)
  | post :: rest => (Some post, set_postBuffer rest st)
  end.

(** The [while (post)] loop of [generator]: pop and yield until the buffer
    is empty or the popped value is falsy. *)
Fixpoint yieldPosts (buffer : list JSON) (st : State) : State :=
  match buffer with
  | [] => st
  | post :: rest =>
      let st1 := set_postBuffer rest st in
      if truthy post
      then yieldPosts rest (set_yielded (yielded st1 ++ [post]) st1)
      else st1
  end.

Definition drain (st : State) : State := yieldPosts (postBuffer st) st.

(** The browser arguments of [constructPage]. *)
Definition browserArgs : list string :=
  (if noSandbox cfg then ["--no-sandbox"; "--disable-setuid-sandbox"] else [])
  ++ match proxyURL cfg with
     | Some p => [("--proxy-server=" ++ p)%string]
     | None => []
     end.

(** [constructPage].  [gotos] lists the results of the coming [page.goto]
    calls: [None] for a page that loads, [Some e] for one that throws [e].
    The result is the part of [gotos] not used. *)
Fixpoint constructPage (gotos : list (option string)) (st : State)
    : Outcome (list (option string)) :=
  let st1 := progress LAUNCHING st in
  let st2 := set_page true (emit [EvLaunch browserArgs (headless cfg); EvNewPage] st1) in
  let st3 := emit [EvGoto (url cfg)] (progress OPENING st2) in
  match gotos with
  | [] => Blocked st3
  | None :: rest => Ok rest st3
  | Some e :: rest =>
      let attempts := pageUrlAttempts st3 in
      let st4 := set_pageUrlAttempts (attempts + 1) st3 in
      if (attempts =? maxPageUrlAttempts) && negb (started st4)
      then Throw FailedToVisitURL st4
      else
        let st5 := emit [EvLogError e] st4 in
        let st6 := sleep 60 (progress ABORTED st5) in
        constructPage rest (emit [EvPageClose; EvBrowserClose] st6)
  end.

(** [start]. *)
Definition start (gotos : list (option string)) (st : State)
    : Outcome (list (option string)) :=
  rest <~ constructPage gotos st ;;
  fun st1 => Ok rest (emit [EvListen] (set_started true st1)).

(** What [stop] does once the detail pages are awaited, on an instance that
    has a page: it closes the page and the browser and empties the two
    interception buffers. *)
Definition close (st : State) : State :=
  set_responseBuffer [] (set_requestBuffer [] (emit [EvPageClose; EvBrowserClose] st)).

(** [stop].  On an instance that never opened a page, [this.page.close()]
    throws a [TypeError]. *)
Definition stop (st : State) : Outcome unit :=
  let st1 := awaitPagePromises (progress CLOSING st) in
  if page st1 then Ok tt (close st1) else Throw TypeError st1.

(** [initiateGraft]. *)
Definition initiateGraft (gotos : list (option string)) (st : State)
    : Outcome (list (option string)) :=
  if negb (enableGrafting cfg) then Ok gotos st
  else
    _ <~ stop (progress GRAFTING st) ;;
    fun st1 => start gotos (set_graft true st1).

(** [jump].  It presses the keys of [this.page], and throws a [TypeError]
    on an instance without one. *)
Definition jump (st : State) : Outcome unit :=
  if page st
  then
    let st1 := emit [EvKey "PageUp"; EvKey "End"; EvMouseMove] st in
    Ok tt (set_jumps (jumps st1 + 1) st1)
  else Throw TypeError st.

(** [pause], [toggleHibernation] and [forceStop]. *)
Definition pause (st : State) : State := set_paused (negb (paused st)) st.
Definition toggleHibernation (st : State) : State := set_hibernate true st.
Definition forceStop (st : State) : Outcome unit := stop st.

(** [waitResume].  Each turn of its loop writes the status line and waits
    200 milliseconds.  [resumes] tells, turn by turn, whether the caller
    calls [pause] during that wait; when it says no more, the wait goes
    on. *)
Fixpoint waitResume (resumes : list bool) (st : State) : Outcome unit :=
  if paused st
  then
    let st1 := emit [EvWait 200] (progress PAUSED st) in
    match resumes with
    | [] => Blocked st1
    | true :: _ => Ok tt (pause st1)
    | false :: rest => waitResume rest st1
    end
  else Ok tt st.

(** What the outside does during one round of the loop of [getNext]: the
    requests and responses the interception callbacks have pushed when the
    drains begin, and the caller's part in [waitResume]. *)
Record Arrival : Type := {
  arr_requests : list Request;
  arr_responses : list Response;
  arr_resumes : list bool
}.

Definition deliver (a : Arrival) (st : State) : State :=
  fold_left (fun s res => interceptResponse res s) (arr_responses a)
    (fold_left (fun s req => interceptRequest req s) (arr_requests a) st).

(** The second half of one round of the loop of [getNext], after the test
    of [finished]: resume, jump, graft, sleep, hibernate.  The boolean is
    the test [posts > 0] that ends the loop. *)
Definition stimulate (resumes : list bool) (gotos : list (option string)) (st : State)
    : Outcome (bool * list (option string)) :=
  _ <~ waitResume resumes st ;;
  fun st1 =>
  _ <~ jump st1 ;;
  fun st2 =>
    gotos' <~ (if Z.rem (jumps st2) jumpMod =? 0
               then initiateGraft gotos st2 else Ok gotos st2) ;;
    fun st3 =>
      let st4 := sleep (sleepTime cfg) st3 in
      let st5 :=
        if hibernate st4
        then set_hibernate false (sleep (hibernationTime cfg) st4)
        else st4 in
      Ok (negb (Nat.eqb (List.length (postBuffer st5)) 0), gotos') st5.

(** One round of the loop of [getNext] on the buffers as the callbacks
    left them.  The boolean tells whether the loop ends. *)
Definition pollOnce (a : Arrival) (gotos : list (option string)) (st : State)
    : Outcome (bool * list (option string)) :=
  let st1 := processRequests (deliver a st) in
  _ <~ processResponses st1 ;;
  fun st2 =>
    let st3 := awaitPagePromises (progress BRANCHING st2) in
    let st4 := set_pagePromises [] st3 in
    if finished st4 then Ok (true, gotos) st4
    else stimulate (arr_resumes a) gotos st4.

(** The loop of [getNext]: one round per arrival, until a round ends it.
    The result is what is left of the environment. *)
Fixpoint getNextRounds (arrivals : list Arrival) (gotos : list (option string)) (st : State)
    : Outcome (list Arrival * list (option string)) :=
  match arrivals with
  | [] => Blocked st
  | a :: rest =>
      r <~ pollOnce a gotos st ;;
      fun st1 =>
        if fst r then Ok (rest, snd r) st1 else getNextRounds rest (snd r) st1
  end.

(** [getNext]. *)
Definition getNext (arrivals : list Arrival) (gotos : list (option string)) (st : State)
    : Outcome (list Arrival * list (option string)) :=
  getNextRounds arrivals gotos (progress SCRAPING st).

(** The end of [generator]: [stop] and the closing newline. *)
Definition finish (st : State) : Outcome unit :=
  _ <~ stop st ;;
  fun st1 => Ok tt (if silent cfg then st1 else emit [EvNewline] st1).

(** The loop of [generator] with the loop of [getNext] inside it, as one
    recursion on the arrivals: one round of [getNext] per arrival.  When
    [getNext] returns, the buffer is yielded; then the generator ends or
    calls [getNext] again ([pump_getNext] below). *)
Fixpoint pump (arrivals : list Arrival) (gotos : list (option string)) (st : State)
    : Outcome unit :=
  match arrivals with
  | [] => Blocked st
  | a :: rest =>
      r <~ pollOnce a gotos st ;;
      fun st1 =>
        if fst r
        then
          let st2 := drain st1 in
          if finished st2 then finish st2
          else pump rest (snd r) (progress SCRAPING st2)
        else pump rest (snd r) st1
  end.

(** [generator], run against an environment until it ends. *)
Definition generator (arrivals : list Arrival) (gotos : list (option string)) (st : State)
    : Outcome unit :=
  gotos1 <~ (if started st then Ok gotos st else start gotos st) ;;
  fun st1 => pump arrivals gotos1 (progress SCRAPING st1).

End Engine.

(** ** Vocabulary of the statements *)

(** The state a method leaves behind, however it ends. *)
Definition finalState {A : Type} (o : Outcome A) : State :=
  match o with
  | Ok _ st | Throw _ st | Blocked st => st
  end.

(** The status line [progress] writes, as a list of events. *)
Definition statusLine (cfg : Config) (p : Progress) (sleeping scraped : Z) : list Event :=
  if silent cfg then [] else [EvStatus p sleeping scraped].

(** The events of the countdown of [sleep] from [i], for [rounds] rounds. *)
Fixpoint countdown (cfg : Config) (scraped : Z) (rounds : nat) (i : Z) : list Event :=
  match rounds with
  | O => []
  | S rounds' =>
      statusLine cfg SCRAPING i scraped ++ EvWait 1000 :: countdown cfg scraped rounds' (i - 1)
  end.

(** The events of [sleep(time)]: [time] waits of one second. *)
Definition sleepEvents (cfg : Config) (scraped : Z) (time : Z) : list Event :=
  countdown cfg scraped (Z.to_nat time) time ++ statusLine cfg SCRAPING 0 scraped.

(** The seconds waited in a list of events. *)
Definition isWait (e : Event) : bool :=
  match e with
  | EvWait _ => true
  | _ => false
  end.

Definition waits (evs : list Event) : nat := List.length (List.filter isWait evs).

(** Two states that agree on the posts, the promises, the graft,
    hibernation and end flags, the template, the id set and the count: what
    logging, sleeping, waiting to be resumed, browser calls and the
    interception callbacks leave alone. *)
Definition neutral (st st' : State) : Prop :=
  lastURL st' = lastURL st /\
  lastHeaders st' = lastHeaders st /\
  postBuffer st' = postBuffer st /\
  pagePromises st' = pagePromises st /\
  graft st' = graft st /\
  hibernate st' = hibernate st /\
  finished st' = finished st /\
  postIds st' = postIds st /\
  index st' = index st /\
  yielded st' = yielded st.

(** The records the unsettled [postPage] calls are about to push. *)
Definition pendingRecords (detailPage : JSval -> JSON) (st : State) : list JSON :=
  map (fun p => detailPage (pp_shortcode p))
    (List.filter (fun p => negb (pp_settled p)) (pagePromises st)).

Definition matchesRequest (req : Request) : bool := matchURL (req_url req).
Definition matchesResponse (res : Response) : bool := matchURL (res_url res).

(** The template after the requests [reqs] were captured in order. *)
Definition capture (reqs : list Request) (st : State) : State :=
  match last reqs with
  | Some req =>
      set_lastHeaders (Some (req_headers req)) (set_lastURL (Some (req_url req)) st)
  | None => st
  end.

(** What the loop over the posts of a response leaves alone: everything but
    the id set, the count, the post buffer, the promises, [finished] and the
    log. *)
Definition postsFrame (st st' : State) : Prop :=
  requestBuffer st' = requestBuffer st /\
  responseBuffer st' = responseBuffer st /\
  graft st' = graft st /\
  lastURL st' = lastURL st /\
  lastHeaders st' = lastHeaders st /\
  hibernate st' = hibernate st /\
  started st' = started st /\
  paused st' = paused st /\
  jumps st' = jumps st /\
  pageUrlAttempts st' = pageUrlAttempts st /\
  sleepRemaining st' = sleepRemaining st /\
  yielded st' = yielded st.

(** What the [while (post)] loop of the generator yields from a buffer, and
    what it leaves in it: it stops behind the first falsy entry. *)
Fixpoint truthyPrefix (buffer : list JSON) : list JSON :=
  match buffer with
  | [] => []
  | post :: rest => if truthy post then post :: truthyPrefix rest else []
  end.

Fixpoint afterFalsy (buffer : list JSON) : list JSON :=
  match buffer with
  | [] => []
  | post :: rest => if truthy post then afterFalsy rest else rest
  end.

(** The record the engine hands out for an accepted post: the post itself,
    or the record of its detail page in full mode. *)
Definition recordOf (cfg : Config) (detailPage : JSval -> JSON) (post : JSON) : JSON :=
  if fullAPI cfg then detailPage (shortcodeOf post) else post.

(** [k] is a key of the id of [post]: the key of its value when the [Set]
    compares it by value, some reference when the id is an object or an
    array. *)
Definition hasKey (post : JSON) (k : IdKey) : Prop :=
  exists v, postIdOf post = inr v /\
    match primitiveKey v with
    | Some k' => k = k'
    | None => exists r, k = KRef r
    end.

(** The dedup invariant: the records yielded, queued or awaited come, each
    from a post of its own, and these posts were accepted under pairwise
    different keys that are all in the id set. *)
Definition Dedup (cfg : Config) (detailPage : JSval -> JSON) (st : State) : Prop :=
  exists accepted : list (JSON * IdKey),
    NoDup (map snd accepted) /\
    Forall (fun pk => hasKey (fst pk) (snd pk) /\ snd pk ∈ postIds st) accepted /\
    yielded st ++ postBuffer st ++ pendingRecords detailPage st
      ⊆+ map (fun pk => recordOf cfg detailPage (fst pk)) accepted.

(** Every record queued or awaited is truthy, so the generator's
    [while (post)] loop does not stop short of the end of the buffer. *)
Definition Truthy (detailPage : JSval -> JSON) (st : State) : Prop :=
  Forall (fun post => truthy post = true) (postBuffer st ++ pendingRecords detailPage st).

(** The records of the session are truthy by construction: the posts of the
    default mode are objects; in full mode the detail pages must hold truthy
    records. *)
Definition truthyRecords (cfg : Config) (detailPage : JSval -> JSON) : Prop :=
  fullAPI cfg = false \/ forall sc, truthy (detailPage sc) = true.

(** The cap invariant: the count is the number of ids seen, cut at the cap;
    an id beyond the cap has set [finished]; there are never more records
    yielded, queued or awaited than the count says; and when the records are
    truthy there are exactly as many. *)
Definition Capped (cfg : Config) (detailPage : JSval -> JSON) (st : State) : Prop :=
  0 <= index st /\
  index st = Z.min (total cfg) (Z.of_nat (size (postIds st))) /\
  (total cfg < Z.of_nat (size (postIds st)) -> finished st = true) /\
  Z.of_nat (List.length (yielded st ++ postBuffer st ++ pendingRecords detailPage st))
  <= index st /\
  (truthyRecords cfg detailPage ->
     Truthy detailPage st /\
     Z.of_nat (List.length (yielded st ++ postBuffer st ++ pendingRecords detailPage st))
     = index st).

(** The records yielded or queued so far begin with [base]. *)
Definition Keeps (base : list JSON) (st : State) : Prop :=
  exists more, yielded st ++ postBuffer st = base ++ more.


(** The invariant of a session whose records are all truthy: nothing that
    was yielded or queued is ever lost. *)
Definition kept (detailPage : JSval -> JSON) (base : list JSON) (st : State) : Prop :=
  Truthy detailPage st /\ Keeps base st.


(** The state in which [constructPage] awaits [page.goto]: browser launched,
    page opened. *)
Definition visit (cfg : Config) (st : State) : State :=
  emit [EvGoto (url cfg)]
    (progress cfg OPENING
       (set_page true
          (emit [EvLaunch (browserArgs cfg) (headless cfg); EvNewPage]
             (progress cfg LAUNCHING st)))).

(** One retry of [constructPage] after [page.goto] threw [e]: count the
    attempt, log the error, report the abort, sleep 60 seconds, close the
    page and the browser. *)
Definition retry (cfg : Config) (e : string) (st : State) : State :=
  emit [EvPageClose; EvBrowserClose]
    (sleep cfg 60
       (progress cfg ABORTED
          (emit [EvLogError e]
             (set_pageUrlAttempts (pageUrlAttempts st + 1) (visit cfg st))))).

(** ** Sample sessions *)

(** A silent scrape of a user's timeline with the given cap, one second
    between polls and three seconds of hibernation. *)
Definition sampleConfig (cap : Z) : Config :=
  User "bob" false
    {| opt_total := Some cap;
       opt_headless := None;
       opt_silent := Some true;
       opt_sleepTime := Some 1;
       opt_hibernationTime := Some 3;
       opt_enableGrafting := None;
       opt_fullAPI := None;
       opt_proxyURL := None |}.

Definition samplePost (ident : string) : JSON :=
  JObj [("node", JObj [("id", JStr ident); ("shortcode", JStr ident)])].

(** A timeline page with the given next-page flag and posts. *)
Definition samplePage (next : bool) (idents : list string) : JSON :=
  JObj [("data", JObj [("user", JObj [("edge_owner_to_timeline_media",
    JObj [("page_info", JObj [("has_next_page", JBool next); ("end_cursor", JStr "cursor")]);
          ("edges", JArr (map samplePost idents))])])])].

Definition apiURL : string := "https://www.instagram.com/graphql/query/?query_hash=42".

Definition sampleResponse (next : bool) (idents : list string) : Response :=
  {| res_url := apiURL; res_body := Parsed (samplePage next idents) |}.

Definition rateLimitResponse : Response :=
  {| res_url := apiURL; res_body := Parsed (JObj [("status", JStr "fail")]) |}.

Definition brokenResponse : Response :=
  {| res_url := apiURL; res_body := Unparseable "Unexpected token < in JSON" |}.

Definition noDetail : JSval -> JSON := fun _ => JObj [].

(** A session that has started: its page is open and listened to. *)
Definition startedState : State := set_started true (set_page true initialState).

(** A poll that finds the given responses in the buffer. *)
Definition poll (responses : list Response) : Arrival :=
  {| arr_requests := []; arr_responses := responses; arr_resumes := [] |}.

(** A started session one jump before a graft is due, with one post queued
    and the hibernation flag raised. *)
Definition beforeGraft : State :=
  set_hibernate true
    (set_jumps 99 (addToPostBuffer (samplePost "a") startedState)).

(** The id of a post when the [Set] compares it by value. *)
Definition primitiveIdOf (post : JSON) : option IdKey :=
  match postIdOf post with
  | inr v => primitiveKey v
  | inl _ => None
  end.

(** A timeline page with the given next-page flag and posts, and the
    response that carries it. *)
Definition pageOf (next : bool) (posts : list JSON) : JSON :=
  JObj [("data", JObj [("user", JObj [("edge_owner_to_timeline_media",
    JObj [("page_info", JObj [("has_next_page", JBool next); ("end_cursor", JStr "cursor")]);
          ("edges", JArr posts)])])])].

Definition responseOf (next : bool) (posts : list JSON) : Response :=
  {| res_url := apiURL; res_body := Parsed (pageOf next posts) |}.

(** A post whose id is an object. *)
Definition refPost : JSON :=
  JObj [("node", JObj [("id", JObj [("k", JNum 1)]); ("shortcode", JStr "x")])].

(** The events of [turns] turns of the loop of [waitResume]: the status
    line and a wait of 200 milliseconds each. *)
Definition pauseTurns (cfg : Config) (st : State) (turns : nat) : list Event :=
  List.concat
    (repeat (statusLine cfg PAUSED (sleepRemaining st) (index st) ++ [EvWait 200]) turns).

(** A response the drain takes for a rate limit: its URL matches and its
    payload is an object whose [status] is ["fail"]. *)
Definition rateLimitedResponse (res : Response) : bool :=
  matchURL (res_url res)
  && match res_body res with
     | Parsed d =>
         match rateLimited (Some d) with
         | inr b => b
         | inl _ => false
         end
     | Unparseable _ => false
     end.

(** The state in which a round of [getNext] tests [finished]: the buffers
    of the round drained, the detail pages awaited. *)
Definition drained (cfg : Config) (detailPage : JSval -> JSON) (a : Arrival) (st : State)
    : State :=
  set_pagePromises []
    (awaitPagePromises detailPage
       (progress cfg BRANCHING
          (finalState (processResponses cfg (processRequests (deliver a st)))))).

(** The events with which a round of [getNext] ends when it runs to its
    end: the sleep between two polls and, when the hibernation flag is
    raised, the hibernation. *)
Definition roundSleep (cfg : Config) (st : State) : list Event :=
  sleepEvents cfg (index st) (sleepTime cfg)
  ++ (if hibernate st then sleepEvents cfg (index st) (hibernationTime cfg) else []).

(** A started session in graft mode. *)
Definition graftedState : State := set_graft true startedState.

(** ** Vocabulary of the further properties *)

(** A JSON value that is not an object or an array. *)
Definition isPrimitive (d : JSON) : bool :=
  match d with
  | JObj _ | JArr _ => false
  | _ => true
  end.

(** A post from which [post["node"]["id"]] cannot be read: [null], or a
    value whose [node] is missing or [null]. *)
Definition lacksNode (post : JSON) : bool :=
  match post with
  | JNull => true
  | _ => match getProp post "node" with
         | None | Some JNull => true
         | Some _ => false
         end
  end.

(** The [req.continue] calls in a list of events. *)
Definition isContinue (e : Event) : bool :=
  match e with
  | EvContinue _ _ => true
  | _ => false
  end.

Definition continues (evs : list Event) : nat := List.length (List.filter isContinue evs).

(** The seconds remaining that the status lines of a list of events show. *)
Definition reading (e : Event) : list Z :=
  match e with
  | EvStatus _ sleeping _ => [sleeping]
  | _ => []
  end.

Definition readings (evs : list Event) : list Z := concat (map reading evs).

(** [i], [i - 1], ... for [rounds] values. *)
Fixpoint descending (rounds : nat) (i : Z) : list Z :=
  match rounds with
  | O => []
  | S rounds' => i :: descending rounds' (i - 1)
  end.

(** The state after [constructPage] has retried once for each error of
    [errs], in order. *)
Definition retries (cfg : Config) (errs : list string) (st : State) : State :=
  fold_left (fun s e => retry cfg e s) errs st.

(** The invariant of a session without a cap: every id seen is counted, and
    when the records are truthy each has its record yielded, queued or
    awaited. *)
Definition Counted (cfg : Config) (detailPage : JSval -> JSON) (st : State) : Prop :=
  index st = Z.of_nat (size (postIds st)) /\
  (truthyRecords cfg detailPage ->
     Truthy detailPage st /\
     Z.of_nat (List.length (yielded st ++ postBuffer st ++ pendingRecords detailPage st))
     = index st).

(** Counting what is open: a weight per event, summed over the events. *)
Definition tally (w : Event -> Z) (evs : list Event) : Z :=
  fold_right (fun e n => w e + n) 0 evs.

(** The browsers launched and not yet closed. *)
Definition browserDelta (e : Event) : Z :=
  match e with
  | EvLaunch _ _ => 1
  | EvBrowserClose => -1
  | _ => 0
  end.

(** The pages opened on the main browser and not yet closed. *)
Definition pageDelta (e : Event) : Z :=
  match e with
  | EvNewPage => 1
  | EvPageClose => -1
  | _ => 0
  end.

Definition openBrowsers (evs : list Event) : Z := tally browserDelta evs.
Definition openPages (evs : list Event) : Z := tally pageDelta evs.

(** The events that open or close a browser or a page, or navigate. *)
Definition isLifecycle (e : Event) : bool :=
  match e with
  | EvLaunch _ _ | EvNewPage | EvGoto _ | EvPageClose | EvBrowserClose => true
  | _ => false
  end.

(** What a session may launch and visit: a browser with the arguments and
    the mode of its configuration, and the page of its resource. *)
Definition sanctioned (cfg : Config) (e : Event) : bool :=
  match e with
  | EvLaunch args h =>
      bool_decide (args = browserArgs cfg) && Bool.eqb h (headless cfg)
  | EvGoto u => String.eqb u (url cfg)
  | _ => true
  end.

(** The weight that counts the launches and visits that are not. *)
Definition stray (cfg : Config) (e : Event) : Z :=
  if sanctioned cfg e then 0 else 1.

(** Whether a method returned. *)
Definition returned {A : Type} (o : Outcome A) : bool :=
  match o with
  | Ok _ _ => true
  | _ => false
  end.

(** The posts a response supplies: the edge list of a matching response. *)
Definition postsOf (cfg : Config) (res : Response) : list JSON :=
  if matchURL (res_url res)
  then
    let data :=
      match res_body res with
      | Parsed d => Some d
      | Unparseable _ => None
      end in
    match iterate (lodash_get data (edgeQuery cfg) (JArr [])) with
    | Some posts => posts
    | None => []
    end
  else [].

(** The posts the responses of a session supply, in the order of arrival. *)
Definition supplied (cfg : Config) (arrivals : list Arrival) : list JSON :=
  List.concat (map (fun a => List.concat (map (postsOf cfg) (arr_responses a))) arrivals).

(** The order invariant of the default mode: what was yielded, followed by
    what is queued, is a subsequence of the posts seen so far. *)
Definition Ordered (seen : list JSON) (st : State) : Prop :=
  pagePromises st = [] /\ sublist (yielded st ++ postBuffer st) seen.

(** A session of the full API, and detail pages of which the one of post
    "b" holds [null]. *)
Definition fullConfig : Config :=
  User "bob" false
    {| opt_total := None;
       opt_headless := None;
       opt_silent := Some true;
       opt_sleepTime := Some 1;
       opt_hibernationTime := Some 3;
       opt_enableGrafting := None;
       opt_fullAPI := Some true;
       opt_proxyURL := None |}.

Definition lostDetail : JSval -> JSON :=
  fun sc =>
    match sc with
    | Some (JStr s) => if String.eqb s "b" then JNull else JObj [("shortcode", JStr s)]
    | _ => JNull
    end.

(** The state in which [getNext] returns after the last page, with the
    posts "a", "b" and "c", of such a session. *)
Definition lostRound : State :=
  finalState
    (pollOnce fullConfig lostDetail (poll [sampleResponse false ["a"; "b"; "c"]]) []
       startedState).


(** * Proofs *)

(** ** Outcomes *)

Lemma finalState_bind {A B : Type} (P : State -> Prop) (m : Outcome A)
    (k : A -> State -> Outcome B) :
  P (finalState m) ->
  (forall a st, m = Ok a st -> P (finalState (k a st))) ->
  P (finalState (bind m k)).
Proof.
  intros Hm Hk. destruct m as [a st|e st|st]; simpl; auto.
Qed.

(** ** States that differ in neutral fields only *)

Lemma neutral_refl st : neutral st st.
Proof. repeat split. Qed.

Lemma neutral_trans st1 st2 st3 : neutral st1 st2 -> neutral st2 st3 -> neutral st1 st3.
Proof.
  unfold neutral. intros H12 H23. destruct_and!. repeat split; congruence.
Qed.

Lemma emit_neutral evs st : neutral st (emit evs st).
Proof. repeat split. Qed.

Lemma progress_neutral cfg p st : neutral st (progress cfg p st).
Proof. unfold progress. destruct (silent cfg); repeat split. Qed.

Lemma progress_eq cfg p st :
  progress cfg p st = emit (statusLine cfg p (sleepRemaining st) (index st)) st.
Proof.
  unfold progress, statusLine. destruct (silent cfg); [|reflexivity].
  destruct st; unfold emit; simpl. by rewrite app_nil_r.
Qed.

Lemma sleepLoop_eq cfg rounds : forall i st,
  exists r, sleepLoop cfg rounds i st
            = set_events (events st ++ countdown cfg (index st) rounds i)
                (set_sleepRemaining r st).
Proof.
  induction rounds as [|n IH]; intros i st; simpl.
  - exists (sleepRemaining st). destruct st; simpl. by rewrite app_nil_r.
  - destruct (IH (i - 1) (emit [EvWait 1000] (progress cfg SCRAPING (set_sleepRemaining i st))))
      as [r Hr].
    exists r. rewrite Hr. rewrite progress_eq. unfold emit; simpl.
    rewrite <- !app_assoc. reflexivity.
Qed.

(** [sleep] appends its countdown and leaves [sleepRemaining] at zero; it
    touches nothing else. *)
Lemma sleep_eq cfg time st :
  sleep cfg time st
  = set_events (events st ++ sleepEvents cfg (index st) time) (set_sleepRemaining 0 st).
Proof.
  unfold sleep, sleepEvents.
  destruct (sleepLoop_eq cfg (Z.to_nat time) time st) as [r Hr]. rewrite Hr.
  rewrite progress_eq. unfold emit; simpl. rewrite <- !app_assoc. reflexivity.
Qed.

Lemma sleep_neutral cfg time st : neutral st (sleep cfg time st).
Proof. rewrite sleep_eq. repeat split. Qed.

Lemma emit_emit evs1 evs2 st : emit evs2 (emit evs1 st) = emit (evs1 ++ evs2) st.
Proof. unfold emit; simpl. by rewrite app_assoc. Qed.

Lemma emit_nil st : emit [] st = st.
Proof. destruct st; unfold emit; simpl. by rewrite app_nil_r. Qed.

(** ** PostIdSet *)

Lemma addAll_elem (calls : list string) : forall (ids : PostIdSet.t) (x : string),
  x ∈ PostIdSet.addAll calls ids <-> x ∈ ids \/ In x calls.
Proof.
  unfold PostIdSet.addAll.
  induction calls as [|c calls IH]; intros ids x; simpl.
  - tauto.
  - rewrite IH. set_solver.
Qed.

(** C9.  [PostIdSet.add(id)] answers [true] exactly when [id] was given to an
    earlier [add] on the same set (a set starts empty); after the call [id]
    is a member; a second [add] of the same id answers [true] and leaves the
    set as it is; and no member is ever lost. *)
Theorem PostIdSet_add_spec (calls : list string) (id : string) (ids : PostIdSet.t) :
  (fst (PostIdSet.add id (PostIdSet.addAll calls PostIdSet.empty)) = true <-> In id calls) /\
  id ∈ snd (PostIdSet.add id ids) /\
  PostIdSet.add id (snd (PostIdSet.add id ids)) = (true, snd (PostIdSet.add id ids)) /\
  ids ⊆ snd (PostIdSet.add id ids).
Proof.
  unfold PostIdSet.add, PostIdSet.has in *; simpl.
  repeat split.
  - intros H. apply bool_decide_eq_true in H. apply addAll_elem in H.
    unfold PostIdSet.empty in H. set_solver.
  - intros H. apply bool_decide_eq_true. apply addAll_elem. by right.
  - set_solver.
  - f_equal.
    + apply bool_decide_eq_true. set_solver.
    + apply leibniz_equiv. set_solver.
  - set_solver.
Qed.

(** ** The request drain *)

Lemma capture_cons req reqs st :
  capture (req :: reqs) st
  = capture reqs (set_lastHeaders (Some (req_headers req)) (set_lastURL (Some (req_url req)) st)).
Proof.
  unfold capture. rewrite last_cons. destruct (last reqs); reflexivity.
Qed.

Lemma processRequest_fold (reqs : list Request) : forall st,
  fold_left (fun s req => processRequest req s) reqs st
  = if graft st
    then emit (map (fun _ => EvContinue (lastURL st) (lastHeaders st))
                 (List.filter matchesRequest reqs)) st
    else emit (map (fun req => EvContinue (Some (req_url req)) (Some (req_headers req)))
                 (List.filter matchesRequest reqs))
           (capture (List.filter matchesRequest reqs) st).
Proof.
  induction reqs as [|req reqs IH]; intros st; simpl.
  - unfold capture; simpl. rewrite emit_nil. by destruct (graft st).
  - rewrite IH. unfold processRequest, matchesRequest.
    destruct (matchURL (req_url req)) eqn:Hm; simpl; [|reflexivity].
    destruct (graft st) eqn:Hg; simpl.
    + rewrite Hg. rewrite emit_emit. reflexivity.
    + rewrite Hg. rewrite capture_cons.
      set (tpl := set_lastHeaders _ _).
      unfold capture. destruct (last _); unfold emit; simpl; by rewrite <- app_assoc.
Qed.

Lemma processRequests_eq (st : State) :
  processRequests st
  = set_requestBuffer []
      (if graft st
       then emit (map (fun _ => EvContinue (lastURL st) (lastHeaders st))
                    (List.filter matchesRequest (requestBuffer st))) st
       else emit (map (fun req => EvContinue (Some (req_url req)) (Some (req_headers req)))
                    (List.filter matchesRequest (requestBuffer st)))
              (capture (List.filter matchesRequest (requestBuffer st)) st)).
Proof.
  unfold processRequests. rewrite processRequest_fold. reflexivity.
Qed.

Lemma deliver_eq a st :
  deliver a st
  = set_responseBuffer (responseBuffer st ++ arr_responses a)
      (set_requestBuffer (requestBuffer st ++ arr_requests a) st).
Proof.
  unfold deliver.
  assert (Hreq : forall reqs s,
    fold_left (fun s req => interceptRequest req s) reqs s
    = set_requestBuffer (requestBuffer s ++ reqs) s).
  { induction reqs as [|r reqs IH]; intros s; simpl.
    - destruct s; simpl. by rewrite app_nil_r.
    - rewrite IH. unfold interceptRequest; simpl. by rewrite <- app_assoc. }
  assert (Hres : forall ress s,
    fold_left (fun s res => interceptResponse res s) ress s
    = set_responseBuffer (responseBuffer s ++ ress) s).
  { induction ress as [|r ress IH]; intros s; simpl.
    - destruct s; simpl. by rewrite app_nil_r.
    - rewrite IH. unfold interceptResponse; simpl. by rewrite <- app_assoc. }
  rewrite Hreq, Hres. reflexivity.
Qed.

Lemma deliver_neutral a st : neutral st (deliver a st).
Proof. rewrite deliver_eq. repeat split. Qed.

Lemma jump_neutral st : neutral st (finalState (jump st)).
Proof. unfold jump. destruct (page st); repeat split. Qed.

Lemma waitResume_neutral cfg resumes : forall st,
  neutral st (finalState (waitResume cfg resumes st)).
Proof.
  induction resumes as [|b rest IH]; intros st; simpl.
  - destruct (paused st); [rewrite progress_eq|]; repeat split.
  - destruct (paused st); [|repeat split].
    destruct b; [rewrite progress_eq; repeat split|].
    eapply neutral_trans; [|apply IH]. rewrite progress_eq. repeat split.
Qed.

Lemma constructPage_neutral cfg gotos : forall st,
  neutral st (finalState (constructPage cfg gotos st)).
Proof.
  induction gotos as [|g gotos IH]; intros st; simpl.
  - rewrite !progress_eq. repeat split.
  - destruct g as [e|]; [|rewrite !progress_eq; repeat split].
    match goal with |- context [if ?c then _ else _] => destruct c end.
    + rewrite !progress_eq. repeat split.
    + eapply neutral_trans; [|apply IH].
      rewrite sleep_eq, !progress_eq. repeat split.
Qed.

Lemma start_neutral cfg gotos st : neutral st (finalState (start cfg gotos st)).
Proof.
  unfold start. apply (finalState_bind (neutral st)).
  - apply constructPage_neutral.
  - intros rest st1 H. simpl.
    pose proof (constructPage_neutral cfg gotos st) as Hn. rewrite H in Hn. simpl in Hn.
    eapply neutral_trans; [exact Hn|]. repeat split.
Qed.

(** ** The detail pages *)

Lemma settle_fold detailPage (ps : list PagePromise) : forall st,
  fold_left (fun s p => settle detailPage p s) ps st
  = set_postBuffer
      (postBuffer st
         ++ map (fun p => detailPage (pp_shortcode p))
              (List.filter (fun p => negb (pp_settled p)) ps)) st.
Proof.
  induction ps as [|p ps IH]; intros st; simpl.
  - destruct st; simpl. by rewrite app_nil_r.
  - rewrite IH. unfold settle. destruct (pp_settled p); simpl; [reflexivity|].
    unfold addToPostBuffer; simpl. by rewrite <- app_assoc.
Qed.

(** [await Promise.all] appends the pending records and marks every promise
    settled. *)
Lemma awaitPagePromises_eq detailPage st :
  awaitPagePromises detailPage st
  = set_pagePromises
      (map (fun p => {| pp_shortcode := pp_shortcode p; pp_settled := true |}) (pagePromises st))
      (set_postBuffer (postBuffer st ++ pendingRecords detailPage st) st).
Proof.
  unfold awaitPagePromises. rewrite settle_fold. reflexivity.
Qed.

(** ** The loop over the posts *)

Lemma processPosts_frame cfg posts : forall st,
  postsFrame st (finalState (processPosts cfg posts st)).
Proof.
  induction posts as [|post rest IH]; intros st; simpl; [repeat split|].
  destruct (postIdOf post) as [e|postId]; simpl; [repeat split|].
  assert (Hstep : forall s, postsFrame st s ->
            postsFrame st (finalState (processPosts cfg rest s))).
  { intros s Hs. specialize (IH s). unfold postsFrame in *. destruct_and!.
    repeat split; congruence. }
  repeat match goal with |- context [if ?c then _ else _] => destruct c end;
    simpl; try apply Hstep; repeat split.
Qed.

(** ** Invariants of a session *)

(** A property of the state that every elementary step of the engine keeps
    is kept by a whole run of the generator, however the run ends. *)
Section Invariant.

Context (cfg : Config) (detailPage : JSval -> JSON) (P : State -> Prop).

Hypothesis P_neutral : forall st st', neutral st st' -> P st -> P st'.
Hypothesis P_hibernate : forall b st, P st -> P (set_hibernate b st).
Hypothesis P_graft_off : forall st, P st -> P (set_graft false st).
Hypothesis P_graft_on :
  forall st, enableGrafting cfg = true -> P st -> P (set_graft true st).
Hypothesis P_finished : forall st, P st -> P (set_finished true st).
Hypothesis P_posts : forall posts st, P st -> P (finalState (processPosts cfg posts st)).
Hypothesis P_await : forall st, P st -> P (awaitPagePromises detailPage st).
Hypothesis P_settle :
  forall st, P st -> P (set_pagePromises [] (awaitPagePromises detailPage st)).
Hypothesis P_drain : forall st, P st -> P (drain st).
Hypothesis P_requests : forall st, P st -> P (processRequests st).

Local Ltac neutral_step :=
  match goal with
  | H : P ?st |- P _ => refine (P_neutral st _ _ H)
  end.

Lemma emit_inv evs st : P st -> P (emit evs st).
Proof. intros H. neutral_step. apply emit_neutral. Qed.

Lemma progress_inv p st : P st -> P (progress cfg p st).
Proof. intros H. neutral_step. apply progress_neutral. Qed.

Lemma sleep_inv time st : P st -> P (sleep cfg time st).
Proof. intros H. neutral_step. apply sleep_neutral. Qed.

Lemma processResponse_inv res dg st :
  P st -> P (finalState (processResponse cfg res dg st)).
Proof.
  intros H. unfold processResponse.
  destruct (negb (matchURL (res_url res))); [exact H|].
  destruct (res_body res) as [d|err].
  - destruct (rateLimited (Some d)) as [e|[|]]; simpl; [exact H| |].
    + apply P_hibernate, emit_inv, H.
    + assert (H2 : P (if negb (hasNextPage cfg (Some d))
                      then set_finished true (emit [EvLogInfo "No posts remaining"] st)
                      else st)).
      { destruct (negb _); [apply P_finished, emit_inv, H|exact H]. }
      destruct (iterate _) as [posts|]; simpl; [|exact H2].
      pose proof (P_posts posts _ H2) as H3.
      apply (finalState_bind P); [exact H3|].
      intros [] st' Hst'. rewrite Hst' in H3. exact H3.
  - simpl. rewrite emit_emit.
    change (lodash_get None (edgeQuery cfg) (JArr [])) with (JArr []). simpl.
    apply P_finished, emit_inv, H.
Qed.

Lemma processResponseList_inv rs : forall dg st,
  P st -> P (finalState (processResponseList cfg rs dg st)).
Proof.
  induction rs as [|res rs IH]; intros dg st H; simpl; [exact H|].
  pose proof (processResponse_inv res dg st H) as H1.
  apply (finalState_bind P); [exact H1|].
  intros dg' st' Hst'. apply IH. rewrite Hst' in H1. exact H1.
Qed.

Lemma processResponses_inv st : P st -> P (finalState (processResponses cfg st)).
Proof.
  intros H. unfold processResponses.
  pose proof (processResponseList_inv (responseBuffer st) false st H) as HL.
  apply (finalState_bind P); [exact HL|].
  intros dg st' Hst'. rewrite Hst' in HL. simpl in *.
  assert (H2 : P (if graft st' && dg then set_graft false st' else st')).
  { destruct (_ && _); [apply P_graft_off, HL|exact HL]. }
  neutral_step. repeat split.
Qed.

Lemma stop_inv st : P st -> P (finalState (stop cfg detailPage st)).
Proof.
  intros H. unfold stop.
  assert (H1 : P (awaitPagePromises detailPage (progress cfg CLOSING st)))
    by apply P_await, progress_inv, H.
  destruct (page _); [|exact H1]. neutral_step. repeat split.
Qed.

Lemma constructPage_inv gotos st : P st -> P (finalState (constructPage cfg gotos st)).
Proof. intros H. neutral_step. apply constructPage_neutral. Qed.

Lemma start_inv gotos st : P st -> P (finalState (start cfg gotos st)).
Proof. intros H. neutral_step. apply start_neutral. Qed.

Lemma initiateGraft_inv gotos st :
  P st -> P (finalState (initiateGraft cfg detailPage gotos st)).
Proof.
  intros H. unfold initiateGraft.
  destruct (negb (enableGrafting cfg)) eqn:He; simpl; [exact H|].
  apply negb_false_iff in He.
  pose proof (stop_inv _ (progress_inv GRAFTING st H)) as H1.
  apply (finalState_bind P); [exact H1|].
  intros [] st1 Hst1. rewrite Hst1 in H1.
  apply start_inv, P_graft_on, H1. exact He.
Qed.

Lemma waitResume_inv resumes st : P st -> P (finalState (waitResume cfg resumes st)).
Proof. intros H. neutral_step. apply waitResume_neutral. Qed.

Lemma jump_inv st : P st -> P (finalState (jump st)).
Proof. intros H. neutral_step. apply jump_neutral. Qed.

Lemma stimulate_inv resumes gotos st :
  P st -> P (finalState (stimulate cfg detailPage resumes gotos st)).
Proof.
  intros H. unfold stimulate.
  apply (finalState_bind P); [by apply waitResume_inv|].
  intros [] st1 Hst1.
  assert (H1 : P st1).
  { pose proof (waitResume_inv resumes st H) as Hw. by rewrite Hst1 in Hw. }
  apply (finalState_bind P); [by apply jump_inv|].
  intros [] st2 Hst2.
  assert (Hj : P st2).
  { pose proof (jump_inv st1 H1) as Hw. by rewrite Hst2 in Hw. }
  match goal with |- P (finalState (bind ?g0 _)) => set (g := g0) end.
  assert (Hg : P (finalState g)).
  { subst g. destruct (_ =? _); [apply initiateGraft_inv, Hj|exact Hj]. }
  apply (finalState_bind P); [exact Hg|].
  intros gotos' st3 Hst3. rewrite Hst3 in Hg. cbn [finalState] in *.
  destruct (hibernate (sleep cfg (sleepTime cfg) st3)).
  - apply P_hibernate, sleep_inv, sleep_inv, Hg.
  - apply sleep_inv, Hg.
Qed.

Lemma pollOnce_inv a gotos st :
  P st -> P (finalState (pollOnce cfg detailPage a gotos st)).
Proof.
  intros H. unfold pollOnce.
  assert (H1 : P (processRequests (deliver a st))).
  { apply P_requests. neutral_step. apply deliver_neutral. }
  pose proof (processResponses_inv _ H1) as H2.
  apply (finalState_bind P); [exact H2|].
  intros [] st2 Hst2. rewrite Hst2 in H2. simpl in H2.
  assert (H4 : P (set_pagePromises []
                    (awaitPagePromises detailPage (progress cfg BRANCHING st2))))
    by apply P_settle, progress_inv, H2.
  match goal with |- context [if ?c then _ else _] => destruct c end;
    [exact H4|apply stimulate_inv, H4].
Qed.

Lemma finish_inv st : P st -> P (finalState (finish cfg detailPage st)).
Proof.
  intros H. unfold finish.
  pose proof (stop_inv st H) as H1.
  apply (finalState_bind P); [exact H1|].
  intros [] st1 Hst1. rewrite Hst1 in H1. cbn [finalState] in *.
  destruct (silent cfg); [|apply emit_inv]; exact H1.
Qed.

Lemma pump_inv arrivals : forall gotos st,
  P st -> P (finalState (pump cfg detailPage arrivals gotos st)).
Proof.
  induction arrivals as [|a rest IH]; intros gotos st H; simpl; [exact H|].
  pose proof (pollOnce_inv a gotos st H) as H1.
  apply (finalState_bind P); [exact H1|].
  intros r st1 Hst1. rewrite Hst1 in H1. simpl in H1.
  destruct (fst r); [|apply IH, H1].
  destruct (finished (drain st1)).
  - apply finish_inv, P_drain, H1.
  - apply IH, progress_inv, P_drain, H1.
Qed.

Lemma generator_inv arrivals gotos st :
  P st -> P (finalState (generator cfg detailPage arrivals gotos st)).
Proof.
  intros H. unfold generator.
  set (s := if started st then Ok gotos st else start cfg gotos st).
  assert (Hs : P (finalState s)) by (subst s; destruct (started st); [exact H|apply start_inv, H]).
  apply (finalState_bind P); [exact Hs|].
  intros gotos1 st1 Hst1. rewrite Hst1 in Hs. apply pump_inv, progress_inv, Hs.
Qed.

End Invariant.

(** ** The loops of the generator *)

(** [pump] is the body of the generator's loop: [getNext], then the posts
    of the buffer, then the test of [finished]. *)
Lemma pump_getNext cfg detailPage arrivals : forall gotos st,
  pump cfg detailPage arrivals gotos st
  = (r <~ getNextRounds cfg detailPage arrivals gotos st ;;
     fun st1 =>
       if finished (drain st1) then finish cfg detailPage (drain st1)
       else pump cfg detailPage (fst r) (snd r) (progress cfg SCRAPING (drain st1))).
Proof.
  induction arrivals as [|a rest IH]; intros gotos st; simpl; [reflexivity|].
  destruct (pollOnce cfg detailPage a gotos st) as [r st1|e st1|st1]; simpl; try reflexivity.
  destruct (fst r); [reflexivity|apply IH].
Qed.

Lemma generator_getNext cfg detailPage arrivals gotos st :
  started st = true ->
  generator cfg detailPage arrivals gotos st
  = (r <~ getNext cfg detailPage arrivals gotos st ;;
     fun st1 =>
       if finished (drain st1) then finish cfg detailPage (drain st1)
       else pump cfg detailPage (fst r) (snd r) (progress cfg SCRAPING (drain st1))).
Proof.
  intros Hs. unfold generator, getNext. rewrite Hs. simpl. apply pump_getNext.
Qed.

(** [drain] is the generator's loop over [postPop]. *)
Lemma drain_postPop st :
  drain st
  = match postPop st with
    | (Some post, st1) =>
        if truthy post then drain (set_yielded (yielded st1 ++ [post]) st1) else st1
    | (None, st1) => st1
    end.
Proof. unfold drain, postPop. destruct (postBuffer st); reflexivity. Qed.

(** ** Yielding the buffer *)

Lemma yieldPosts_eq buffer : forall st,
  postBuffer st = buffer ->
  yieldPosts buffer st
  = set_yielded (yielded st ++ truthyPrefix buffer) (set_postBuffer (afterFalsy buffer) st).
Proof.
  induction buffer as [|post rest IH]; intros st Hb; simpl.
  - destruct st; simpl in *; subst. by rewrite app_nil_r.
  - destruct (truthy post).
    + rewrite IH by reflexivity. simpl. by rewrite <- app_assoc.
    + destruct st; simpl. by rewrite app_nil_r.
Qed.

Lemma drain_eq st :
  drain st
  = set_yielded (yielded st ++ truthyPrefix (postBuffer st))
      (set_postBuffer (afterFalsy (postBuffer st)) st).
Proof. unfold drain. by apply yieldPosts_eq. Qed.

Lemma truthyPrefix_afterFalsy buffer : truthyPrefix buffer ++ afterFalsy buffer ⊆+ buffer.
Proof.
  induction buffer as [|post rest IH]; simpl; [done|].
  destruct (truthy post); simpl.
  - by apply submseteq_skip.
  - by apply submseteq_cons.
Qed.

Lemma truthyPrefix_all buffer :
  Forall (fun post => truthy post = true) buffer ->
  truthyPrefix buffer = buffer /\ afterFalsy buffer = [].
Proof.
  induction 1 as [|post rest Hp _ [IH1 IH2]]; simpl; [done|].
  rewrite Hp, IH1, IH2. done.
Qed.

Lemma filter_settled (ps : list PagePromise) :
  List.filter (fun p => negb (pp_settled p))
    (map (fun p => {| pp_shortcode := pp_shortcode p; pp_settled := true |}) ps) = [].
Proof. induction ps as [|p ps IH]; simpl; [done|exact IH]. Qed.

Lemma pendingRecords_settled detailPage (ps : list PagePromise) st :
  pendingRecords detailPage
    (set_pagePromises
       (map (fun p => {| pp_shortcode := pp_shortcode p; pp_settled := true |}) ps) st) = [].
Proof. unfold pendingRecords; simpl. by rewrite filter_settled. Qed.

(** ** C1: duplicates *)

Lemma freshRef_fresh (ids : gset IdKey) : KRef (freshRef ids) ∉ ids.
Proof.
  intros Hin. apply (is_fresh (refsOf ids)). unfold refsOf.
  apply elem_of_set_omap. exists (KRef (freshRef ids)). split; [exact Hin|reflexivity].
Qed.

Lemma keyOf_hasKey post v (ids : gset IdKey) :
  postIdOf post = inr v -> hasKey post (keyOf ids v).
Proof.
  intros Hv. exists v. split; [exact Hv|]. unfold keyOf.
  destruct (primitiveKey v); [reflexivity|by eexists].
Qed.

Lemma keyOf_reference v (ids : gset IdKey) : primitiveKey v = None -> keyOf ids v ∉ ids.
Proof. intros Hv. unfold keyOf. rewrite Hv. apply freshRef_fresh. Qed.

Lemma hasKey_primitive post k k' :
  hasKey post k -> primitiveIdOf post = Some k' -> k = k'.
Proof.
  intros (v & Hv & Hk). unfold primitiveIdOf. rewrite Hv. intros Hp.
  by rewrite Hp in Hk.
Qed.

Lemma Dedup_ext cfg detailPage st st' :
  yielded st' = yielded st -> postBuffer st' = postBuffer st ->
  pagePromises st' = pagePromises st -> postIds st' = postIds st ->
  Dedup cfg detailPage st -> Dedup cfg detailPage st'.
Proof.
  unfold Dedup, pendingRecords. intros -> -> -> ->. done.
Qed.

Lemma Dedup_posts cfg detailPage posts : forall st,
  Dedup cfg detailPage st -> Dedup cfg detailPage (finalState (processPosts cfg posts st)).
Proof.
  induction posts as [|post rest IH]; intros st HD; simpl; [exact HD|].
  destruct (postIdOf post) as [e|postId] eqn:Hid; simpl; [exact HD|].
  unfold PostIdSet.has. set (k := keyOf (postIds st) postId).
  assert (Hgrow : Dedup cfg detailPage (set_postIds ({[k]} ∪ postIds st) st)).
  { destruct HD as (acc & Hnd & Hall & Hsub). exists acc. repeat split; [exact Hnd| |exact Hsub].
    eapply Forall_impl; [exact Hall|]. simpl. intros pk [Hk Hin]. split; [done|].
    set_solver. }
  case_bool_decide as Hmem.
  - apply IH. eapply Dedup_ext; [..|exact Hgrow]; reflexivity.
  - assert (Hacc : forall s,
      yielded s = yielded st -> postIds s = {[k]} ∪ postIds st ->
      postBuffer s ++ pendingRecords detailPage s
        ≡ₚ recordOf cfg detailPage post :: postBuffer st ++ pendingRecords detailPage st ->
      Dedup cfg detailPage s).
    { intros s Hy Hids Hperm. destruct HD as (acc & Hnd & Hall & Hsub).
      exists (acc ++ [(post, k)]). repeat split.
      - rewrite map_app. simpl. apply NoDup_app. repeat split; [exact Hnd| |apply NoDup_singleton].
        intros x Hx Hx'. apply list_elem_of_singleton in Hx'. subst x.
        apply list_elem_of_fmap in Hx as (pk & Hpk & Hin).
        rewrite Forall_forall in Hall. destruct (Hall pk Hin) as [_ Hmem'].
        rewrite <- Hpk in Hmem'. contradiction.
      - apply Forall_app. split.
        + eapply Forall_impl; [exact Hall|]. simpl. intros pk [Hk Hin].
          split; [done|]. rewrite Hids. set_solver.
        + constructor; [|constructor]. simpl. split; [by apply keyOf_hasKey|].
          rewrite Hids. set_solver.
      - rewrite Hy, Hperm, map_app. simpl.
        rewrite <- Permutation_middle, <- Permutation_cons_append.
        by apply submseteq_skip. }
    destruct ((index _ <? total cfg) || (total cfg =? 0)).
    + destruct (fullAPI cfg) eqn:Hfull; apply IH, Hacc; try reflexivity.
      * unfold pendingRecords, recordOf; simpl. rewrite Hfull.
        rewrite List.filter_app, map_app. simpl.
        rewrite app_assoc. by rewrite <- Permutation_cons_append.
      * unfold pendingRecords, recordOf, addToPostBuffer; simpl. rewrite Hfull.
        rewrite <- app_assoc. simpl. by rewrite <- Permutation_middle.
    + simpl. eapply Dedup_ext; [..|exact Hgrow]; reflexivity.
Qed.

Lemma submseteq_NoDup {A : Type} (l1 l2 : list A) : l1 ⊆+ l2 -> NoDup l2 -> NoDup l1.
Proof.
  induction 1 as [|x l1 l2 Hsub IH|x y l|x l1 l2 Hsub IH|l1 l2 l3 _ IH1 _ IH2];
    intros Hnd; auto.
  - apply NoDup_cons in Hnd as [Hx Hnd]. apply NoDup_cons. split; [|by apply IH].
    intros Hin. apply Hx. by eapply elem_of_submseteq.
  - apply NoDup_cons in Hnd as [Hy Hnd]. apply NoDup_cons in Hnd as [Hx Hnd].
    apply NoDup_cons. split; [|apply NoDup_cons; split; [|done]].
    + intros Hin. apply elem_of_cons in Hin as [->|Hin]; [|done].
      apply Hy. by left.
    + intros Hin. apply Hy. by right.
  - apply IH. by apply NoDup_cons in Hnd as [_ Hnd].
Qed.

Lemma Dedup_await cfg detailPage st :
  Dedup cfg detailPage st -> Dedup cfg detailPage (awaitPagePromises detailPage st).
Proof.
  intros (acc & Hnd & Hall & Hsub). rewrite awaitPagePromises_eq.
  exists acc. repeat split; [exact Hnd|exact Hall|].
  rewrite pendingRecords_settled. simpl. by rewrite app_nil_r.
Qed.

Lemma Dedup_clear cfg detailPage st :
  Dedup cfg detailPage st -> Dedup cfg detailPage (set_pagePromises [] st).
Proof.
  intros (acc & Hnd & Hall & Hsub). exists acc. repeat split; [exact Hnd|exact Hall|].
  unfold pendingRecords; simpl. etrans; [|exact Hsub].
  apply submseteq_skips_l. rewrite app_nil_r. by apply submseteq_inserts_r.
Qed.

Lemma Dedup_drain cfg detailPage st :
  Dedup cfg detailPage st -> Dedup cfg detailPage (drain st).
Proof.
  intros (acc & Hnd & Hall & Hsub). rewrite drain_eq.
  exists acc. repeat split; [exact Hnd|exact Hall|].
  etrans; [|exact Hsub]. unfold pendingRecords; simpl.
  rewrite <- app_assoc. apply submseteq_skips_l. rewrite app_assoc.
  apply submseteq_skips_r, truthyPrefix_afterFalsy.
Qed.

Lemma Dedup_requests cfg detailPage st :
  Dedup cfg detailPage st -> Dedup cfg detailPage (processRequests st).
Proof.
  rewrite processRequests_eq. apply Dedup_ext;
    destruct (graft st); try reflexivity; unfold capture; destruct (last _); reflexivity.
Qed.

Lemma Dedup_neutral cfg detailPage st st' :
  neutral st st' -> Dedup cfg detailPage st -> Dedup cfg detailPage st'.
Proof.
  unfold neutral. intros H. destruct_and!. by apply Dedup_ext.
Qed.

Lemma Dedup_initial cfg detailPage : Dedup cfg detailPage initialState.
Proof.
  exists []. repeat split; simpl; [constructor|constructor|done].
Qed.

(** Every run of the generator keeps the dedup invariant. *)
Lemma Dedup_generator cfg detailPage arrivals gotos :
  Dedup cfg detailPage (finalState (generator cfg detailPage arrivals gotos initialState)).
Proof.
  apply generator_inv; try apply Dedup_initial.
  - apply Dedup_neutral.
  - intros b st. by apply Dedup_ext.
  - intros st. by apply Dedup_ext.
  - intros st _. by apply Dedup_ext.
  - intros st. by apply Dedup_ext.
  - intros posts st. apply Dedup_posts.
  - apply Dedup_await.
  - intros st H. apply Dedup_clear, Dedup_await, H.
  - apply Dedup_drain.
  - apply Dedup_requests.
Qed.

Lemma accepted_keys (keys : list IdKey) (ids : gset IdKey) :
  NoDup keys -> Forall (fun k => k ∈ ids) keys -> (List.length keys <= size ids)%nat.
Proof.
  intros Hnd Hall. unfold size, set_size. simpl.
  apply submseteq_length, NoDup_submseteq; [exact Hnd|].
  intros x Hx. apply elem_of_elements. rewrite Forall_forall in Hall. by apply Hall.
Qed.

(** The posts of a list that was accepted, with their keys, in the order of
    the list. *)
Lemma submseteq_keys (posts : list JSON) : forall (accepted : list (JSON * IdKey)),
  posts ⊆+ map fst accepted ->
  exists chosen, posts = map fst chosen /\ chosen ⊆+ accepted.
Proof.
  induction posts as [|post posts IH]; intros accepted Hsub.
  - exists []. split; [done|apply submseteq_nil_l].
  - assert (Hin : post ∈ map fst accepted).
    { eapply elem_of_submseteq; [|exact Hsub]. by left. }
    apply list_elem_of_fmap in Hin as (pk & Hpk & Hin).
    apply list_elem_of_split in Hin as (l1 & l2 & ->).
    rewrite map_app in Hsub. simpl in Hsub. rewrite <- Hpk in Hsub.
    rewrite <- Permutation_middle in Hsub. apply submseteq_cons_l in Hsub as (k & Hperm & Hsub).
    apply Permutation_cons_inv in Hperm. rewrite <- Hperm, <- map_app in Hsub.
    destruct (IH _ Hsub) as (chosen & -> & Hch).
    exists (pk :: chosen). split; [by rewrite Hpk|].
    rewrite <- Permutation_middle. by apply submseteq_skip.
Qed.

Lemma primitive_keys (posts : list JSON) : forall keys,
  Forall2 hasKey posts keys -> sublist (omap primitiveIdOf posts) keys.
Proof.
  induction posts as [|post posts IH]; intros keys Hall.
  - apply sublist_nil_l.
  - apply Forall2_cons_inv_l in Hall as (k & keys' & Hk & Hall & ->). simpl.
    destruct (primitiveIdOf post) as [k'|] eqn:Hp.
    + rewrite <- (hasKey_primitive post k k' Hk Hp). by apply sublist_skip, IH.
    + by apply sublist_cons, IH.
Qed.

(** C1, amended.  In every session, however the responses repeat ids within
    a response or across responses, every record the generator has yielded
    stems from a post of its own, and these posts were accepted under
    pairwise different keys of the id set: there are never more yielded
    records than keys in the set.  In the default mode, where the posts
    themselves are yielded, the yielded posts have pairwise different keys,
    so no id that the [Set] compares by value (a string, a number, a boolean,
    [null], a missing id) occurs twice among them.  A post whose key is in
    the id set is logged as a duplicate and skipped: nothing is queued or
    fetched for it and the count stays.  An id that is an object or an array
    is compared by reference: it is never found in the set. *)
Theorem dedup_output (cfg : Config) (detailPage : JSval -> JSON)
    (arrivals : list Arrival) (gotos : list (option string)) :
  let st' := finalState (generator cfg detailPage arrivals gotos initialState) in
  (exists accepted : list (JSON * IdKey),
     yielded st' ⊆+ map (fun pk => recordOf cfg detailPage (fst pk)) accepted /\
     NoDup (map snd accepted) /\
     Forall (fun pk => hasKey (fst pk) (snd pk) /\ snd pk ∈ postIds st') accepted) /\
  (List.length (yielded st') <= size (postIds st'))%nat /\
  (fullAPI cfg = false ->
     (exists keys,
        Forall2 hasKey (yielded st') keys /\ NoDup keys /\
        Forall (fun k => k ∈ postIds st') keys) /\
     NoDup (omap primitiveIdOf (yielded st'))) /\
  (forall post rest st v,
     postIdOf post = inr v -> keyOf (postIds st) v ∈ postIds st ->
     processPosts cfg (post :: rest) st
     = processPosts cfg rest
         (emit [EvLogInfo ("Duplicate id found: " ++ stringOf v)%string] st)) /\
  (forall st v, primitiveKey v = None -> keyOf (postIds st) v ∉ postIds st).
Proof.
  intros st'. subst st'.
  destruct (Dedup_generator cfg detailPage arrivals gotos) as (acc & Hnd & Hall & Hsub).
  set (st' := finalState _) in *.
  assert (Hy : yielded st' ⊆+ map (fun pk => recordOf cfg detailPage (fst pk)) acc).
  { etrans; [|exact Hsub]. by apply submseteq_inserts_r. }
  assert (Hkeys : Forall (fun k => k ∈ postIds st') (map snd acc)).
  { apply Forall_fmap. eapply Forall_impl; [exact Hall|]. by intros pk [_ Hin]. }
  split; [|split; [|split; [|split]]].
  - exists acc. done.
  - etrans; [apply submseteq_length, Hy|]. rewrite length_map, <- (length_map snd).
    by apply accepted_keys.
  - intros Hfull.
    assert (Hid : map (fun pk => recordOf cfg detailPage (fst pk)) acc = map fst acc).
    { unfold recordOf. by rewrite Hfull. }
    rewrite Hid in Hy. destruct (submseteq_keys _ _ Hy) as (chosen & Hch & Hsubch).
    assert (Hk : Forall2 hasKey (yielded st') (map snd chosen) /\ NoDup (map snd chosen) /\
                 Forall (fun k => k ∈ postIds st') (map snd chosen)).
    { rewrite Hch. repeat split.
      - apply Forall2_fmap, Forall_Forall2_diag.
        rewrite Forall_forall in Hall |- *. intros pk Hpk.
        apply Hall. by eapply elem_of_submseteq.
      - eapply submseteq_NoDup; [|exact Hnd]. by apply fmap_submseteq.
      - rewrite Forall_forall in Hkeys |- *. intros k Hin. apply Hkeys.
        eapply elem_of_submseteq; [exact Hin|]. by apply fmap_submseteq. }
    split; [by exists (map snd chosen)|].
    destruct Hk as (Hk1 & Hk2 & _).
    eapply sublist_NoDup; [exact Hk2|apply primitive_keys, Hk1].
  - intros post rest st v Hid Hin. simpl. rewrite Hid. simpl.
    unfold PostIdSet.has. rewrite bool_decide_eq_true_2 by exact Hin.
    replace ({[keyOf (postIds st) v]} ∪ postIds st) with (postIds st)
      by (apply leibniz_equiv; set_solver).
    by destruct st.
  - intros st v. apply keyOf_reference.
Qed.

(** A response with three posts, two of them with the same id, yields two
    records. *)
Lemma dedup_output_witness :
  NoDup (omap primitiveIdOf
           (yielded (finalState
              (generator (sampleConfig 0) noDetail
                 [poll [sampleResponse false ["a"; "b"; "a"]]] [None] initialState))))
  /\ List.length
       (yielded (finalState
          (generator (sampleConfig 0) noDetail
             [poll [sampleResponse false ["a"; "b"; "a"]]] [None] initialState))) = 2%nat.
Proof.
  split.
  - apply (dedup_output (sampleConfig 0) noDetail
             [poll [sampleResponse false ["a"; "b"; "a"]]] [None]).
    reflexivity.
  - vm_compute. reflexivity.
Defined.

(** C1 as stated fails for ids that are not compared by value: a response
    with twice the same post, whose id is an object, has both yielded, and
    nothing is logged as a duplicate. *)
Lemma object_ids_yielded_twice :
  postIdOf refPost = inr (Some (JObj [("k", JNum 1)]))
  /\ generator (sampleConfig 0) noDetail
       [poll [responseOf false [refPost; refPost]]] [None] initialState
     = Ok tt (finalState
                (generator (sampleConfig 0) noDetail
                   [poll [responseOf false [refPost; refPost]]] [None] initialState))
  /\ yielded (finalState
       (generator (sampleConfig 0) noDetail
          [poll [responseOf false [refPost; refPost]]] [None] initialState))
     = [refPost; refPost]
  /\ List.filter (fun e => match e with EvLogInfo _ => true | _ => false end)
       (events (finalState
          (generator (sampleConfig 0) noDetail
             [poll [responseOf false [refPost; refPost]]] [None] initialState)))
     = [EvLogInfo "No posts remaining"].
Proof. split; [|split; [|split]]; vm_compute; reflexivity. Qed.

(** ** Ids and posts *)

Lemma postIdOf_truthy post id : postIdOf post = inr id -> truthy post = true.
Proof. destruct post; simpl; intros H; try discriminate; reflexivity. Qed.

Lemma size_add_fresh (id : IdKey) (ids : gset IdKey) :
  id ∉ ids -> size ({[id]} ∪ ids) = S (size ids).
Proof.
  intros Hnot. rewrite size_union by set_solver. by rewrite size_singleton.
Qed.

Lemma add_known (id : IdKey) (ids : gset IdKey) : id ∈ ids -> {[id]} ∪ ids = ids.
Proof. intros Hin. apply leibniz_equiv. set_solver. Qed.

(** ** C8: the end of the pagination *)


Lemma processPosts_appends cfg posts : forall st,
  exists more, postBuffer (finalState (processPosts cfg posts st)) = postBuffer st ++ more.
Proof.
  induction posts as [|post rest IH]; intros st; simpl.
  - exists []. by rewrite app_nil_r.
  - destruct (postIdOf post) as [e|postId]; simpl; [exists []; by rewrite app_nil_r|].
    destruct (PostIdSet.has _ _); [exact (IH _)|].
    destruct (_ || _); [|exists []; simpl; by rewrite app_nil_r].
    destruct (fullAPI cfg); [exact (IH _)|].
    match goal with |- context [processPosts cfg rest ?s] => destruct (IH s) as [more Hmore] end.
    exists (post :: more). rewrite Hmore. unfold addToPostBuffer; simpl.
    by rewrite <- app_assoc.
Qed.

Lemma Truthy_ext detailPage st st' :
  postBuffer st' = postBuffer st -> pagePromises st' = pagePromises st ->
  Truthy detailPage st -> Truthy detailPage st'.
Proof. unfold Truthy, pendingRecords. intros -> ->. done. Qed.

Lemma Truthy_posts cfg detailPage posts :
  truthyRecords cfg detailPage ->
  forall st, Truthy detailPage st -> Truthy detailPage (finalState (processPosts cfg posts st)).
Proof.
  intros Hrec. induction posts as [|post rest IH]; intros st HT; simpl; [exact HT|].
  destruct (postIdOf post) as [e|postId] eqn:Hid; simpl; [exact HT|].
  destruct (PostIdSet.has _ _).
  - apply IH. by eapply Truthy_ext; [..|exact HT].
  - destruct (_ || _); [|by eapply Truthy_ext; [..|exact HT]].
    destruct (fullAPI cfg) eqn:Hfull; apply IH; unfold Truthy, pendingRecords in *; simpl.
    + destruct Hrec as [?|Hrec]; [congruence|].
      rewrite List.filter_app, map_app, app_assoc. apply Forall_app. split; [exact HT|].
      simpl. constructor; [apply Hrec|constructor].
    + rewrite <- app_assoc. simpl.
      apply Forall_app in HT as [HT1 HT2]. apply Forall_app. split; [exact HT1|].
      constructor; [by eapply postIdOf_truthy|exact HT2].
Qed.

Lemma Keeps_posts cfg base posts st :
  Keeps base st -> Keeps base (finalState (processPosts cfg posts st)).
Proof.
  intros [more Hmore]. destruct (processPosts_appends cfg posts st) as [more' Hmore'].
  pose proof (processPosts_frame cfg posts st) as Hframe. unfold postsFrame in Hframe.
  destruct_and!. exists (more ++ more').
  match goal with H : yielded _ = yielded st |- _ => rewrite H end.
  rewrite Hmore', !app_assoc, Hmore. done.
Qed.

Section Records.

Context (cfg : Config) (detailPage : JSval -> JSON) (base : list JSON).
Hypothesis Hrec : truthyRecords cfg detailPage.

Local Abbreviation kept := (kept detailPage base).

Lemma kept_ext st st' :
  postBuffer st' = postBuffer st -> pagePromises st' = pagePromises st ->
  yielded st' = yielded st -> kept st -> kept st'.
Proof. unfold kept, Truthy, Keeps, pendingRecords. intros -> -> ->. done. Qed.

Lemma kept_drain st : kept st -> kept (drain st).
Proof.
  intros [HT [more HK]]. rewrite drain_eq.
  pose proof HT as HT'. apply Forall_app in HT' as [Hb _].
  destruct (truthyPrefix_all _ Hb) as [Htp Haf].
  split.
  - unfold Truthy, pendingRecords in *; simpl. rewrite Haf. simpl.
    by apply Forall_app in HT as [_ ?].
  - exists more. simpl. rewrite Htp, Haf, app_nil_r. exact HK.
Qed.

Lemma kept_await st : kept st -> kept (awaitPagePromises detailPage st).
Proof.
  intros [HT [more HK]]. rewrite awaitPagePromises_eq. split.
  - unfold Truthy. rewrite pendingRecords_settled. simpl. by rewrite app_nil_r.
  - exists (more ++ pendingRecords detailPage st). simpl.
    by rewrite !app_assoc, HK.
Qed.

Lemma kept_clear st : kept st -> kept (set_pagePromises [] st).
Proof.
  intros [HT HK]. split; [|exact HK].
  unfold Truthy, pendingRecords in *; simpl. rewrite app_nil_r.
  by apply Forall_app in HT as [? _].
Qed.

Lemma kept_step (f : State -> State) :
  (forall st, postBuffer (f st) = postBuffer st) ->
  (forall st, pagePromises (f st) = pagePromises st) ->
  (forall st, yielded (f st) = yielded st) ->
  forall st, kept st -> kept (f st).
Proof. intros H1 H2 H3 st. by apply kept_ext. Qed.

Lemma kept_requests st : kept st -> kept (processRequests st).
Proof.
  rewrite processRequests_eq. apply kept_ext;
    destruct (graft st); try reflexivity; unfold capture; destruct (last _); reflexivity.
Qed.

Lemma kept_posts posts st : kept st -> kept (finalState (processPosts cfg posts st)).
Proof.
  intros [HT HK]. split; [by apply Truthy_posts|by apply Keeps_posts].
Qed.

Lemma kept_neutral st st' : neutral st st' -> kept st -> kept st'.
Proof. unfold neutral. intros H. destruct_and!. by apply kept_ext. Qed.

Lemma kept_pollOnce a gotos st :
  kept st -> kept (finalState (pollOnce cfg detailPage a gotos st)).
Proof.
  apply (pollOnce_inv cfg detailPage kept);
    first [ exact kept_neutral | exact kept_posts | exact kept_await
          | exact kept_requests | (intros s Hs; apply kept_clear, kept_await, Hs)
          | intros; eapply kept_ext; [..|eassumption]; reflexivity ].
Qed.

(** After a round of [getNext] no promise is left in [pagePromises]. *)
Lemma pollOnce_promises a gotos st r st1 :
  pollOnce cfg detailPage a gotos st = Ok r st1 -> pagePromises st1 = [].
Proof.
  unfold pollOnce.
  destruct (processResponses cfg (processRequests (deliver a st))) as [[] st2|e st2|st2];
    simpl; try discriminate.
  match goal with |- context [if ?c then _ else _] => destruct c end.
  - intros H. injection H as _ <-. reflexivity.
  - intros H.
    match type of H with stimulate _ _ ?rs _ ?s = _ =>
      pose proof (stimulate_inv cfg detailPage (fun st => pagePromises st = [])) as Hinv;
      specialize (fun H1 H2 H3 H4 => Hinv H1 H2 H3 H4 rs gotos s) end.
    rewrite H in Hinv. apply Hinv; try done.
    + unfold neutral. intros ? ? Hn. destruct_and!. congruence.
    + intros s Hs. rewrite awaitPagePromises_eq. simpl. by rewrite Hs.
Qed.

Lemma finish_fields st :
  finished (finalState (finish cfg detailPage st)) = finished st /\
  yielded (finalState (finish cfg detailPage st)) = yielded st /\
  postBuffer (finalState (finish cfg detailPage st))
  = postBuffer st ++ pendingRecords detailPage st /\
  pendingRecords detailPage (finalState (finish cfg detailPage st)) = [].
Proof.
  unfold finish, stop. rewrite awaitPagePromises_eq, progress_eq.
  cbn [page set_pagePromises set_postBuffer emit set_events].
  destruct (page st); cbn [bind finalState];
    destruct (silent cfg); repeat split; unfold pendingRecords; simpl; by rewrite filter_settled.
Qed.

(** When the loop of the generator ends, the session is finished, the
    buffer is empty and everything that was queued has been yielded. *)
Lemma pump_ends arrivals : forall gotos st st',
  kept st ->
  pump cfg detailPage arrivals gotos st = Ok tt st' ->
  finished st' = true /\ postBuffer st' = [] /\ pendingRecords detailPage st' = [] /\ kept st'.
Proof.
  induction arrivals as [|a rest IH]; intros gotos st st' Hk; simpl; [discriminate|].
  pose proof (kept_pollOnce a gotos st Hk) as Hk1.
  destruct (pollOnce cfg detailPage a gotos st) as [r st1|e st1|st1] eqn:Hpoll;
    simpl; try discriminate.
  simpl in Hk1. apply pollOnce_promises in Hpoll.
  destruct (fst r); [|by apply IH].
  pose proof (kept_drain st1 Hk1) as Hk2.
  destruct (finished (drain st1)) eqn:Hfin; [|apply IH; revert Hk2; apply kept_neutral, progress_neutral].
  intros H. destruct (finish_fields (drain st1)) as (Hf & Hy & Hb & Hp).
  rewrite H in Hf, Hy, Hb, Hp. cbn [finalState] in Hf, Hy, Hb, Hp.
  assert (Hdrained : postBuffer (drain st1) = [] /\ pendingRecords detailPage (drain st1) = []).
  { rewrite drain_eq. unfold pendingRecords; simpl. rewrite Hpoll. split; [|done].
    destruct Hk1 as [HT _]. apply Forall_app in HT as [HT _].
    by destruct (truthyPrefix_all _ HT). }
  destruct Hdrained as [Hd1 Hd2].
  rewrite Hd1, Hd2 in Hb. simpl in Hb.
  repeat split; [congruence|exact Hb|exact Hp| |].
  - unfold Truthy. rewrite Hb, Hp. constructor.
  - destruct Hk2 as [_ [more Hmore]]. exists more. by rewrite Hy, Hb, <- Hmore, Hd1.
Qed.

Lemma generator_ends arrivals gotos st st' :
  kept st ->
  generator cfg detailPage arrivals gotos st = Ok tt st' ->
  finished st' = true /\ postBuffer st' = [] /\ pendingRecords detailPage st' = [] /\ kept st'.
Proof.
  intros Hk. unfold generator.
  set (s := if started st then Ok gotos st else start cfg gotos st).
  assert (Hs : kept (finalState s)).
  { subst s. destruct (started st); [exact Hk|].
    revert Hk. apply kept_neutral, start_neutral. }
  destruct s as [gotos1 st1|e st1|st1]; simpl; try discriminate.
  apply pump_ends. revert Hs. apply kept_neutral, progress_neutral.
Qed.

End Records.

Lemma finalState_then {A B : Type} (m : Outcome A) (b : B) :
  finalState (_ <~ m ;; Ok b) = finalState m.
Proof. by destruct m. Qed.

Lemma processPosts_finished cfg posts : forall st,
  finished st = true -> finished (finalState (processPosts cfg posts st)) = true.
Proof.
  induction posts as [|post rest IH]; intros st Hf; simpl; [exact Hf|].
  destruct (postIdOf post) as [e|postId]; simpl; [exact Hf|].
  repeat match goal with |- context [if ?c then _ else _] => destruct c end;
    try (apply IH; exact Hf); reflexivity.
Qed.














(** ** C2: the cap, as the code enforces it *)

Lemma Capped_ext cfg detailPage st st' :
  index st' = index st -> postIds st' = postIds st -> finished st' = finished st ->
  pagePromises st' = pagePromises st -> postBuffer st' = postBuffer st ->
  yielded st' = yielded st ->
  Capped cfg detailPage st -> Capped cfg detailPage st'.
Proof. unfold Capped, Truthy, pendingRecords. intros -> -> -> -> -> ->. done. Qed.

Lemma Capped_of cfg detailPage st (i : Z) (ids : gset IdKey) :
  index st = i -> postIds st = ids ->
  0 <= i -> i = Z.min (total cfg) (Z.of_nat (size ids)) ->
  (total cfg < Z.of_nat (size ids) -> finished st = true) ->
  Z.of_nat (List.length (yielded st ++ postBuffer st ++ pendingRecords detailPage st)) <= i ->
  (truthyRecords cfg detailPage ->
     Truthy detailPage st /\
     Z.of_nat (List.length (yielded st ++ postBuffer st ++ pendingRecords detailPage st)) = i) ->
  Capped cfg detailPage st.
Proof. intros <- <-. unfold Capped. done. Qed.

Lemma pending_snoc (detailPage : JSval -> JSON) (ps : list PagePromise) (sc : JSval) :
  map (fun p => detailPage (pp_shortcode p))
    (List.filter (fun p => negb (pp_settled p))
       (ps ++ [{| pp_shortcode := sc; pp_settled := false |}]))
  = map (fun p => detailPage (pp_shortcode p))
      (List.filter (fun p => negb (pp_settled p)) ps) ++ [detailPage sc].
Proof. by rewrite List.filter_app, map_app. Qed.

Lemma Capped_posts cfg detailPage posts : 0 < total cfg -> forall st,
  Capped cfg detailPage st -> Capped cfg detailPage (finalState (processPosts cfg posts st)).
Proof.
  intros Htotal. induction posts as [|post rest IH]; intros st HC; simpl; [exact HC|].
  destruct (postIdOf post) as [e|postId] eqn:Hid; simpl; [exact HC|].
  unfold PostIdSet.has. set (k := keyOf (postIds st) postId). case_bool_decide as Hmem.
  - apply IH. eapply Capped_ext; [..|exact HC]; try reflexivity.
    simpl. by apply add_known.
  - destruct HC as (H0 & Hmin & Hfin & Hle & Hcount).
    pose proof (size_add_fresh k (postIds st) Hmem) as Hsize.
    destruct ((index _ <? total cfg) || (total cfg =? 0)) eqn:Hguard.
    + assert (Hlt : index st < total cfg) by (simpl in Hguard; lia).
      destruct (fullAPI cfg) eqn:Hfull; apply IH;
        apply (Capped_of _ _ _ (index st + 1) ({[k]} ∪ postIds st));
        try reflexivity; rewrite ?Hsize; try lia;
        try (unfold pendingRecords in *; simpl;
             rewrite ?pending_snoc; rewrite !length_app in *; simpl; lia);
        intros Hrec; destruct (Hcount Hrec) as (Htruthy & Hlen);
        unfold Truthy, pendingRecords in *; simpl.
      * destruct Hrec as [?|Hrec]; [congruence|].
        rewrite pending_snoc, !app_assoc. split.
        -- apply Forall_app. split; [exact Htruthy|].
           constructor; [apply Hrec|constructor].
        -- rewrite <- !app_assoc, !length_app in *. simpl. lia.
      * split.
        -- rewrite <- app_assoc. simpl.
           apply Forall_app in Htruthy as [HT1 HT2]. apply Forall_app. split; [exact HT1|].
           constructor; [by eapply postIdOf_truthy|exact HT2].
        -- rewrite !length_app in *. simpl. lia.
    + simpl in Hguard. simpl finalState.
      apply (Capped_of _ _ _ (index st) ({[k]} ∪ postIds st));
        try reflexivity; rewrite ?Hsize; try lia; first [done|exact Hle|exact Hcount].
Qed.

Lemma Capped_generator cfg detailPage arrivals gotos :
  0 < total cfg ->
  Capped cfg detailPage (finalState (generator cfg detailPage arrivals gotos initialState)).
Proof.
  intros Htotal. apply generator_inv.
  - unfold neutral. intros st st' H. destruct_and!. by apply Capped_ext.
  - intros b st. by apply Capped_ext.
  - intros st. by apply Capped_ext.
  - intros st _. by apply Capped_ext.
  - intros st (H0 & Hmin & Hfin & Hle & Hcount).
    apply (Capped_of _ _ _ (index st) (postIds st)); try reflexivity; done.
  - intros posts st. by apply Capped_posts.
  - intros st (H0 & Hmin & Hfin & Hle & Hcount). rewrite awaitPagePromises_eq.
    apply (Capped_of _ _ _ (index st) (postIds st)); try reflexivity; try done.
    + rewrite pendingRecords_settled. simpl. by rewrite !app_nil_r.
    + intros Hrec. destruct (Hcount Hrec) as (Htruthy & Hlen).
      unfold Truthy. rewrite pendingRecords_settled. simpl. by rewrite !app_nil_r.
  - intros st (H0 & Hmin & Hfin & Hle & Hcount). rewrite awaitPagePromises_eq.
    apply (Capped_of _ _ _ (index st) (postIds st)); try reflexivity; try done.
    + unfold pendingRecords. simpl. by rewrite !app_nil_r.
    + intros Hrec. destruct (Hcount Hrec) as (Htruthy & Hlen).
      unfold Truthy, pendingRecords. simpl. by rewrite !app_nil_r.
  - intros st (H0 & Hmin & Hfin & Hle & Hcount). rewrite drain_eq.
    apply (Capped_of _ _ _ (index st) (postIds st)); try reflexivity; try done.
    + etrans; [|exact Hle]. apply inj_le, submseteq_length.
      unfold pendingRecords. simpl. rewrite <- app_assoc. apply submseteq_skips_l.
      rewrite app_assoc. apply submseteq_skips_r, truthyPrefix_afterFalsy.
    + intros Hrec. destruct (Hcount Hrec) as (Htruthy & Hlen).
      unfold Truthy, pendingRecords in *. simpl.
      pose proof Htruthy as Hb. apply Forall_app in Hb as [Hb Hp].
      destruct (truthyPrefix_all _ Hb) as [-> ->]. simpl.
      split; [exact Hp|]. by rewrite <- app_assoc.
  - intros st. rewrite processRequests_eq. apply Capped_ext;
      destruct (graft st); try reflexivity; unfold capture; destruct (last _); reflexivity.
  - apply (Capped_of _ _ _ 0 ∅); try reflexivity; rewrite ?size_empty; try lia.
    intros _. split; [constructor|reflexivity].
Qed.

(** C2, amended.  With a cap [total] above zero the count never exceeds the
    cap, in any session and however it ends: it is the number of ids seen,
    cut at the cap.  There are never more records yielded, queued or awaited
    than the count.  When the records are truthy (the posts of the default
    mode always are; in full mode the detail records must be) they number
    exactly the count, and when the generator returns every one of them has
    been yielded; so once the cap's worth of different ids has been seen,
    exactly that many records are emitted.  A post with a new id met below
    the cap is counted and queued, or its detail page fetched; a post with a
    new id met at the cap sets [finished] and ends the loop over that
    response, the posts behind it unread.  [finished] follows from the cap
    only once an id beyond the cap has been seen. *)
Theorem cap_enforced (cfg : Config) (detailPage : JSval -> JSON)
    (arrivals : list Arrival) (gotos : list (option string)) :
  0 < total cfg ->
  let st' := finalState (generator cfg detailPage arrivals gotos initialState) in
  (0 <= index st' <= total cfg /\
   index st' = Z.min (total cfg) (Z.of_nat (size (postIds st')))) /\
  (total cfg < Z.of_nat (size (postIds st')) -> finished st' = true) /\
  Z.of_nat (List.length (yielded st' ++ postBuffer st' ++ pendingRecords detailPage st'))
  <= index st' /\
  (truthyRecords cfg detailPage ->
     Z.of_nat (List.length (yielded st' ++ postBuffer st' ++ pendingRecords detailPage st'))
     = index st' /\
     (generator cfg detailPage arrivals gotos initialState = Ok tt st' ->
      Z.of_nat (List.length (yielded st')) = index st')) /\
  (forall post rest st v,
     postIdOf post = inr v -> keyOf (postIds st) v ∉ postIds st ->
     (index st < total cfg ->
      processPosts cfg (post :: rest) st
      = processPosts cfg rest
          (let st2 :=
             set_index (index st + 1)
               (set_postIds ({[keyOf (postIds st) v]} ∪ postIds st) st) in
           if fullAPI cfg
           then set_pagePromises
                  (pagePromises st
                     ++ [{| pp_shortcode := shortcodeOf post; pp_settled := false |}]) st2
           else addToPostBuffer post st2)) /\
     (index st = total cfg ->
      processPosts cfg (post :: rest) st
      = Ok tt (set_finished true
                 (set_postIds ({[keyOf (postIds st) v]} ∪ postIds st) st)))).
Proof.
  intros Htotal st'.
  destruct (Capped_generator cfg detailPage arrivals gotos Htotal)
    as (H0 & Hmin & Hfin & Hle & Hcount).
  fold st' in H0, Hmin, Hfin, Hle, Hcount.
  split; [split; [lia|exact Hmin]|]. split; [exact Hfin|]. split; [exact Hle|]. split.
  - intros Hrec. destruct (Hcount Hrec) as (_ & Hlen). split; [exact Hlen|].
    intros Hgen.
    destruct (generator_ends cfg detailPage [] Hrec arrivals gotos
                initialState st') as (_ & Hb & Hp & _); [|exact Hgen|].
    + split; [constructor|by exists []].
    + rewrite Hb, Hp, !app_nil_r in Hlen. exact Hlen.
  - intros post rest st v Hid Hnew. split.
    + intros Hlt. simpl. rewrite Hid. simpl. unfold PostIdSet.has.
      rewrite bool_decide_eq_false_2 by exact Hnew.
      replace (index st <? total cfg) with true by (symmetry; apply Z.ltb_lt; exact Hlt).
      by destruct (fullAPI cfg).
    + intros Heq. simpl. rewrite Hid. simpl. unfold PostIdSet.has.
      rewrite bool_decide_eq_false_2 by exact Hnew.
      replace (index st <? total cfg) with false by (symmetry; apply Z.ltb_ge; lia).
      replace (total cfg =? 0) with false by (symmetry; apply Z.eqb_neq; lia).
      reflexivity.
Qed.

(** Cap 5, two pages of four new posts each, the second without a next
    page: five posts are counted and yielded, and the session is finished. *)
Lemma cap_enforced_witness :
  (0 <= index (finalState
         (generator (sampleConfig 5) noDetail
            [poll [sampleResponse true ["a"; "b"; "c"; "d"]];
             poll [sampleResponse false ["e"; "f"; "g"; "h"]]] [None] initialState)) <= 5)
  /\ yielded (finalState
          (generator (sampleConfig 5) noDetail
             [poll [sampleResponse true ["a"; "b"; "c"; "d"]];
              poll [sampleResponse false ["e"; "f"; "g"; "h"]]] [None] initialState))
     = map samplePost ["a"; "b"; "c"; "d"; "e"]
  /\ finished (finalState
       (generator (sampleConfig 5) noDetail
          [poll [sampleResponse true ["a"; "b"; "c"; "d"]];
           poll [sampleResponse false ["e"; "f"; "g"; "h"]]] [None] initialState)) = true.
Proof.
  split; [|split; vm_compute; reflexivity].
  apply (cap_enforced (sampleConfig 5) noDetail
           [poll [sampleResponse true ["a"; "b"; "c"; "d"]];
            poll [sampleResponse false ["e"; "f"; "g"; "h"]]] [None]).
  reflexivity.
Defined.

(** C2 as stated fails: with cap 1, a page that holds one post and announces
    a next page, found at three polls in a row, supplies one id; one post is
    counted and yielded, and the session is not finished: the generator is
    still polling. *)
Lemma cap_reached_not_finished :
  total (sampleConfig 1) = 1
  /\ size (postIds (finalState
       (generator (sampleConfig 1) noDetail
          [poll [sampleResponse true ["a"]]; poll [sampleResponse true ["a"]];
           poll [sampleResponse true ["a"]]] [None] initialState))) = 1%nat
  /\ yielded (finalState
       (generator (sampleConfig 1) noDetail
          [poll [sampleResponse true ["a"]]; poll [sampleResponse true ["a"]];
           poll [sampleResponse true ["a"]]] [None] initialState)) = [samplePost "a"]
  /\ finished (finalState
       (generator (sampleConfig 1) noDetail
          [poll [sampleResponse true ["a"]]; poll [sampleResponse true ["a"]];
           poll [sampleResponse true ["a"]]] [None] initialState)) = false
  /\ returned
       (generator (sampleConfig 1) noDetail
          [poll [sampleResponse true ["a"]]; poll [sampleResponse true ["a"]];
           poll [sampleResponse true ["a"]]] [None] initialState) = false.
Proof. split; [|split; [|split; [|split]]]; vm_compute; reflexivity. Qed.

(** With a cap in full mode a detail page that holds [null] costs a record:
    the count reaches the cap of two while one record is yielded. *)
Lemma falsy_record_below_count :
  index (finalState
     (generator (User "bob" false
                   {| opt_total := Some 2; opt_headless := None; opt_silent := Some true;
                      opt_sleepTime := Some 1; opt_hibernationTime := Some 3;
                      opt_enableGrafting := None; opt_fullAPI := Some true;
                      opt_proxyURL := None |}) lostDetail
        [poll [sampleResponse false ["a"; "b"; "c"]]] [None] initialState)) = 2
  /\ yielded (finalState
       (generator (User "bob" false
                     {| opt_total := Some 2; opt_headless := None; opt_silent := Some true;
                        opt_sleepTime := Some 1; opt_hibernationTime := Some 3;
                        opt_enableGrafting := None; opt_fullAPI := Some true;
                        opt_proxyURL := None |}) lostDetail
          [poll [sampleResponse false ["a"; "b"; "c"]]] [None] initialState))
     = [JObj [("shortcode", JStr "a")]].
Proof. split; vm_compute; reflexivity. Qed.

(** ** C5 and C6: the template and the graft flag *)

Lemma template_initiateGraft cfg detailPage gotos st :
  lastURL (finalState (initiateGraft cfg detailPage gotos st)) = lastURL st /\
  lastHeaders (finalState (initiateGraft cfg detailPage gotos st)) = lastHeaders st.
Proof.
  apply (initiateGraft_inv cfg detailPage
           (fun s => lastURL s = lastURL st /\ lastHeaders s = lastHeaders st)).
  - unfold neutral. intros s s' Hn [H1 H2]. destruct_and!. split; congruence.
  - intros s _ H. exact H.
  - intros s H. rewrite awaitPagePromises_eq. exact H.
  - done.
Qed.

Lemma template_processResponses cfg st :
  lastURL (finalState (processResponses cfg st)) = lastURL st /\
  lastHeaders (finalState (processResponses cfg st)) = lastHeaders st.
Proof.
  apply (processResponses_inv cfg
           (fun s => lastURL s = lastURL st /\ lastHeaders s = lastHeaders st)).
  - unfold neutral. intros s s' Hn [H1 H2]. destruct_and!. split; congruence.
  - intros b s H. exact H.
  - intros s H. exact H.
  - intros s H. exact H.
  - intros posts s [H1 H2]. pose proof (processPosts_frame cfg posts s) as Hf.
    unfold postsFrame in Hf. destruct_and!. split; congruence.
  - done.
Qed.

(** C5.  [processRequests] in closed form.  While [graft] is set, every
    matching request of the buffer is continued with the stored template
    [lastURL], [lastHeaders], whatever its own URL and headers, and the
    template stays as it is; while [graft] is clear, every matching request
    is continued with its own URL and headers and the last of them becomes
    the template.  The buffer is emptied.  Neither the graft's stop and
    restart nor the response drain touches the template, so the one replayed
    is the one captured last before the graft began. *)
Theorem graft_template_replay (cfg : Config) (detailPage : JSval -> JSON) (st : State) :
  processRequests st
  = set_requestBuffer []
      (if graft st
       then emit (map (fun _ => EvContinue (lastURL st) (lastHeaders st))
                    (List.filter matchesRequest (requestBuffer st))) st
       else emit (map (fun req => EvContinue (Some (req_url req)) (Some (req_headers req)))
                    (List.filter matchesRequest (requestBuffer st)))
              (capture (List.filter matchesRequest (requestBuffer st)) st)) /\
  (forall gotos,
     lastURL (finalState (initiateGraft cfg detailPage gotos st)) = lastURL st /\
     lastHeaders (finalState (initiateGraft cfg detailPage gotos st)) = lastHeaders st) /\
  (lastURL (finalState (processResponses cfg st)) = lastURL st /\
   lastHeaders (finalState (processResponses cfg st)) = lastHeaders st).
Proof.
  split; [apply processRequests_eq|].
  split; [intros gotos; apply template_initiateGraft|apply template_processResponses].
Qed.

Lemma processResponse_graft cfg res dg st :
  match processResponse cfg res dg st with
  | Ok dg' st' => graft st' = graft st /\ dg' = dg || matchesResponse res
  | Throw _ st' | Blocked st' => graft st' = graft st
  end.
Proof.
  unfold processResponse, matchesResponse.
  destruct (matchURL (res_url res)); simpl; [|by rewrite orb_false_r].
  rewrite orb_true_r.
  destruct (res_body res) as [d|err].
  - destruct (rateLimited (Some d)) as [e|[|]]; simpl; try done.
    match goal with |- context [iterate ?p] => destruct (iterate p) as [posts|] end;
      [|by destruct (negb _)].
    match goal with |- context [processPosts cfg posts ?s] =>
      pose proof (processPosts_frame cfg posts s) as Hf;
      assert (Hs : graft s = graft st) by (by destruct (negb _));
      destruct (processPosts cfg posts s) as [[] s'|e s'|s'] end;
      unfold postsFrame in Hf; simpl in *; destruct_and!; try split; congruence.
  - simpl. done.
Qed.

Lemma processResponseList_graft cfg rs : forall dg st,
  match processResponseList cfg rs dg st with
  | Ok dg' st' => graft st' = graft st /\ dg' = dg || existsb matchesResponse rs
  | Throw _ st' | Blocked st' => graft st' = graft st
  end.
Proof.
  induction rs as [|res rs IH]; intros dg st; simpl; [by rewrite orb_false_r|].
  pose proof (processResponse_graft cfg res dg st) as H1.
  destruct (processResponse cfg res dg st) as [dg1 st1|e st1|st1]; simpl; try done.
  destruct H1 as [Hg ->]. specialize (IH (dg || matchesResponse res) st1).
  destruct (processResponseList cfg rs _ st1) as [dg2 st2|e st2|st2];
    [destruct IH as [IHg ->]; split; [congruence|by rewrite orb_assoc]|congruence..].
Qed.

Lemma processResponses_graft cfg st :
  match processResponses cfg st with
  | Ok _ st' => graft st' = graft st && negb (existsb matchesResponse (responseBuffer st))
  | Throw _ st' | Blocked st' => graft st' = graft st
  end.
Proof.
  unfold processResponses.
  pose proof (processResponseList_graft cfg (responseBuffer st) false st) as H.
  destruct (processResponseList cfg (responseBuffer st) false st) as [dg st1|e st1|st1];
    simpl; try done.
  destruct H as [Hg ->]. simpl. rewrite <- Hg.
  destruct (existsb _ _), (graft st1) eqn:Hg1; simpl; rewrite ?Hg1; reflexivity.
Qed.

(** ** Stopping, waiting to be resumed, jumping *)

Lemma stop_eq cfg detailPage st :
  stop cfg detailPage st
  = if page st
    then Ok tt (close (awaitPagePromises detailPage (progress cfg CLOSING st)))
    else Throw TypeError (awaitPagePromises detailPage (progress cfg CLOSING st)).
Proof. unfold stop. rewrite awaitPagePromises_eq, progress_eq. reflexivity. Qed.

Lemma waitResume_eq cfg resumes : forall st,
  exists turns p,
    finalState (waitResume cfg resumes st) = set_paused p (emit (pauseTurns cfg st turns) st).
Proof.
  assert (Hturn : forall st,
    emit [EvWait 200] (progress cfg PAUSED st) = emit (pauseTurns cfg st 1) st).
  { intros st. rewrite progress_eq, emit_emit. unfold pauseTurns. simpl.
    by rewrite app_nil_r. }
  assert (Hsame : forall evs st, set_paused (paused st) (emit evs st) = emit evs st)
    by (by intros evs []).
  induction resumes as [|b rest IH]; intros st; simpl.
  - destruct (paused st) eqn:Hp.
    + exists 1%nat, true. rewrite Hturn, <- Hp. simpl. by rewrite Hsame.
    + exists 0%nat, false. rewrite <- Hp. simpl. rewrite Hsame. by destruct st; rewrite emit_nil.
  - destruct (paused st) eqn:Hp.
    + destruct b.
      * exists 1%nat, false. rewrite Hturn. unfold pause. simpl. by rewrite Hp.
      * rewrite Hturn.
        destruct (IH (emit (pauseTurns cfg st 1) st)) as (turns & p & ->).
        exists (S turns), p. rewrite emit_emit. unfold pauseTurns.
        cbn [repeat List.concat]. by rewrite app_nil_r.
    + exists 0%nat, false. rewrite <- Hp. simpl. rewrite Hsame. by destruct st; rewrite emit_nil.
Qed.

Lemma jump_eq st :
  jump st
  = if page st
    then Ok tt (set_jumps (jumps st + 1) (emit [EvKey "PageUp"; EvKey "End"; EvMouseMove] st))
    else Throw TypeError st.
Proof. reflexivity. Qed.

(** ** C6: the graft flag *)

Lemma initiateGraft_graft cfg detailPage gotos st :
  graft (finalState (initiateGraft cfg detailPage gotos st))
  = (enableGrafting cfg && page st) || graft st.
Proof.
  unfold initiateGraft. destruct (enableGrafting cfg); simpl; [|reflexivity].
  rewrite stop_eq, !progress_eq. cbn [page emit set_events].
  destruct (page st); cbn [bind finalState]; [|by rewrite awaitPagePromises_eq].
  match goal with |- context [start cfg gotos ?s] =>
    pose proof (start_neutral cfg gotos s) as Hn end.
  unfold neutral in Hn. destruct_and!.
  match goal with H : graft _ = graft _ |- _ => rewrite H end. reflexivity.
Qed.

Lemma stimulate_graft cfg detailPage resumes gotos st :
  graft (finalState (stimulate cfg detailPage resumes gotos st))
  = if returned (waitResume cfg resumes st) && page st
       && (Z.rem (jumps st + 1) jumpMod =? 0)
    then enableGrafting cfg || graft st
    else graft st.
Proof.
  unfold stimulate. destruct (waitResume_eq cfg resumes st) as (turns & p & Hw).
  destruct (waitResume cfg resumes st) as [[] st1|e st1|st1]; cbn [bind finalState returned] in *;
    subst st1; try reflexivity.
  rewrite jump_eq. cbn [page set_paused emit set_events andb].
  destruct (page st) eqn:Hpg; cbn [bind finalState andb]; [|reflexivity].
  cbn [jumps set_jumps set_paused emit set_events].
  assert (Htail : forall g s,
    graft (finalState
      (Ok (negb (Nat.eqb (List.length (postBuffer
             (if hibernate (sleep cfg (sleepTime cfg) s)
              then set_hibernate false (sleep cfg (hibernationTime cfg) (sleep cfg (sleepTime cfg) s))
              else sleep cfg (sleepTime cfg) s))) 0), g : list (option string))
          (if hibernate (sleep cfg (sleepTime cfg) s)
           then set_hibernate false (sleep cfg (hibernationTime cfg) (sleep cfg (sleepTime cfg) s))
           else sleep cfg (sleepTime cfg) s))) = graft s).
  { intros g s. simpl. destruct (hibernate _); rewrite !sleep_eq; reflexivity. }
  destruct (Z.rem (jumps st + 1) jumpMod =? 0).
  - match goal with |- context [initiateGraft cfg detailPage gotos ?s] =>
      pose proof (initiateGraft_graft cfg detailPage gotos s) as Hig;
      destruct (initiateGraft cfg detailPage gotos s) as [g s'|e s'|s'] end;
      cbn [bind]; [transitivity (graft s'); [exact (Htail g s')|]|..];
      cbn [finalState] in *; rewrite Hig; cbn [page set_jumps graft set_paused emit set_events];
      by rewrite Hpg, andb_true_r.
  - cbn [bind]. exact (Htail gotos _).
Qed.

(** C6, amended.  The graft flag starts clear.  Only [initiateGraft] sets
    it, and only when grafting is enabled; [getNext] calls it when the
    number of jumps reaches a multiple of [jumpMod].  A response drain that
    returns clears it as soon as the buffer held a response whose URL
    matches, whatever became of that response, and leaves it as it was
    otherwise; a drain that throws ends the session with the flag as it was.
    No other method writes it, and with grafting disabled it is clear
    throughout every session. *)
Theorem graft_interval (cfg : Config) (detailPage : JSval -> JSON) :
  graft initialState = false /\
  (forall gotos st,
     graft (finalState (initiateGraft cfg detailPage gotos st))
     = (enableGrafting cfg && page st) || graft st) /\
  (forall st,
     match processResponses cfg st with
     | Ok _ st' =>
         graft st' = graft st && negb (existsb matchesResponse (responseBuffer st))
     | Throw _ st' | Blocked st' => graft st' = graft st
     end) /\
  (forall resumes gotos st,
     graft (finalState (stimulate cfg detailPage resumes gotos st))
     = if returned (waitResume cfg resumes st) && page st
          && (Z.rem (jumps st + 1) jumpMod =? 0)
       then enableGrafting cfg || graft st
       else graft st) /\
  (forall st gotos time resumes,
     graft (processRequests st) = graft st /\
     graft (finalState (stop cfg detailPage st)) = graft st /\
     graft (finalState (start cfg gotos st)) = graft st /\
     graft (finalState (jump st)) = graft st /\
     graft (finalState (waitResume cfg resumes st)) = graft st /\
     graft (sleep cfg time st) = graft st /\
     graft (drain st) = graft st) /\
  (forall arrivals gotos,
     enableGrafting cfg = false ->
     graft (finalState (generator cfg detailPage arrivals gotos initialState)) = false).
Proof.
  split; [reflexivity|]. split; [apply initiateGraft_graft|].
  split; [apply processResponses_graft|]. split; [apply stimulate_graft|]. split.
  - intros st gotos time resumes. repeat split.
    + rewrite processRequests_eq. destruct (graft st) eqn:Hg; [exact Hg|].
      unfold capture. by destruct (last _).
    + rewrite stop_eq. destruct (page st); by rewrite awaitPagePromises_eq, progress_eq.
    + pose proof (start_neutral cfg gotos st) as Hn. unfold neutral in Hn. by destruct_and!.
    + rewrite jump_eq. by destruct (page st).
    + destruct (waitResume_eq cfg resumes st) as (turns & p & ->). reflexivity.
    + by rewrite sleep_eq.
    + by rewrite drain_eq.
  - intros arrivals gotos Hoff.
    apply (generator_inv cfg detailPage (fun s => graft s = false)); try done.
    + unfold neutral. intros s s' Hn H. destruct_and!. congruence.
    + congruence.
    + intros posts s H. pose proof (processPosts_frame cfg posts s) as Hf.
      unfold postsFrame in Hf. destruct_and!. congruence.
    + intros s H. by rewrite awaitPagePromises_eq.
    + intros s H. by rewrite awaitPagePromises_eq.
    + intros s H. by rewrite drain_eq.
    + intros s H. rewrite processRequests_eq, H. unfold capture. by destruct (last _).
Qed.

(** One interval: at the hundredth jump the graft begins; the next drain
    that finds a matching response ends it. *)
Lemma graft_interval_witness :
  graft (finalState (stimulate (sampleConfig 0) noDetail [] [None] beforeGraft)) = true
  /\ graft (finalState
       (processResponses (sampleConfig 0)
          (interceptResponse (sampleResponse true ["b"])
             (finalState (stimulate (sampleConfig 0) noDetail [] [None] beforeGraft))))) = false.
Proof.
  destruct (graft_interval (sampleConfig 0) noDetail) as (_ & _ & Hdrain & Hstim & _).
  split.
  - rewrite Hstim. reflexivity.
  - specialize (Hdrain
      (interceptResponse (sampleResponse true ["b"])
         (finalState (stimulate (sampleConfig 0) noDetail [] [None] beforeGraft)))).
    destruct (processResponses _ _) as [[] st'|e st'|st'] eqn:Hrun.
    + simpl. rewrite Hdrain. vm_compute. reflexivity.
    + exfalso. vm_compute in Hrun. discriminate.
    + exfalso. vm_compute in Hrun. discriminate.
Defined.

(** C6 as stated fails.  In graft mode a drain that finds only a rate-limit
    answer clears the flag although nothing was extracted; and a drain that
    extracts a post and then throws on the next one leaves the flag set. *)
Lemma graft_cleared_without_extraction :
  (exists st',
     processResponses (sampleConfig 0) (interceptResponse rateLimitResponse graftedState)
     = Ok tt st'
     /\ graft graftedState = true /\ graft st' = false
     /\ postBuffer st' = [] /\ index st' = 0 /\ size (postIds st') = 0%nat)
  /\ (exists st',
        processResponses (sampleConfig 0)
          (interceptResponse (responseOf true [samplePost "a"; JNull]) graftedState)
        = Throw TypeError st'
        /\ graft st' = true /\ postBuffer st' = [samplePost "a"] /\ index st' = 1).
Proof.
  split; eexists; (split; [vm_compute; reflexivity|]); repeat split.
Qed.

(** ** C7: hibernation *)

Lemma waits_app evs1 evs2 : waits (evs1 ++ evs2) = (waits evs1 + waits evs2)%nat.
Proof. unfold waits. by rewrite List.filter_app, length_app. Qed.

Lemma waits_statusLine cfg p r i : waits (statusLine cfg p r i) = 0%nat.
Proof. unfold statusLine. by destruct (silent cfg). Qed.

Lemma waits_countdown cfg scraped rounds : forall i,
  waits (countdown cfg scraped rounds i) = rounds.
Proof.
  induction rounds as [|n IH]; intros i; simpl; [reflexivity|].
  rewrite waits_app, waits_statusLine. simpl.
  change (waits (EvWait 1000 :: ?l)) with (S (waits l)). by rewrite IH.
Qed.

Lemma waits_sleepEvents cfg scraped time :
  waits (sleepEvents cfg scraped time) = Z.to_nat time.
Proof.
  unfold sleepEvents. rewrite waits_app, waits_countdown, waits_statusLine. lia.
Qed.

Lemma waits_roundSleep cfg st :
  waits (roundSleep cfg st)
  = (Z.to_nat (sleepTime cfg)
     + if hibernate st then Z.to_nat (hibernationTime cfg) else 0)%nat.
Proof.
  unfold roundSleep. rewrite waits_app, waits_sleepEvents.
  destruct (hibernate st); [by rewrite waits_sleepEvents|reflexivity].
Qed.

Lemma set_hibernate_same st : hibernate st = false -> set_hibernate false st = st.
Proof. destruct st; simpl. by intros ->. Qed.

(** The end of a round that runs to its end, in closed form. *)
Lemma roundSleep_eq cfg st :
  (if hibernate (sleep cfg (sleepTime cfg) st)
   then set_hibernate false (sleep cfg (hibernationTime cfg) (sleep cfg (sleepTime cfg) st))
   else sleep cfg (sleepTime cfg) st)
  = set_hibernate false
      (set_sleepRemaining 0 (set_events (events st ++ roundSleep cfg st) st)).
Proof.
  rewrite !sleep_eq. unfold roundSleep. simpl.
  destruct (hibernate st) eqn:Hh; simpl.
  - rewrite <- !app_assoc. reflexivity.
  - rewrite app_nil_r. symmetry. apply set_hibernate_same. exact Hh.
Qed.

(** The part of a round between the test of [finished] and the sleep
    touches neither the hibernation flag nor the count. *)
Lemma stimulate_round cfg detailPage resumes gotos st r st' :
  stimulate cfg detailPage resumes gotos st = Ok r st' ->
  exists st3,
    hibernate st3 = hibernate st /\ index st3 = index st /\
    st' = set_hibernate false
            (set_sleepRemaining 0 (set_events (events st3 ++ roundSleep cfg st3) st3)).
Proof.
  set (P := fun s : State => hibernate s = hibernate st /\ index s = index st).
  assert (Hn : forall s s', neutral s s' -> P s -> P s').
  { unfold neutral, P. intros s s' H [H1 H2]. destruct_and!. split; congruence. }
  assert (Hg : forall s, enableGrafting cfg = true -> P s -> P (set_graft true s)) by done.
  assert (Ha : forall s, P s -> P (awaitPagePromises detailPage s))
    by (intros s H; by rewrite awaitPagePromises_eq).
  unfold stimulate.
  pose proof (waitResume_inv cfg P Hn resumes st (conj eq_refl eq_refl)) as H1.
  destruct (waitResume cfg resumes st) as [[] st1|e st1|st1]; cbn [bind]; try discriminate.
  pose proof (jump_inv P Hn st1 H1) as H2.
  destruct (jump st1) as [[] st2|e st2|st2]; cbn [bind]; try discriminate.
  cbn [finalState] in H2.
  match goal with |- bind ?g0 _ = _ -> _ => set (g := g0) end.
  assert (H3 : P (finalState g)).
  { subst g. destruct (_ =? _); [|exact H2].
    by apply (initiateGraft_inv cfg detailPage P Hn Hg Ha). }
  destruct g as [gotos' st3|e st3|st3]; cbn [bind]; try discriminate.
  rewrite roundSleep_eq. intros [= _ <-]. exists st3. destruct H3 as [H3 H4]. done.
Qed.

Lemma processResponse_hibernate cfg res dg st :
  match processResponse cfg res dg st with
  | Ok _ st' => hibernate st' = hibernate st || rateLimitedResponse res
  | Throw _ st' | Blocked st' => hibernate st' = hibernate st
  end.
Proof.
  unfold processResponse, rateLimitedResponse.
  destruct (matchURL (res_url res)); cbn [negb andb]; [|by rewrite orb_false_r].
  destruct (res_body res) as [d|err].
  - destruct (rateLimited (Some d)) as [e|[|]]; simpl.
    + done.
    + by rewrite ?orb_true_r.
    + rewrite ?orb_false_r.
      match goal with |- context [iterate ?p] => destruct (iterate p) as [posts|] end;
        [|by destruct (negb _)].
      match goal with |- context [processPosts cfg posts ?s] =>
        pose proof (processPosts_frame cfg posts s) as Hf;
        assert (Hs : hibernate s = hibernate st) by (by destruct (negb _));
        destruct (processPosts cfg posts s) as [[] s'|e s'|s'] end;
        unfold postsFrame in Hf; simpl in *; destruct_and!; congruence.
  - simpl. by rewrite ?orb_false_r.
Qed.

Lemma processResponseList_hibernate cfg rs : forall dg st,
  match processResponseList cfg rs dg st with
  | Ok _ st' => hibernate st' = hibernate st || existsb rateLimitedResponse rs
  | Throw _ st' | Blocked st' => True
  end.
Proof.
  induction rs as [|res rs IH]; intros dg st; simpl; [by rewrite orb_false_r|].
  pose proof (processResponse_hibernate cfg res dg st) as H1.
  destruct (processResponse cfg res dg st) as [dg1 st1|e st1|st1]; simpl; try done.
  specialize (IH dg1 st1).
  destruct (processResponseList cfg rs dg1 st1) as [dg2 st2|e st2|st2]; try done.
  by rewrite IH, H1, orb_assoc.
Qed.

Lemma processResponses_hibernate cfg st st' :
  processResponses cfg st = Ok tt st' ->
  hibernate st' = hibernate st || existsb rateLimitedResponse (responseBuffer st).
Proof.
  unfold processResponses.
  pose proof (processResponseList_hibernate cfg (responseBuffer st) false st) as H.
  destruct (processResponseList cfg (responseBuffer st) false st) as [dg st1|e st1|st1];
    simpl; try discriminate.
  intros [= <-]. by destruct (_ && _).
Qed.

(** One round of the loop of [getNext] that returns: either the drain left
    the session finished and the round ends there, or it ends with the sleep
    and, when the flag is raised, the hibernation. *)
Lemma pollOnce_round cfg detailPage a gotos st r st' :
  pollOnce cfg detailPage a gotos st = Ok r st' ->
  if finished (drained cfg detailPage a st)
  then st' = drained cfg detailPage a st /\ r = (true, gotos)
  else
    hibernate st' = false /\
    exists st3,
      hibernate st3 = hibernate (drained cfg detailPage a st) /\
      index st3 = index (drained cfg detailPage a st) /\
      events st' = events st3 ++ roundSleep cfg st3.
Proof.
  unfold pollOnce, drained.
  destruct (processResponses cfg _) as [[] st2|e st2|st2]; cbn [bind finalState];
    try discriminate.
  match goal with |- context [if ?c then _ else _] => destruct c end.
  - by intros [= <- <-].
  - intros H. destruct r as [b g].
    apply stimulate_round in H as (st3 & Hh & Hi & ->).
    split; [reflexivity|]. exists st3. done.
Qed.

(** What holds when a round, and when [getNext], returns. *)
Lemma stimulate_returns cfg detailPage resumes gotos st b gotos' st' :
  stimulate cfg detailPage resumes gotos st = Ok (b, gotos') st' ->
  b = negb (Nat.eqb (List.length (postBuffer st')) 0) /\ hibernate st' = false.
Proof.
  unfold stimulate.
  destruct (waitResume cfg resumes st) as [[] st1|e st1|st1]; cbn [bind]; try discriminate.
  destruct (jump st1) as [[] st2|e st2|st2]; cbn [bind]; try discriminate.
  match goal with |- context [bind ?g0 _] => destruct g0 as [g1 st3|e st3|st3] end;
    cbn [bind]; try discriminate.
  intros H. injection H as Hb _ Hst. subst st'. split; [by rewrite <- Hb|].
  by destruct (hibernate (sleep cfg (sleepTime cfg) st3)) eqn:E.
Qed.

Lemma pollOnce_returns cfg detailPage a gotos st r st' :
  pollOnce cfg detailPage a gotos st = Ok r st' ->
  (if fst r then finished st' = true \/ postBuffer st' <> []
   else finished st' = false /\ postBuffer st' = []) /\
  (finished st' = false -> hibernate st' = false).
Proof.
  unfold pollOnce.
  destruct (processResponses cfg _) as [[] st2|e st2|st2]; cbn [bind]; try discriminate.
  set (st4 := set_pagePromises [] (awaitPagePromises detailPage (progress cfg BRANCHING st2))).
  destruct (finished st4) eqn:Hf.
  - intros [= <- <-]. cbn [fst]. split; [by left|].
    intros Hn. change (finished st4 = false) in Hn. congruence.
  - intros H.
    pose proof (stimulate_inv cfg detailPage (fun s => finished s = false)) as Hinv.
    specialize (fun H1 H2 H3 H4 => Hinv H1 H2 H3 H4 (arr_resumes a) gotos st4 Hf).
    rewrite H in Hinv. cbn [finalState] in Hinv.
    assert (Hfin : finished st' = false).
    { apply Hinv; try done.
      - unfold neutral. intros s s' Hn Hs. destruct_and!. congruence.
      - intros s Hs. by rewrite awaitPagePromises_eq. }
    destruct r as [b g]. apply stimulate_returns in H as [-> Hh]. simpl.
    split; [|done].
    destruct (postBuffer st'); simpl; [done|]. by right.
Qed.

Lemma getNextRounds_returns cfg detailPage arrivals : forall gotos st r st',
  getNextRounds cfg detailPage arrivals gotos st = Ok r st' ->
  (finished st' = true \/ postBuffer st' <> []) /\
  pagePromises st' = [] /\
  (finished st' = false -> hibernate st' = false) /\
  (List.length (fst r) < List.length arrivals)%nat.
Proof.
  induction arrivals as [|a rest IH]; intros gotos st r st'; simpl; [discriminate|].
  destruct (pollOnce cfg detailPage a gotos st) as [r1 st1|e st1|st1] eqn:Hpoll;
    cbn [bind]; try discriminate.
  destruct (pollOnce_returns _ _ _ _ _ _ _ Hpoll) as [Hr Hh].
  destruct (fst r1).
  - intros [= <- <-]. simpl. repeat split; try done; [|lia].
    by eapply pollOnce_promises.
  - intros H. apply IH in H. destruct_and!. repeat split; try done. lia.
Qed.

(** C7, amended.  A matching response whose payload is an object with
    [status] equal to ["fail"] is logged as rate limited and raises the
    hibernation flag; nothing else of the state changes: no post is read and
    [finished] stays.  A drain that returns leaves the flag raised exactly
    when it was raised before or the buffer held such a response.  The
    hibernation is served in the same round of [getNext], not in the next:
    when the drain leaves the session unfinished, the round that returns ends
    with the sleep of [sleepTime] and then, exactly when the flag is raised,
    the sleep of [hibernationTime], and leaves the flag clear, so the rounds
    after it hibernate no more.  When the drain leaves the session finished,
    the round ends without any sleep and the flag stays raised.  So when
    [getNext] returns from a session that is not finished, the flag is
    clear.  [sleep(hibernationTime)] waits that many seconds. *)
Theorem rate_limit_hibernation (cfg : Config) (detailPage : JSval -> JSON) :
  (forall u fields dg st,
     matchURL u = true ->
     assoc "status" fields = Some (JStr "fail") ->
     processResponse cfg {| res_url := u; res_body := Parsed (JObj fields) |} dg st
     = Ok true (set_hibernate true (emit [EvLogInfo "Rate limited"] st)) /\
     rateLimitedResponse {| res_url := u; res_body := Parsed (JObj fields) |} = true) /\
  (forall st st',
     processResponses cfg st = Ok tt st' ->
     hibernate st' = hibernate st || existsb rateLimitedResponse (responseBuffer st)) /\
  (forall a gotos st r st',
     pollOnce cfg detailPage a gotos st = Ok r st' ->
     if finished (drained cfg detailPage a st)
     then st' = drained cfg detailPage a st /\ r = (true, gotos)
     else
       hibernate st' = false /\
       exists st3,
         hibernate st3 = hibernate (drained cfg detailPage a st) /\
         index st3 = index (drained cfg detailPage a st) /\
         events st' = events st3 ++ roundSleep cfg st3) /\
  (forall arrivals gotos st r st',
     getNext cfg detailPage arrivals gotos st = Ok r st' ->
     finished st' = false -> hibernate st' = false) /\
  (forall st,
     waits (roundSleep cfg st)
     = (Z.to_nat (sleepTime cfg)
        + if hibernate st then Z.to_nat (hibernationTime cfg) else 0)%nat).
Proof.
  split; [|split; [apply processResponses_hibernate|split;
                   [apply pollOnce_round|split; [|apply waits_roundSleep]]]].
  2: { intros arrivals gotos st r st' Hget Hfin. unfold getNext in Hget.
       apply getNextRounds_returns in Hget. destruct_and!. auto. }
  intros u fields dg st Hu Hstatus. unfold processResponse, rateLimitedResponse.
  cbn [res_url res_body]. rewrite Hu. cbn [negb rateLimited truthy andb]. rewrite Hstatus.
  split; reflexivity.
Qed.

(** Scenario D: a poll finds a rate-limit response; the round waits one
    second of sleep and three of hibernation and leaves the flag clear; the
    round after it waits one second only. *)
Lemma rate_limit_hibernation_witness :
  (exists r st',
     pollOnce (sampleConfig 0) noDetail (poll [rateLimitResponse]) [] startedState = Ok r st'
     /\ hibernate (drained (sampleConfig 0) noDetail (poll [rateLimitResponse]) startedState)
        = true
     /\ hibernate st' = false /\ waits (events st') = 4%nat /\ finished st' = false
     /\ exists r' st'',
          pollOnce (sampleConfig 0) noDetail (poll []) [] st' = Ok r' st''
          /\ waits (events st'') = 5%nat).
Proof.
  destruct (rate_limit_hibernation (sampleConfig 0) noDetail) as (_ & _ & Hround & _).
  destruct (pollOnce (sampleConfig 0) noDetail (poll [rateLimitResponse]) [] startedState)
    as [r st'|e st'|st'] eqn:Hpoll; [|vm_compute in Hpoll; discriminate..].
  exists r, st'. split; [reflexivity|].
  pose proof (Hround _ _ _ _ _ Hpoll) as Hr.
  change (finished (drained (sampleConfig 0) noDetail (poll [rateLimitResponse]) startedState))
    with false in Hr.
  destruct Hr as (Hclear & _).
  vm_compute in Hpoll. injection Hpoll as <- <-.
  split; [reflexivity|]. split; [exact Hclear|]. split; [reflexivity|]. split; [reflexivity|].
  eexists _, _. split; [vm_compute; reflexivity|reflexivity].
Defined.

(** C7 as stated fails when the drain that meets the rate limit also meets
    the last page: the session ends with the flag raised, and no hibernation
    is ever served. *)
Lemma rate_limit_without_hibernation :
  exists st',
    generator (sampleConfig 0) noDetail
      [poll [rateLimitResponse; sampleResponse false ["a"]]] [None] initialState = Ok tt st'
    /\ hibernate st' = true
    /\ waits (events st') = 0%nat
    /\ yielded st' = [samplePost "a"].
Proof. eexists. split; [vm_compute; reflexivity|]. repeat split. Qed.

(** ** C10: the post buffer across a graft *)

Lemma stimulate_postBuffer cfg detailPage resumes gotos st :
  pagePromises st = [] ->
  postBuffer (finalState (stimulate cfg detailPage resumes gotos st)) = postBuffer st /\
  pagePromises (finalState (stimulate cfg detailPage resumes gotos st)) = [].
Proof.
  intros Hpp.
  apply (stimulate_inv cfg detailPage
           (fun s => postBuffer s = postBuffer st /\ pagePromises s = [])); try done.
  - unfold neutral. intros s s' Hn [H1 H2]. destruct_and!. split; congruence.
  - intros s [H1 H2]. rewrite awaitPagePromises_eq. unfold pendingRecords. simpl.
    rewrite H2. simpl. by rewrite app_nil_r.
Qed.

Lemma initiateGraft_postBuffer cfg detailPage gotos st :
  pagePromises st = [] ->
  postBuffer (finalState (initiateGraft cfg detailPage gotos st)) = postBuffer st.
Proof.
  intros Hpp.
  apply (initiateGraft_inv cfg detailPage
           (fun s => postBuffer s = postBuffer st /\ pagePromises s = [])); try done.
  - unfold neutral. intros s s' Hn [H1 H2]. destruct_and!. split; congruence.
  - intros s [H1 H2]. rewrite awaitPagePromises_eq. unfold pendingRecords. simpl.
    rewrite H2. simpl. by rewrite app_nil_r.
Qed.

(** C10.  [stop], on an instance that has a page, returns with the request
    buffer and the response buffer empty; on an instance that never opened a
    page it throws at [this.page.close()].  Either way it removes nothing
    from the post buffer: it only awaits the detail pages still in flight,
    whose records are appended.  With none in flight, as whenever [getNext]
    starts a graft, the post buffer is the same after [stop], after the whole
    of [initiateGraft] and after the rest of the round; the generator then
    yields every post of the buffer. *)
Theorem stop_keeps_posts (cfg : Config) (detailPage : JSval -> JSON) (st : State) :
  (stop cfg detailPage st
   = (if page st
      then Ok tt (close (awaitPagePromises detailPage (progress cfg CLOSING st)))
      else Throw TypeError (awaitPagePromises detailPage (progress cfg CLOSING st))) /\
   (forall s, requestBuffer (close s) = [] /\ responseBuffer (close s) = [] /\
              postBuffer (close s) = postBuffer s) /\
   (page st = true ->
    requestBuffer (finalState (stop cfg detailPage st)) = [] /\
    responseBuffer (finalState (stop cfg detailPage st)) = [])) /\
  (postBuffer (finalState (stop cfg detailPage st))
   = postBuffer st ++ pendingRecords detailPage st /\
   yielded (finalState (stop cfg detailPage st)) = yielded st) /\
  (pagePromises st = [] ->
   postBuffer (finalState (stop cfg detailPage st)) = postBuffer st /\
   forall resumes gotos,
     postBuffer (finalState (initiateGraft cfg detailPage gotos st)) = postBuffer st /\
     postBuffer (finalState (stimulate cfg detailPage resumes gotos st)) = postBuffer st) /\
  (Forall (fun post => truthy post = true) (postBuffer st) ->
   yielded (drain st) = yielded st ++ postBuffer st /\ postBuffer (drain st) = []).
Proof.
  assert (Hstop : postBuffer (finalState (stop cfg detailPage st))
                  = postBuffer st ++ pendingRecords detailPage st).
  { rewrite stop_eq. destruct (page st); by rewrite awaitPagePromises_eq, progress_eq. }
  split; [split; [apply stop_eq|split; [by intros s|]]|].
  { intros Hpg. rewrite stop_eq, Hpg. split; reflexivity. }
  split; [split; [exact Hstop|]|split].
  - rewrite stop_eq. destruct (page st); by rewrite awaitPagePromises_eq, progress_eq.
  - intros Hpp. split.
    + rewrite Hstop. unfold pendingRecords. rewrite Hpp. simpl. by rewrite app_nil_r.
    + intros resumes gotos. split; [by apply initiateGraft_postBuffer|].
      by apply stimulate_postBuffer.
  - intros Htruthy. rewrite drain_eq. simpl.
    by destruct (truthyPrefix_all _ Htruthy) as [-> ->].
Qed.

(** A post queued before the hundredth jump is still queued after the graft
    that the jump starts, and is yielded next. *)
Lemma stop_keeps_posts_witness :
  graft (finalState (stimulate (sampleConfig 0) noDetail [] [None] beforeGraft)) = true
  /\ postBuffer (finalState (stimulate (sampleConfig 0) noDetail [] [None] beforeGraft))
     = [samplePost "a"]
  /\ yielded (drain (finalState (stimulate (sampleConfig 0) noDetail [] [None] beforeGraft)))
     = [samplePost "a"].
Proof.
  destruct (stop_keeps_posts (sampleConfig 0) noDetail beforeGraft) as (_ & _ & Hgraft & _).
  destruct (Hgraft eq_refl) as (_ & Hkeep). destruct (Hkeep [] [None]) as (_ & Hround).
  split; [vm_compute; reflexivity|]. split; [rewrite Hround; reflexivity|].
  vm_compute. reflexivity.
Defined.

(** ** C3: the navigation retry *)

Lemma visit_fields cfg st :
  pageUrlAttempts (visit cfg st) = pageUrlAttempts st /\ started (visit cfg st) = started st.
Proof. unfold visit. rewrite !progress_eq. split; reflexivity. Qed.

Lemma retry_fields cfg e st :
  pageUrlAttempts (retry cfg e st) = pageUrlAttempts st + 1 /\
  started (retry cfg e st) = started st.
Proof.
  unfold retry. rewrite sleep_eq, progress_eq. simpl.
  destruct (visit_fields cfg st) as [_ Hs]. split; [reflexivity|exact Hs].
Qed.

Lemma constructPage_loaded cfg rest st :
  constructPage cfg (None :: rest) st = Ok rest (visit cfg st).
Proof. reflexivity. Qed.

Lemma constructPage_failed cfg e rest st :
  constructPage cfg (Some e :: rest) st
  = if (pageUrlAttempts st =? maxPageUrlAttempts) && negb (started st)
    then Throw FailedToVisitURL (set_pageUrlAttempts (pageUrlAttempts st + 1) (visit cfg st))
    else constructPage cfg rest (retry cfg e st).
Proof.
  cbn [constructPage]. fold (visit cfg st).
  destruct (visit_fields cfg st) as [Ha Hs].
  change (started (set_pageUrlAttempts (pageUrlAttempts (visit cfg st) + 1) (visit cfg st)))
    with (started (visit cfg st)).
  rewrite Ha, Hs. reflexivity.
Qed.

Lemma constructPage_started cfg gotos : forall st e st',
  started st = true -> constructPage cfg gotos st <> Throw e st'.
Proof.
  induction gotos as [|g gotos IH]; intros st e st' Hs; [discriminate|].
  destruct g as [err|]; [|discriminate].
  rewrite constructPage_failed, Hs, andb_false_r.
  apply IH. destruct (retry_fields cfg err st) as [_ ->]. exact Hs.
Qed.

(** C3, on the code.  Before the first successful start, three navigation
    failures in a row do not abort the scrape: each is retried, and a fourth
    attempt that loads lets the session go on.  The fatal error is thrown at
    the fourth failure in a row.  A retry logs the error, reports the abort,
    sleeps 60 seconds and closes the page and the browser before the next
    attempt; once the engine has started, no failure is fatal. *)
Theorem navigation_retry_budget (cfg : Config) (e1 e2 e3 e4 : string)
    (rest : list (option string)) :
  constructPage cfg (Some e1 :: Some e2 :: Some e3 :: None :: rest) initialState
  = Ok rest (visit cfg (retry cfg e3 (retry cfg e2 (retry cfg e1 initialState)))) /\
  constructPage cfg (Some e1 :: Some e2 :: Some e3 :: Some e4 :: rest) initialState
  = Throw FailedToVisitURL
      (set_pageUrlAttempts 4
         (visit cfg (retry cfg e3 (retry cfg e2 (retry cfg e1 initialState))))) /\
  (forall e st,
     events (retry cfg e st)
     = events (visit cfg st)
         ++ [EvLogError e]
         ++ statusLine cfg ABORTED (sleepRemaining st) (index st)
         ++ sleepEvents cfg (index st) 60
         ++ [EvPageClose; EvBrowserClose]) /\
  (forall scraped, waits (sleepEvents cfg scraped 60) = 60%nat) /\
  (forall gotos st e st',
     started st = true -> constructPage cfg gotos st <> Throw e st').
Proof.
  set (st1 := retry cfg e1 initialState).
  set (st2 := retry cfg e2 st1).
  set (st3 := retry cfg e3 st2).
  assert (H1 : pageUrlAttempts st1 = 1 /\ started st1 = false).
  { subst st1. destruct (retry_fields cfg e1 initialState) as [-> ->]. done. }
  assert (H2 : pageUrlAttempts st2 = 2 /\ started st2 = false).
  { subst st2. destruct (retry_fields cfg e2 st1) as [-> ->]. destruct H1 as [-> ->]. done. }
  assert (H3 : pageUrlAttempts st3 = 3 /\ started st3 = false).
  { subst st3. destruct (retry_fields cfg e3 st2) as [-> ->]. destruct H2 as [-> ->]. done. }
  destruct H1 as [Ha1 Hs1], H2 as [Ha2 Hs2], H3 as [Ha3 Hs3].
  assert (Hthree : forall tail,
    constructPage cfg (Some e1 :: Some e2 :: Some e3 :: tail) initialState
    = constructPage cfg tail st3).
  { intros tail. rewrite constructPage_failed. cbn [pageUrlAttempts initialState].
    change (0 =? maxPageUrlAttempts) with false. cbn [andb]. fold st1.
    rewrite constructPage_failed, Ha1. change (1 =? maxPageUrlAttempts) with false.
    cbn [andb]. fold st2.
    rewrite constructPage_failed, Ha2. change (2 =? maxPageUrlAttempts) with false.
    cbn [andb]. reflexivity. }
  split; [|split; [|split; [|split]]].
  - rewrite Hthree. apply constructPage_loaded.
  - rewrite Hthree, constructPage_failed, Ha3, Hs3. reflexivity.
  - intros e st. unfold retry. rewrite sleep_eq, progress_eq. simpl.
    unfold visit. rewrite !progress_eq. simpl. rewrite <- !app_assoc. reflexivity.
  - intros scraped. apply waits_sleepEvents.
  - intros gotos st e st'. apply constructPage_started.
Qed.

(** ** C4: a response that does not parse *)

Lemma matchURL_apiURL : matchURL apiURL = true.
Proof. vm_compute. reflexivity. Qed.

(** C4, on the code.  A matching response whose body does not parse is
    logged and no post is read from it, but it is not skipped: with [data]
    undefined the page-info test fails, so the response is logged as the end
    of the posts and sets [finished].  A session whose first response does
    not parse ends at once, with nothing yielded, whatever comes after. *)
Theorem parse_failure_sets_finished (cfg : Config) (err : string) (dg : bool) (st : State) :
  processResponse cfg {| res_url := apiURL; res_body := Unparseable err |} dg st
  = Ok true
      (set_finished true
         (emit [EvLogError "Error processing response JSON"; EvLogError err;
                EvLogInfo "No posts remaining"] st)) /\
  (exists st',
     generator (sampleConfig 0) noDetail
       [poll [brokenResponse]; poll [sampleResponse false ["a"]]] [None] initialState
     = Ok tt st'
     /\ finished st' = true /\ yielded st' = []).
Proof.
  split.
  - unfold processResponse. cbn [res_url res_body]. rewrite matchURL_apiURL. simpl.
    rewrite emit_emit. reflexivity.
  - eexists. split; [vm_compute; reflexivity|]. split; reflexivity.
Qed.

(** * Further properties of the engine *)

(** ** Payloads that are not what the engine expects *)

Lemma splitDots_cons s : forall cur, exists k ks, splitDots s cur = k :: ks.
Proof.
  induction s as [|c s IH]; intros cur; simpl; [by eexists _, _|].
  destruct (Ascii.eqb c "."); [by eexists _, _|apply IH].
Qed.

Lemma baseGet_undefined path : baseGet None path = None.
Proof. by destruct path. Qed.

Lemma castPath_cons path d : exists k ks, castPath path d = k :: ks.
Proof.
  unfold castPath, stringToPath. destruct d; try apply splitDots_cons.
  destruct (assoc path fields); [by eexists _, _|apply splitDots_cons].
Qed.

(** A lookup in a value without properties gives the default. *)
Lemma lodash_get_bare (d : JSON) path defaultValue :
  (forall k, getProp d k = None) ->
  lodash_get (Some d) path defaultValue = defaultValue.
Proof.
  intros Hbare. unfold lodash_get.
  destruct (castPath_cons path d) as (k & ks & Hp). rewrite Hp. simpl.
  rewrite Hbare, baseGet_undefined. by destruct d.
Qed.

Lemma processResponse_empty cfg u (d : JSON) dg st :
  matchURL u = true ->
  rateLimited (Some d) = inr false ->
  (forall k, getProp d k = None) ->
  processResponse cfg {| res_url := u; res_body := Parsed d |} dg st
  = Ok true (set_finished true (emit [EvLogInfo "No posts remaining"] st)).
Proof.
  intros Hu Hrl Hbare. unfold processResponse, hasNextPage. cbn [res_url res_body].
  rewrite Hu, Hrl, !lodash_get_bare by exact Hbare. reflexivity.
Qed.

(** Posts queued by a round whose drain throws are not yielded. *)
Lemma pollOnce_yielded cfg detailPage a gotos st :
  yielded (finalState (pollOnce cfg detailPage a gotos st)) = yielded st.
Proof.
  apply (pollOnce_inv cfg detailPage (fun s => yielded s = yielded st)); try done.
  - unfold neutral. intros s s' Hn H. destruct_and!. congruence.
  - intros posts s H. pose proof (processPosts_frame cfg posts s) as Hf.
    unfold postsFrame in Hf. destruct_and!. congruence.
  - intros s H. by rewrite awaitPagePromises_eq.
  - intros s H. by rewrite awaitPagePromises_eq.
  - intros s H. rewrite processRequests_eq.
    destruct (graft s); [exact H|]. unfold capture. by destruct (last _).
Qed.

(** X1.  What the response drain does with a body it does not expect.  A
    body that is a true, a non-zero number or a non-empty string makes the
    drain throw a [TypeError] at once, with the state as it was.  A body
    that is [null], [false], [0] or an object without fields is taken for
    the last page: it is logged as the end of the posts and sets [finished].
    A post that is [null] or has no [node] makes the drain throw where it
    stands.  The exception leaves the generator with nothing yielded from
    that round. *)
Theorem malformed_payloads (cfg : Config) (detailPage : JSval -> JSON) :
  (forall u d dg st,
     matchURL u = true -> isPrimitive d = true -> truthy d = true ->
     processResponse cfg {| res_url := u; res_body := Parsed d |} dg st
     = Throw TypeError st) /\
  (forall u d dg st,
     matchURL u = true ->
     d = JNull \/ d = JBool false \/ d = JNum 0 \/ d = JObj [] ->
     processResponse cfg {| res_url := u; res_body := Parsed d |} dg st
     = Ok true (set_finished true (emit [EvLogInfo "No posts remaining"] st))) /\
  (forall post rest st,
     lacksNode post = true ->
     processPosts cfg (post :: rest) st = Throw TypeError st) /\
  (forall a rest gotos st e st',
     pollOnce cfg detailPage a gotos st = Throw e st' ->
     pump cfg detailPage (a :: rest) gotos st = Throw e st' /\ yielded st' = yielded st).
Proof.
  split; [|split; [|split]].
  - intros u d dg st Hu Hprim Htruthy. unfold processResponse. cbn [res_url res_body].
    rewrite Hu. cbn [negb]. unfold rateLimited. rewrite Htruthy. cbn [negb].
    destruct d; try discriminate; reflexivity.
  - intros u d dg st Hu Hd. destruct Hd as [-> | [-> | [-> | ->]]];
      (apply processResponse_empty; [exact Hu|reflexivity|reflexivity]).
  - intros post rest st Hn. cbn [processPosts]. unfold postIdOf, readProp, lacksNode in *.
    destruct post; try reflexivity; try discriminate;
      destruct (getProp _ "node") as [[]|]; try discriminate; reflexivity.
  - intros a rest gotos st e st' Hpoll. split.
    + cbn [pump]. rewrite Hpoll. reflexivity.
    + pose proof (pollOnce_yielded cfg detailPage a gotos st) as Hy.
      rewrite Hpoll in Hy. exact Hy.
Qed.

(** A body that is text throws; so does a post without [node]. *)
Lemma malformed_payloads_witness :
  processResponse (sampleConfig 0)
    {| res_url := apiURL; res_body := Parsed (JStr "<html>") |} false initialState
  = Throw TypeError initialState
  /\ processPosts (sampleConfig 0) [JObj [("id", JStr "a")]; samplePost "b"] initialState
     = Throw TypeError initialState.
Proof.
  destruct (malformed_payloads (sampleConfig 0) noDetail) as (Hbody & _ & Hpost & _).
  split; [apply Hbody; reflexivity|apply Hpost; reflexivity].
Defined.

(** ** Traffic that does not match the API pattern *)

Lemma processResponseList_filter cfg rs : forall dg st,
  processResponseList cfg rs dg st
  = processResponseList cfg (List.filter matchesResponse rs) dg st.
Proof.
  induction rs as [|res rs IH]; intros dg st; [reflexivity|].
  cbn [List.filter]. unfold matchesResponse at 1.
  destruct (matchURL (res_url res)) eqn:Hm.
  - cbn [processResponseList].
    destruct (processResponse cfg res dg st) as [dg' st'|e st'|st']; simpl; [apply IH|done..].
  - cbn [processResponseList]. unfold processResponse at 1. rewrite Hm. simpl. apply IH.
Qed.

Lemma continues_app evs1 evs2 :
  continues (evs1 ++ evs2) = (continues evs1 + continues evs2)%nat.
Proof. unfold continues. by rewrite List.filter_app, length_app. Qed.

Lemma continues_map {A : Type} (f : A -> option string * option Headers) (l : list A) :
  continues (map (fun x => EvContinue (fst (f x)) (snd (f x))) l) = List.length l.
Proof. unfold continues. induction l as [|x l IH]; simpl; [done|by rewrite IH]. Qed.

Lemma filter_none {A : Type} (f : A -> bool) (l : list A) :
  Forall (fun x => f x = false) l -> List.filter f l = [].
Proof. induction 1 as [|x l Hx _ IH]; simpl; [done|by rewrite Hx]. Qed.

(** X2.  Traffic that does not match the API pattern.  [processRequests]
    calls [req.continue] once for every matching request of the buffer and
    for no other: a buffer without a matching request is emptied without a
    single call and leaves the template alone.  The response drain does not
    read a response that does not match: removing such responses from the
    list changes nothing, and a buffer without a matching response is just
    emptied, the graft flag staying as it is. *)
Theorem unmatched_traffic (cfg : Config) (st : State) :
  continues (events (processRequests st))
  = (continues (events st)
     + List.length (List.filter matchesRequest (requestBuffer st)))%nat /\
  (Forall (fun req => matchesRequest req = false) (requestBuffer st) ->
   processRequests st = set_requestBuffer [] st) /\
  (forall rs dg,
     processResponseList cfg rs dg st
     = processResponseList cfg (List.filter matchesResponse rs) dg st) /\
  (Forall (fun res => matchesResponse res = false) (responseBuffer st) ->
   processResponses cfg st = Ok tt (set_responseBuffer [] st)).
Proof.
  split; [|split; [|split]].
  - rewrite processRequests_eq. destruct (graft st); simpl; rewrite continues_app.
    + f_equal. apply (continues_map (fun _ => (lastURL st, lastHeaders st))).
    + f_equal; [unfold capture; by destruct (last _)|].
      apply (continues_map (fun req => (Some (req_url req), Some (req_headers req)))).
  - intros Hnone. rewrite processRequests_eq, (filter_none _ _ Hnone). simpl.
    unfold capture. simpl. rewrite emit_nil. by destruct (graft st).
  - intros rs dg. apply processResponseList_filter.
  - intros Hnone. unfold processResponses.
    rewrite processResponseList_filter, (filter_none _ _ Hnone). simpl.
    by rewrite andb_false_r.
Qed.

(** Two requests for the page's own resources are dropped without a call of
    [req.continue]. *)
Lemma unmatched_traffic_witness :
  processRequests
    (interceptRequest {| req_url := "https://instagram.com/bob"; req_headers := [] |}
       (interceptRequest {| req_url := "https://instagram.com/static/app.js"; req_headers := [] |}
          initialState))
  = initialState.
Proof.
  destruct (unmatched_traffic (sampleConfig 0)
              (interceptRequest {| req_url := "https://instagram.com/bob"; req_headers := [] |}
                 (interceptRequest
                    {| req_url := "https://instagram.com/static/app.js"; req_headers := [] |}
                    initialState))) as (_ & Hdrop & _).
  rewrite Hdrop; [reflexivity|].
  repeat constructor.
Defined.

(** ** Sleeping *)

Lemma readings_app evs1 evs2 : readings (evs1 ++ evs2) = readings evs1 ++ readings evs2.
Proof. unfold readings. by rewrite map_app, concat_app. Qed.

Lemma readings_countdown cfg scraped rounds : forall i,
  readings (countdown cfg scraped rounds i)
  = if silent cfg then [] else descending rounds i.
Proof.
  induction rounds as [|n IH]; intros i; simpl; [by destruct (silent cfg)|].
  rewrite readings_app. unfold statusLine.
  change (readings (EvWait 1000 :: ?l)) with (readings l). rewrite IH.
  by destruct (silent cfg).
Qed.

(** X3.  [sleep(time)] waits [time] seconds, one at a time, and nothing for
    a time of zero or less; unless the session is silent, the status line
    counts the seconds down from [time] to [1] and ends on [0].  It leaves
    [sleepRemaining] at zero and touches no other field, and two sleeps in a
    row wait the sum of their times. *)
Theorem sleep_countdown (cfg : Config) (time : Z) (st : State) :
  sleep cfg time st
  = set_events (events st ++ sleepEvents cfg (index st) time) (set_sleepRemaining 0 st) /\
  waits (sleepEvents cfg (index st) time) = Z.to_nat time /\
  readings (sleepEvents cfg (index st) time)
  = (if silent cfg then [] else descending (Z.to_nat time) time ++ [0]) /\
  (forall time',
     waits (events (sleep cfg time' (sleep cfg time st)))
     = (waits (events st) + Z.to_nat time + Z.to_nat time')%nat).
Proof.
  split; [apply sleep_eq|]. split; [apply waits_sleepEvents|]. split.
  - unfold sleepEvents. rewrite readings_app, readings_countdown. unfold statusLine.
    destruct (silent cfg); [reflexivity|]. reflexivity.
  - intros time'. rewrite !sleep_eq. simpl. rewrite !waits_app, !waits_sleepEvents. lia.
Qed.

(** ** What a session never undoes *)

Lemma processPosts_grows cfg posts : forall st,
  postIds st ⊆ postIds (finalState (processPosts cfg posts st)) /\
  index st <= index (finalState (processPosts cfg posts st)).
Proof.
  induction posts as [|post rest IH]; intros st; simpl; [split; [done|lia]|].
  destruct (postIdOf post) as [e|postId]; simpl; [split; [done|lia]|].
  repeat match goal with |- context [if ?c then _ else _] => destruct c end;
    try (match goal with |- context [processPosts cfg rest ?s] =>
           destruct (IH s) as [Hids Hidx];
           assert (Hids0 : postIds st ⊆ postIds s) by (simpl; set_solver);
           assert (Hidx0 : index st <= index s) by (simpl; lia)
         end;
         split; [by etrans|lia]).
  simpl. split; [set_solver|lia].
Qed.

Lemma generator_grows (cfg : Config) (detailPage : JSval -> JSON)
    (arrivals : list Arrival) (gotos : list (option string)) (st : State) :
  let st' := finalState (generator cfg detailPage arrivals gotos st) in
  (if finished st then finished st' = true else True) /\
  postIds st ⊆ postIds st' /\
  index st <= index st' /\
  exists more, yielded st' = yielded st ++ more.
Proof.
  intros st'. subst st'.
  apply (generator_inv cfg detailPage
           (fun s => (if finished st then finished s = true else True) /\
                     postIds st ⊆ postIds s /\ index st <= index s /\
                     exists more, yielded s = yielded st ++ more)).
  - unfold neutral. intros s s' Hn H. destruct_and!.
    repeat match goal with H : _ s' = _ s |- _ => rewrite H end. done.
  - intros b s H. exact H.
  - intros s H. exact H.
  - intros s _ H. exact H.
  - intros s (H1 & H2 & H3 & H4). repeat split; try done. by destruct (finished st).
  - intros posts s (H1 & H2 & H3 & H4).
    destruct (processPosts_grows cfg posts s) as [Hids Hidx].
    pose proof (processPosts_frame cfg posts s) as Hf. unfold postsFrame in Hf.
    destruct_and!. repeat split.
    + destruct (finished st); [|done]. by apply processPosts_finished.
    + set_solver.
    + lia.
    + match goal with H : yielded _ = yielded s |- _ => rewrite H end. done.
  - intros s H. rewrite awaitPagePromises_eq. exact H.
  - intros s H. rewrite awaitPagePromises_eq. exact H.
  - intros s (H1 & H2 & H3 & [more H4]). rewrite drain_eq. repeat split; try done.
    exists (more ++ truthyPrefix (postBuffer s)). simpl. by rewrite H4, app_assoc.
  - intros s H. rewrite processRequests_eq.
    destruct (graft s); [exact H|]. unfold capture. by destruct (last _).
  - split; [by destruct (finished st)|]. split; [done|]. split; [lia|].
    exists []. by rewrite app_nil_r.
Qed.

(** X4.  What a session never undoes, from any state and however it ends:
    [finished], once set, stays set; no id leaves the id set; the count
    never goes down; and the records yielded so far stay yielded, new ones
    coming behind them. *)
Theorem session_monotone (cfg : Config) (detailPage : JSval -> JSON)
    (arrivals : list Arrival) (gotos : list (option string)) (st : State) :
  let st' := finalState (generator cfg detailPage arrivals gotos st) in
  (finished st = true -> finished st' = true) /\
  postIds st ⊆ postIds st' /\
  index st <= index st' /\
  exists more, yielded st' = yielded st ++ more.
Proof.
  intros st'. destruct (generator_grows cfg detailPage arrivals gotos st) as (H1 & H2).
  split; [|exact H2]. intros Hf. by rewrite Hf in H1.
Qed.

(** ** The public controls *)

Lemma pauseTurn_eq cfg st :
  emit [EvWait 200] (progress cfg PAUSED st) = emit (pauseTurns cfg st 1) st.
Proof.
  rewrite progress_eq, emit_emit. unfold pauseTurns. simpl. by rewrite app_nil_r.
Qed.

Lemma waitResume_turns cfg n : forall st,
  paused st = true ->
  (forall rest,
     waitResume cfg (repeat false n ++ true :: rest) st
     = Ok tt (set_paused false (emit (pauseTurns cfg st (S n)) st))) /\
  waitResume cfg (repeat false n) st = Blocked (emit (pauseTurns cfg st (S n)) st).
Proof.
  induction n as [|n IH]; intros st Hp.
  - split; [intros rest|]; simpl; rewrite Hp, pauseTurn_eq; [|reflexivity].
    unfold pause. simpl. by rewrite Hp.
  - destruct (IH (emit (pauseTurns cfg st 1) st) Hp) as [Hres Hblk].
    assert (Hmore : emit (pauseTurns cfg (emit (pauseTurns cfg st 1) st) (S n))
                      (emit (pauseTurns cfg st 1) st)
                    = emit (pauseTurns cfg st (S (S n))) st).
    { rewrite emit_emit. unfold pauseTurns. cbn [repeat List.concat].
      by rewrite app_nil_r. }
    split; [intros rest|]; cbn [repeat app waitResume]; rewrite Hp, pauseTurn_eq.
    + by rewrite Hres, Hmore.
    + by rewrite Hblk, Hmore.
Qed.

Lemma waits_pauseTurns cfg st turns : waits (pauseTurns cfg st turns) = turns.
Proof.
  unfold pauseTurns. induction turns as [|m IH]; simpl; [reflexivity|].
  rewrite !waits_app, waits_statusLine, IH. reflexivity.
Qed.

Lemma processRequests_hibernate st : hibernate (processRequests st) = hibernate st.
Proof.
  rewrite processRequests_eq. destruct (graft st); [reflexivity|].
  unfold capture. by destruct (last _).
Qed.

(** X5.  The public controls.  [pause] is a switch: two calls leave the
    state as it was.  [waitResume] returns at once when the session is not
    paused; when it is, every turn of its loop writes the status line and
    waits 200 milliseconds, until the caller calls [pause] again, and a round
    that is never resumed makes no jump.  [toggleHibernation] only ever raises
    the flag; the next round of [getNext] that returns and whose drain leaves
    the session unfinished ends with the sleep of [sleepTime] and then the
    sleep of [hibernationTime] and clears the flag, and a round whose drain
    finishes the session returns without any sleep, the flag still raised.
    [forceStop], on an instance that has a page, closes the page and the
    browser and empties the interception buffers, and does not set
    [finished]; on an instance that never opened a page it throws a
    [TypeError] and closes and empties nothing. *)
Theorem public_controls (cfg : Config) (detailPage : JSval -> JSON) (st : State) :
  pause (pause st) = st /\
  toggleHibernation (toggleHibernation st) = toggleHibernation st /\
  hibernate (toggleHibernation st) = true /\
  (paused st = false -> forall resumes, waitResume cfg resumes st = Ok tt st) /\
  (paused st = true ->
   forall n,
     (forall rest,
        waitResume cfg (repeat false n ++ true :: rest) st
        = Ok tt (set_paused false (emit (pauseTurns cfg st (S n)) st))) /\
     waitResume cfg (repeat false n) st = Blocked (emit (pauseTurns cfg st (S n)) st) /\
     (forall gotos,
        stimulate cfg detailPage (repeat false n) gotos st
        = Blocked (emit (pauseTurns cfg st (S n)) st)) /\
     waits (pauseTurns cfg st (S n)) = S n) /\
  (forall a gotos r st',
     pollOnce cfg detailPage a gotos (toggleHibernation st) = Ok r st' ->
     hibernate (drained cfg detailPage a (toggleHibernation st)) = true /\
     if finished (drained cfg detailPage a (toggleHibernation st))
     then st' = drained cfg detailPage a (toggleHibernation st)
     else
       hibernate st' = false /\
       exists st3,
         events st'
         = events st3 ++ sleepEvents cfg (index st3) (sleepTime cfg)
             ++ sleepEvents cfg (index st3) (hibernationTime cfg)) /\
  (page st = true ->
   exists st',
     forceStop cfg detailPage st = Ok tt st' /\
     finished st' = finished st /\ requestBuffer st' = [] /\ responseBuffer st' = [] /\
     events st'
     = events st ++ statusLine cfg CLOSING (sleepRemaining st) (index st)
         ++ [EvPageClose; EvBrowserClose]) /\
  (page st = false ->
   exists st',
     forceStop cfg detailPage st = Throw TypeError st' /\
     finished st' = finished st /\ requestBuffer st' = requestBuffer st /\
     responseBuffer st' = responseBuffer st /\
     events st' = events st ++ statusLine cfg CLOSING (sleepRemaining st) (index st)).
Proof.
  split; [destruct st; unfold pause; simpl; by rewrite negb_involutive|].
  split; [reflexivity|]. split; [reflexivity|].
  split; [|split; [|split; [|split]]].
  - intros Hp resumes. destruct resumes; simpl; by rewrite Hp.
  - intros Hp n. destruct (waitResume_turns cfg n st Hp) as [Hres Hblk].
    split; [exact Hres|]. split; [exact Hblk|]. split.
    + intros gotos. unfold stimulate. by rewrite Hblk.
    + apply waits_pauseTurns.
  - intros a gotos r st' Hpoll.
    assert (Hh : hibernate (drained cfg detailPage a (toggleHibernation st)) = true).
    { unfold drained. rewrite awaitPagePromises_eq, progress_eq.
      cbn [hibernate set_pagePromises set_postBuffer emit set_events].
      revert Hpoll. unfold pollOnce.
      destruct (processResponses cfg _) as [[] st2|e st2|st2] eqn:Hdrain; cbn [bind];
        try discriminate.
      intros _. apply processResponses_hibernate in Hdrain.
      rewrite processRequests_hibernate, deliver_eq in Hdrain. exact Hdrain. }
    split; [exact Hh|].
    pose proof (pollOnce_round cfg detailPage a gotos _ r st' Hpoll) as Hr.
    destruct (finished _); [by destruct Hr|].
    destruct Hr as (Hclear & st3 & H3 & _ & Hev). split; [exact Hclear|].
    exists st3. rewrite Hev. unfold roundSleep. by rewrite H3, Hh.
  - intros Hpg. unfold forceStop. rewrite stop_eq, Hpg. eexists. split; [reflexivity|].
    rewrite awaitPagePromises_eq, progress_eq. repeat split.
    unfold close, emit. simpl. by rewrite <- app_assoc.
  - intros Hpg. unfold forceStop. rewrite stop_eq, Hpg. eexists. split; [reflexivity|].
    rewrite awaitPagePromises_eq, progress_eq. repeat split.
Qed.

(** A paused session that is resumed during the third wait; one second of
    sleep and three of hibernation in the round after [toggleHibernation];
    and [forceStop] on an instance that was never started. *)
Lemma public_controls_witness :
  waitResume (sampleConfig 0) [false; false; true] (pause startedState)
  = Ok tt (emit [EvWait 200; EvWait 200; EvWait 200] startedState)
  /\ (exists r st',
        pollOnce (sampleConfig 0) noDetail (poll []) [] (toggleHibernation startedState)
        = Ok r st'
        /\ hibernate st' = false /\ waits (events st') = 4%nat)
  /\ forceStop (sampleConfig 0) noDetail initialState = Throw TypeError initialState.
Proof.
  destruct (public_controls (sampleConfig 0) noDetail (pause startedState))
    as (_ & _ & _ & _ & Hwait & _).
  destruct (Hwait eq_refl 2%nat) as (Hres & _).
  split; [exact (Hres [])|]. split.
  - eexists _, _. split; [vm_compute; reflexivity|]. split; reflexivity.
  - reflexivity.
Defined.

(** ** Which URLs are API calls *)

Lemma prefix_append s t : String.prefix s (s ++ t)%string = true.
Proof.
  induction s as [|c s IH]; simpl; [by destruct t|].
  destruct (ascii_dec c c); [exact IH|contradiction].
Qed.

(** X6.  Which URLs count as API calls.  Every URL that continues the
    GraphQL query endpoint matches unless it contains [include_reel]; the
    pages the engine itself visits, the resource page of a hashtag, a
    location or a user and the page of a post, never match, whatever the
    identifier. *)
Theorem own_pages_never_match (ident suffix : string) (env : bool) (options : IOptions) :
  matchURL (catchURL ++ suffix)%string
  = negb (includes "include_reel" (catchURL ++ suffix)%string) /\
  matchURL (url (Hashtag ident env options)) = false /\
  matchURL (url (Location ident env options)) = false /\
  matchURL (url (User ident env options)) = false /\
  matchURL (postURL ++ ident)%string = false.
Proof.
  split; [unfold matchURL; by rewrite prefix_append|].
  repeat split; reflexivity.
Qed.

(** ** The navigation retry, for any number of failures *)

Lemma visit_waits cfg st : waits (events (visit cfg st)) = waits (events st).
Proof.
  unfold visit. rewrite !progress_eq. unfold emit.
  cbn [events set_events set_page sleepRemaining index].
  rewrite !waits_app, !waits_statusLine.
  change (waits [EvLaunch (browserArgs cfg) (headless cfg); EvNewPage]) with 0%nat.
  change (waits [EvGoto (url cfg)]) with 0%nat. lia.
Qed.

Lemma retry_waits cfg e st :
  waits (events (retry cfg e st)) = (waits (events st) + 60)%nat.
Proof.
  unfold retry. rewrite sleep_eq, progress_eq. unfold emit.
  cbn [events set_events set_sleepRemaining set_pageUrlAttempts sleepRemaining index].
  rewrite !waits_app, waits_sleepEvents, waits_statusLine, visit_waits.
  change (waits [EvLogError e]) with 0%nat.
  change (waits [EvPageClose; EvBrowserClose]) with 0%nat. lia.
Qed.

Lemma retries_fields cfg errs : forall st,
  pageUrlAttempts (retries cfg errs st) = pageUrlAttempts st + Z.of_nat (List.length errs) /\
  started (retries cfg errs st) = started st /\
  waits (events (retries cfg errs st)) = (waits (events st) + 60 * List.length errs)%nat.
Proof.
  unfold retries. induction errs as [|e errs IH]; intros st; simpl; [repeat split; lia|].
  destruct (IH (retry cfg e st)) as (Ha & Hs & Hw).
  destruct (retry_fields cfg e st) as [Ha1 Hs1].
  rewrite Ha, Hs, Hw, Ha1, Hs1, retry_waits. repeat split; lia.
Qed.

Lemma constructPage_retries cfg errs : forall tail st,
  started st = true \/ pageUrlAttempts st + Z.of_nat (List.length errs) <= 3 ->
  constructPage cfg (map Some errs ++ tail) st = constructPage cfg tail (retries cfg errs st).
Proof.
  induction errs as [|e errs IH]; intros tail st Hok; [reflexivity|].
  cbn [map app]. rewrite constructPage_failed.
  replace ((pageUrlAttempts st =? maxPageUrlAttempts) && negb (started st)) with false.
  - apply IH. destruct (retry_fields cfg e st) as [-> ->].
    destruct Hok as [Hs|Ha]; [by left|right]. simpl in Ha. lia.
  - symmetry. destruct Hok as [->|Ha]; [apply andb_false_r|].
    apply andb_false_iff. left. apply Z.eqb_neq. unfold maxPageUrlAttempts.
    simpl in Ha. lia.
Qed.

Lemma constructPage_ends cfg gotos : forall st,
  In None gotos -> forall st', constructPage cfg gotos st <> Blocked st'.
Proof.
  induction gotos as [|g gotos IH]; intros st Hin st'; [destruct Hin|].
  destruct g as [e|]; [|discriminate].
  rewrite constructPage_failed. destruct (_ && _); [discriminate|].
  apply IH. destruct Hin as [Hin|Hin]; [discriminate|exact Hin].
Qed.

(** X7.  The navigation retry for any number of failures.  As long as the
    engine has started, or the failures counted so far and the new ones are
    at most three, [constructPage] retries each failure and returns at the
    first page that loads, having waited 60 seconds per failure.  Before the
    first start the failure that finds the count at three is fatal, whatever
    would follow.  A script that holds a page that loads never leaves
    [constructPage] waiting. *)
Theorem navigation_budget (cfg : Config) (errs : list string) (st : State) :
  (started st = true \/ pageUrlAttempts st + Z.of_nat (List.length errs) <= 3 ->
   forall rest,
     constructPage cfg (map Some errs ++ None :: rest) st
     = Ok rest (visit cfg (retries cfg errs st)) /\
     pageUrlAttempts (visit cfg (retries cfg errs st))
     = pageUrlAttempts st + Z.of_nat (List.length errs) /\
     waits (events (visit cfg (retries cfg errs st)))
     = (waits (events st) + 60 * List.length errs)%nat) /\
  (started st = false -> pageUrlAttempts st + Z.of_nat (List.length errs) = 3 ->
   forall e tail,
     constructPage cfg (map Some errs ++ Some e :: tail) st
     = Throw FailedToVisitURL (set_pageUrlAttempts 4 (visit cfg (retries cfg errs st)))) /\
  (forall gotos st', In None gotos -> constructPage cfg gotos st <> Blocked st').
Proof.
  destruct (retries_fields cfg errs st) as (Ha & Hs & Hw).
  destruct (visit_fields cfg (retries cfg errs st)) as [Hva Hvs].
  split; [|split].
  - intros Hok rest. rewrite constructPage_retries by exact Hok.
    rewrite constructPage_loaded, Hva, visit_waits. done.
  - intros Hstart Hattempts e tail.
    rewrite constructPage_retries by (right; lia).
    rewrite constructPage_failed, Ha, Hs, Hstart, Hattempts. reflexivity.
  - intros gotos st' Hin. by apply constructPage_ends.
Qed.

(** Two failures, then a page that loads: two minutes of waiting. *)
Lemma navigation_budget_witness :
  exists st',
    constructPage (sampleConfig 0) [Some "timeout"; Some "reset"; None] initialState
    = Ok [] st'
    /\ pageUrlAttempts st' = 2 /\ waits (events st') = 120%nat.
Proof.
  destruct (navigation_budget (sampleConfig 0) ["timeout"; "reset"] initialState)
    as (Hretry & _).
  assert (Hfew : started initialState = true
                 \/ pageUrlAttempts initialState
                    + Z.of_nat (List.length ["timeout"; "reset"]) <= 3)
    by (right; simpl; lia).
  destruct (Hretry Hfew []) as (Hrun & Ha & Hw).
  eexists. split; [exact Hrun|]. split; [exact Ha|exact Hw].
Defined.

(** ** Sessions without a cap *)

Lemma Counted_ext cfg detailPage st st' :
  index st' = index st -> postIds st' = postIds st ->
  pagePromises st' = pagePromises st -> postBuffer st' = postBuffer st ->
  yielded st' = yielded st ->
  Counted cfg detailPage st -> Counted cfg detailPage st'.
Proof. unfold Counted, Truthy, pendingRecords. intros -> -> -> -> ->. done. Qed.

Lemma Counted_of cfg detailPage st (i : Z) (ids : gset IdKey) :
  index st = i -> postIds st = ids ->
  i = Z.of_nat (size ids) ->
  (truthyRecords cfg detailPage ->
     Truthy detailPage st /\
     Z.of_nat (List.length (yielded st ++ postBuffer st ++ pendingRecords detailPage st)) = i) ->
  Counted cfg detailPage st.
Proof. intros <- <-. unfold Counted. done. Qed.

Lemma Counted_posts cfg detailPage posts : total cfg = 0 -> forall st,
  Counted cfg detailPage st -> Counted cfg detailPage (finalState (processPosts cfg posts st)).
Proof.
  intros Htotal. induction posts as [|post rest IH]; intros st HC; simpl; [exact HC|].
  destruct (postIdOf post) as [e|postId] eqn:Hid; simpl; [exact HC|].
  unfold PostIdSet.has. set (k := keyOf (postIds st) postId). case_bool_decide as Hmem.
  - apply IH. eapply Counted_ext; [..|exact HC]; try reflexivity.
    simpl. by apply add_known.
  - destruct HC as (Hidx & Hcount).
    pose proof (size_add_fresh k (postIds st) Hmem) as Hsize.
    rewrite Htotal. change (0 =? 0) with true. rewrite orb_true_r.
    destruct (fullAPI cfg) eqn:Hfull; apply IH;
      apply (Counted_of _ _ _ (index st + 1) ({[k]} ∪ postIds st));
      try reflexivity; rewrite ?Hsize; try lia; intros Hrec;
      destruct (Hcount Hrec) as (Htruthy & Hlen);
      unfold Truthy, pendingRecords in *; simpl.
    + destruct Hrec as [?|Hrec]; [congruence|].
      rewrite pending_snoc, !app_assoc. split.
      * apply Forall_app. split; [exact Htruthy|]. constructor; [apply Hrec|constructor].
      * rewrite <- !app_assoc, !length_app in *. simpl. lia.
    + split.
      * rewrite <- app_assoc. simpl.
        apply Forall_app in Htruthy as [HT1 HT2]. apply Forall_app. split; [exact HT1|].
        constructor; [by eapply postIdOf_truthy|exact HT2].
      * rewrite !length_app in *. simpl. lia.
Qed.

Lemma Counted_generator cfg detailPage arrivals gotos :
  total cfg = 0 ->
  Counted cfg detailPage (finalState (generator cfg detailPage arrivals gotos initialState)).
Proof.
  intros Htotal. apply generator_inv.
  - unfold neutral. intros st st' H. destruct_and!. by apply Counted_ext.
  - intros b st. by apply Counted_ext.
  - intros st. by apply Counted_ext.
  - intros st _. by apply Counted_ext.
  - intros st. by apply Counted_ext.
  - intros posts st. by apply Counted_posts.
  - intros st (Hidx & Hcount). rewrite awaitPagePromises_eq.
    apply (Counted_of _ _ _ (index st) (postIds st)); try reflexivity; try done.
    intros Hrec. destruct (Hcount Hrec) as (Htruthy & Hlen).
    unfold Truthy. rewrite pendingRecords_settled. simpl. by rewrite !app_nil_r.
  - intros st (Hidx & Hcount). rewrite awaitPagePromises_eq.
    apply (Counted_of _ _ _ (index st) (postIds st)); try reflexivity; try done.
    intros Hrec. destruct (Hcount Hrec) as (Htruthy & Hlen).
    unfold Truthy, pendingRecords. simpl. by rewrite !app_nil_r.
  - intros st (Hidx & Hcount). rewrite drain_eq.
    apply (Counted_of _ _ _ (index st) (postIds st)); try reflexivity; try done.
    intros Hrec. destruct (Hcount Hrec) as (Htruthy & Hlen).
    unfold Truthy, pendingRecords in *. simpl.
    pose proof Htruthy as Hb. apply Forall_app in Hb as [Hb Hp].
    destruct (truthyPrefix_all _ Hb) as [-> ->]. simpl.
    split; [exact Hp|]. by rewrite <- app_assoc.
  - intros st. rewrite processRequests_eq. apply Counted_ext;
      destruct (graft st); try reflexivity; unfold capture; destruct (last _); reflexivity.
  - apply (Counted_of _ _ _ 0 ∅); try reflexivity.
    intros _. split; [constructor|reflexivity].
Qed.

Lemma processPosts_uncapped cfg posts : total cfg = 0 -> forall st,
  finished (finalState (processPosts cfg posts st)) = finished st.
Proof.
  intros Htotal. induction posts as [|post rest IH]; intros st; simpl; [reflexivity|].
  destruct (postIdOf post) as [e|postId]; simpl; [reflexivity|].
  rewrite Htotal. change (0 =? 0) with true. rewrite orb_true_r.
  repeat match goal with |- context [if ?c then _ else _] => destruct c end;
    by rewrite IH.
Qed.

(** X8.  Sessions without a cap ([total] zero).  The loop over the posts of
    a response never sets [finished] and never stops early, so every id seen
    is counted: the count is the size of the id set.  When the records are
    truthy there are as many records yielded, queued or awaited as ids, and
    when the generator ends every id seen has had its record yielded. *)
Theorem unlimited_mode (cfg : Config) (detailPage : JSval -> JSON)
    (arrivals : list Arrival) (gotos : list (option string)) :
  total cfg = 0 ->
  let st' := finalState (generator cfg detailPage arrivals gotos initialState) in
  index st' = Z.of_nat (size (postIds st')) /\
  (forall posts st, finished (finalState (processPosts cfg posts st)) = finished st) /\
  (truthyRecords cfg detailPage ->
   List.length (yielded st' ++ postBuffer st' ++ pendingRecords detailPage st')
   = size (postIds st') /\
   (generator cfg detailPage arrivals gotos initialState = Ok tt st' ->
    List.length (yielded st') = size (postIds st'))).
Proof.
  intros Htotal st'.
  destruct (Counted_generator cfg detailPage arrivals gotos Htotal) as (Hidx & Hcount).
  fold st' in Hidx, Hcount.
  split; [exact Hidx|]. split; [intros posts st; by apply processPosts_uncapped|].
  intros Hrec. destruct (Hcount Hrec) as (_ & Hlen). split; [lia|].
  intros Hgen.
  destruct (generator_ends cfg detailPage [] Hrec arrivals gotos initialState st')
    as (_ & Hb & Hp & _); [|exact Hgen|].
  - split; [constructor|by exists []].
  - rewrite Hb, Hp, !app_nil_r in Hlen. lia.
Qed.

(** Two pages and three different ids without a cap: three posts. *)
Lemma unlimited_mode_witness :
  index (finalState
           (generator (sampleConfig 0) noDetail
              [poll [sampleResponse true ["a"; "b"]];
               poll [sampleResponse false ["b"; "c"]]] [None] initialState)) = 3
  /\ List.length
       (yielded (finalState
          (generator (sampleConfig 0) noDetail
             [poll [sampleResponse true ["a"; "b"]];
              poll [sampleResponse false ["b"; "c"]]] [None] initialState))) = 3%nat.
Proof.
  destruct (unlimited_mode (sampleConfig 0) noDetail
              [poll [sampleResponse true ["a"; "b"]];
               poll [sampleResponse false ["b"; "c"]]] [None] eq_refl) as (Hidx & _).
  split; [rewrite Hidx|]; vm_compute; reflexivity.
Defined.

(** ** Browsers and pages opened and closed *)

Section Lifecycle.

Context (cfg : Config) (detailPage : JSval -> JSON) (w : Event -> Z) (up : Z).
Hypothesis w_open : w (EvLaunch (browserArgs cfg) (headless cfg)) + w EvNewPage = up.
Hypothesis w_close : w EvPageClose + w EvBrowserClose = - up.
Hypothesis w_goto : w (EvGoto (url cfg)) = 0.
Hypothesis w_quiet : forall e, isLifecycle e = false -> w e = 0.

Local Abbreviation T := (fun st : State => tally w (events st)).

Lemma tally_app evs1 evs2 : tally w (evs1 ++ evs2) = tally w evs1 + tally w evs2.
Proof. induction evs1 as [|e evs1 IH]; simpl; [done|]. rewrite IH. lia. Qed.

Lemma tally_quiet evs :
  Forall (fun e => isLifecycle e = false) evs -> tally w evs = 0.
Proof.
  induction 1 as [|e evs He _ IH]; simpl; [done|]. rewrite IH, (w_quiet e He). lia.
Qed.

Lemma tally_statusLine p r i : tally w (statusLine cfg p r i) = 0.
Proof. unfold statusLine. destruct (silent cfg); apply tally_quiet; repeat constructor. Qed.

Lemma tally_countdown scraped rounds : forall i, tally w (countdown cfg scraped rounds i) = 0.
Proof.
  induction rounds as [|n IH]; intros i; simpl; [done|].
  rewrite tally_app, tally_statusLine. simpl. rewrite IH, (w_quiet (EvWait 1000)) by done. lia.
Qed.

Lemma tally_sleepEvents scraped time : tally w (sleepEvents cfg scraped time) = 0.
Proof. unfold sleepEvents. rewrite tally_app, tally_countdown, tally_statusLine. lia. Qed.

Lemma T_emit evs st : T (emit evs st) = T st + tally w evs.
Proof. unfold emit. simpl. apply tally_app. Qed.

Lemma T_progress p st : T (progress cfg p st) = T st.
Proof. rewrite progress_eq, T_emit, tally_statusLine. lia. Qed.

Lemma T_sleep time st : T (sleep cfg time st) = T st.
Proof. rewrite sleep_eq. simpl. rewrite tally_app, tally_sleepEvents. lia. Qed.

Lemma T_visit st : T (visit cfg st) = T st + up.
Proof.
  unfold visit. rewrite T_emit, T_progress.
  change (events (set_page true ?s)) with (events s).
  rewrite T_emit, T_progress. simpl. rewrite w_goto. lia.
Qed.

Lemma T_retry e st : T (retry cfg e st) = T st.
Proof.
  unfold retry. rewrite T_emit, T_sleep, T_progress, T_emit.
  change (events (set_pageUrlAttempts ?a ?s)) with (events s). rewrite T_visit. simpl.
  rewrite (w_quiet (EvLogError e)) by done. lia.
Qed.

Lemma T_constructPage gotos : forall st,
  T (finalState (constructPage cfg gotos st)) = T st + up.
Proof.
  induction gotos as [|g gotos IH]; intros st; [apply T_visit|].
  destruct g as [e|]; [|rewrite constructPage_loaded; apply T_visit].
  rewrite constructPage_failed. destruct (_ && _); [apply T_visit|].
  rewrite IH, T_retry. reflexivity.
Qed.

Lemma T_start gotos st : T (finalState (start cfg gotos st)) = T st + up.
Proof.
  unfold start. pose proof (T_constructPage gotos st) as H.
  destruct (constructPage cfg gotos st) as [rest st1|e st1|st1]; simpl in *; try exact H.
  rewrite tally_app. simpl. rewrite (w_quiet EvListen) by done. lia.
Qed.

Lemma T_stop st :
  T (finalState (stop cfg detailPage st))
  = if returned (stop cfg detailPage st) then T st - up else T st.
Proof.
  rewrite stop_eq. destruct (page st); cbn [finalState returned];
    rewrite awaitPagePromises_eq, progress_eq; unfold close, emit; simpl;
    rewrite !tally_app, tally_statusLine; simpl; lia.
Qed.

Lemma T_initiateGraft gotos st :
  T (finalState (initiateGraft cfg detailPage gotos st)) = T st.
Proof.
  unfold initiateGraft. destruct (negb (enableGrafting cfg)); [reflexivity|].
  pose proof (T_stop (progress cfg GRAFTING st)) as H1. cbv beta in H1.
  rewrite T_progress in H1.
  destruct (stop cfg detailPage (progress cfg GRAFTING st)) as [[] st1|e st1|st1];
    cbn [bind finalState returned] in *; try exact H1.
  rewrite T_start. change (events (set_graft true ?s)) with (events s).
  cbv beta in *. rewrite H1. lia.
Qed.

Lemma T_processRequests st : T (processRequests st) = T st.
Proof.
  rewrite processRequests_eq.
  assert (Hmap : forall (f : Request -> Event) l,
            (forall r, isLifecycle (f r) = false) -> tally w (map f l) = 0).
  { intros f l Hf. apply tally_quiet. induction l; simpl; constructor; auto. }
  destruct (graft st); simpl; rewrite tally_app, Hmap by done.
  - lia.
  - unfold capture. destruct (last _); simpl; lia.
Qed.

Lemma T_processPosts posts : forall st, T (finalState (processPosts cfg posts st)) = T st.
Proof.
  induction posts as [|post rest IH]; intros st; simpl; [reflexivity|].
  destruct (postIdOf post) as [e|postId]; simpl; [reflexivity|].
  repeat match goal with |- context [if ?c then _ else _] => destruct c end;
    rewrite ?IH; simpl; rewrite ?tally_app; simpl;
    rewrite ?(w_quiet (EvLogInfo _)) by done; lia.
Qed.

Lemma T_processResponse res dg st : T (finalState (processResponse cfg res dg st)) = T st.
Proof.
  unfold processResponse. destruct (negb _); [reflexivity|].
  match goal with |- context [let (_, _) := ?b in _] => set (body := b) end.
  assert (H1 : T body.2 = T st).
  { subst body. destruct (res_body res) as [d|err]; simpl; [reflexivity|].
    rewrite tally_app. simpl. rewrite !(w_quiet (EvLogError _)) by done. lia. }
  destruct body as [data st1]. simpl in H1.
  destruct (rateLimited data) as [e|[|]]; simpl; [exact H1| |].
  - rewrite tally_app. simpl. rewrite (w_quiet (EvLogInfo _)) by done. lia.
  - set (st2 := if negb (hasNextPage cfg data)
                then set_finished true (emit [EvLogInfo "No posts remaining"] st1)
                else st1).
    assert (H2 : T st2 = T st).
    { subst st2. destruct (negb _); [|exact H1]. simpl. rewrite tally_app. simpl.
      rewrite (w_quiet (EvLogInfo _)) by done. lia. }
    destruct (iterate _) as [posts|]; simpl; [|exact H2].
    rewrite finalState_then, T_processPosts. exact H2.
Qed.

Lemma T_processResponseList rs : forall dg st,
  T (finalState (processResponseList cfg rs dg st)) = T st.
Proof.
  induction rs as [|res rs IH]; intros dg st; simpl; [reflexivity|].
  pose proof (T_processResponse res dg st) as H.
  destruct (processResponse cfg res dg st) as [dg' st'|e st'|st']; simpl in *; try exact H.
  rewrite IH. exact H.
Qed.

Lemma T_processResponses st : T (finalState (processResponses cfg st)) = T st.
Proof.
  unfold processResponses. pose proof (T_processResponseList (responseBuffer st) false st) as H.
  destruct (processResponseList cfg _ false st) as [dg st'|e st'|st']; simpl in *;
    try exact H.
  destruct (_ && _); exact H.
Qed.

Lemma tally_pauseTurns st turns : tally w (pauseTurns cfg st turns) = 0.
Proof.
  unfold pauseTurns. induction turns as [|m IH]; simpl; [reflexivity|].
  rewrite !tally_app, tally_statusLine, IH. simpl.
  rewrite (w_quiet (EvWait 200)) by done. lia.
Qed.

Lemma T_waitResume resumes st : T (finalState (waitResume cfg resumes st)) = T st.
Proof.
  destruct (waitResume_eq cfg resumes st) as (turns & p & ->).
  change (events (set_paused p ?s)) with (events s).
  rewrite T_emit, tally_pauseTurns. lia.
Qed.

Lemma T_jump st : T (finalState (jump st)) = T st.
Proof.
  rewrite jump_eq. destruct (page st); [|reflexivity]. simpl. rewrite tally_app. simpl.
  rewrite !(w_quiet (EvKey _)), (w_quiet EvMouseMove) by done. lia.
Qed.

Lemma T_stimulate resumes gotos st :
  T (finalState (stimulate cfg detailPage resumes gotos st)) = T st.
Proof.
  unfold stimulate. pose proof (T_waitResume resumes st) as H1.
  destruct (waitResume cfg resumes st) as [[] st1|e st1|st1];
    cbn [bind finalState] in *; try exact H1.
  pose proof (T_jump st1) as H2.
  destruct (jump st1) as [[] st2|e st2|st2]; cbn [bind finalState] in *;
    try (cbv beta in *; lia).
  match goal with |- context [bind ?g0 _] => set (g := g0) end.
  assert (Hg : T (finalState g) = T st).
  { subst g. destruct (_ =? _); [rewrite T_initiateGraft|cbn [finalState]];
      cbv beta in *; lia. }
  destruct g as [gotos' st3|e st3|st3]; simpl in Hg |- *; try exact Hg.
  destruct (hibernate _); simpl; rewrite ?T_sleep; exact Hg.
Qed.

Lemma T_pollOnce a gotos st : T (finalState (pollOnce cfg detailPage a gotos st)) = T st.
Proof.
  unfold pollOnce.
  assert (H1 : T (processRequests (deliver a st)) = T st)
    by (rewrite T_processRequests, deliver_eq; reflexivity).
  pose proof (T_processResponses (processRequests (deliver a st))) as H2.
  destruct (processResponses cfg _) as [[] st2|e st2|st2]; simpl in *; try lia.
  assert (H4 : T (set_pagePromises [] (awaitPagePromises detailPage (progress cfg BRANCHING st2)))
               = T st).
  { rewrite awaitPagePromises_eq.
    transitivity (T (progress cfg BRANCHING st2)); [reflexivity|].
    rewrite T_progress. lia. }
  match goal with |- context [if ?c then _ else _] => destruct c end; [exact H4|].
  rewrite T_stimulate. exact H4.
Qed.

Lemma T_finish st :
  T (finalState (finish cfg detailPage st))
  = if returned (finish cfg detailPage st) then T st - up else T st.
Proof.
  unfold finish. pose proof (T_stop st) as H1.
  destruct (stop cfg detailPage st) as [[] st1|e st1|st1];
    cbn [bind finalState returned] in *; try exact H1.
  destruct (silent cfg); [exact H1|].
  rewrite T_emit. simpl. rewrite (w_quiet EvNewline) by done. cbv beta in *. lia.
Qed.

Lemma T_pump arrivals : forall gotos st,
  T (finalState (pump cfg detailPage arrivals gotos st))
  = if returned (pump cfg detailPage arrivals gotos st) then T st - up else T st.
Proof.
  induction arrivals as [|a rest IH]; intros gotos st; [reflexivity|].
  pose proof (T_pollOnce a gotos st) as H1.
  cbn [pump]. destruct (pollOnce cfg detailPage a gotos st) as [r st1|e st1|st1];
    cbn [bind finalState returned] in *; try exact H1.
  assert (Hd : T (drain st1) = T st) by (rewrite drain_eq; exact H1).
  destruct (fst r); [|rewrite IH, H1; reflexivity].
  destruct (finished (drain st1)); cbn [finalState returned].
  - rewrite T_finish. cbv beta in *. rewrite Hd. reflexivity.
  - rewrite IH, T_progress, Hd. reflexivity.
Qed.

Lemma T_generator arrivals gotos st :
  started st = false ->
  T (finalState (generator cfg detailPage arrivals gotos st))
  = if returned (generator cfg detailPage arrivals gotos st) then T st else T st + up.
Proof.
  intros Hs. unfold generator. rewrite Hs.
  pose proof (T_start gotos st) as H1.
  destruct (start cfg gotos st) as [gotos1 st1|e st1|st1]; simpl in *; try exact H1.
  rewrite T_pump, T_progress, H1. destruct (returned _); lia.
Qed.

End Lifecycle.

(** X9.  The browser and the page of a session.  When the generator
    returns, every browser it launched and every page it opened on it has
    been closed.  When it does not return, because it threw or because it is
    still waiting for input, exactly one browser and one page are open: an
    exception, be it the fatal navigation error or a [TypeError] from a
    payload, leaves the browser running. *)
Theorem browser_lifecycle (cfg : Config) (detailPage : JSval -> JSON)
    (arrivals : list Arrival) (gotos : list (option string)) :
  openBrowsers (events (finalState (generator cfg detailPage arrivals gotos initialState)))
  = (if returned (generator cfg detailPage arrivals gotos initialState) then 0 else 1) /\
  openPages (events (finalState (generator cfg detailPage arrivals gotos initialState)))
  = (if returned (generator cfg detailPage arrivals gotos initialState) then 0 else 1).
Proof.
  split.
  - rewrite (T_generator cfg detailPage browserDelta 1); try done.
    intros e He. by destruct e.
  - rewrite (T_generator cfg detailPage pageDelta 1); try done.
    intros e He. by destruct e.
Qed.

(** ** The order of the posts *)

Section Order.

Context (cfg : Config) (detailPage : JSval -> JSON).
Hypothesis default_mode : fullAPI cfg = false.

Lemma Ordered_more seen more st : Ordered seen st -> Ordered (seen ++ more) st.
Proof. intros [Hp Hs]. split; [exact Hp|]. by apply sublist_inserts_r. Qed.

Lemma Ordered_ext seen st st' :
  pagePromises st' = pagePromises st -> yielded st' = yielded st ->
  postBuffer st' = postBuffer st -> Ordered seen st -> Ordered seen st'.
Proof. unfold Ordered. intros -> -> ->. done. Qed.

Lemma Ordered_neutral seen st st' : neutral st st' -> Ordered seen st -> Ordered seen st'.
Proof. unfold neutral. intros Hn. destruct_and!. by apply Ordered_ext. Qed.

Lemma Ordered_await seen st : Ordered seen st -> Ordered seen (awaitPagePromises detailPage st).
Proof.
  intros [Hp Hs]. rewrite awaitPagePromises_eq. unfold Ordered, pendingRecords.
  rewrite Hp. simpl. by rewrite app_nil_r.
Qed.

Lemma Ordered_drain seen st : Ordered seen st -> Ordered seen (drain st).
Proof.
  intros [Hp Hs]. rewrite drain_eq. split; [exact Hp|]. simpl.
  etrans; [|exact Hs]. rewrite <- app_assoc. apply sublist_app; [done|].
  generalize (postBuffer st). intros buffer.
  induction buffer as [|post rest IH]; simpl; [done|].
  destruct (truthy post); [by apply sublist_skip|by apply sublist_cons].
Qed.

Lemma Ordered_posts posts : forall seen st,
  Ordered seen st -> Ordered (seen ++ posts) (finalState (processPosts cfg posts st)).
Proof.
  induction posts as [|post rest IH]; intros seen st H; simpl; [by rewrite app_nil_r|].
  destruct (postIdOf post) as [e|postId]; simpl; [by apply Ordered_more|].
  assert (Hstep : forall s, Ordered (seen ++ [post]) s ->
            Ordered (seen ++ post :: rest) (finalState (processPosts cfg rest s))).
  { intros s Hs. replace (seen ++ post :: rest) with ((seen ++ [post]) ++ rest)
      by (by rewrite <- app_assoc). by apply IH. }
  rewrite default_mode. destruct H as [Hp Hs].
  repeat match goal with |- context [if ?c then _ else _] => destruct c end.
  - apply Hstep. split; [exact Hp|]. simpl. by apply sublist_inserts_r.
  - apply Hstep. split; [exact Hp|]. simpl. rewrite app_assoc. by apply sublist_app.
  - simpl. split; [exact Hp|]. simpl. by apply sublist_inserts_r.
Qed.

Lemma Ordered_processResponse seen res dg st :
  Ordered seen st ->
  Ordered (seen ++ postsOf cfg res) (finalState (processResponse cfg res dg st)).
Proof.
  intros H. unfold processResponse, postsOf.
  destruct (matchURL (res_url res)); simpl; [|by rewrite app_nil_r].
  match goal with |- context [let (_, _) := ?b in _] => set (body := b) end.
  match goal with |- context [lodash_get ?d0 _ _] => set (data0 := d0) end.
  assert (H1 : body.1 = data0 /\ Ordered seen body.2).
  { subst body data0. destruct (res_body res) as [d|err]; simpl; [done|].
    split; [done|]. revert H. apply Ordered_neutral, emit_neutral. }
  destruct body as [data st1]. simpl in H1. destruct H1 as [-> H1].
  destruct (rateLimited data0) as [e|[|]]; simpl; [by apply Ordered_more| |].
  - apply Ordered_more. revert H1. apply Ordered_ext; reflexivity.
  - set (st2 := if negb (hasNextPage cfg data0)
                then set_finished true (emit [EvLogInfo "No posts remaining"] st1)
                else st1).
    assert (H2 : Ordered seen st2).
    { subst st2. destruct (negb _); [|exact H1]. revert H1. apply Ordered_ext; reflexivity. }
    destruct (iterate _) as [posts|]; simpl; [|by rewrite app_nil_r].
    rewrite finalState_then. by apply Ordered_posts.
Qed.

Lemma Ordered_processResponseList rs : forall seen dg st,
  Ordered seen st ->
  Ordered (seen ++ List.concat (map (postsOf cfg) rs))
    (finalState (processResponseList cfg rs dg st)).
Proof.
  induction rs as [|res rs IH]; intros seen dg st H; simpl; [by rewrite app_nil_r|].
  pose proof (Ordered_processResponse seen res dg st H) as H1. rewrite app_assoc.
  destruct (processResponse cfg res dg st) as [dg' st'|e st'|st']; simpl in *;
    [by apply IH|by apply Ordered_more..].
Qed.

Lemma Ordered_processResponses seen st :
  Ordered seen st ->
  Ordered (seen ++ List.concat (map (postsOf cfg) (responseBuffer st)))
    (finalState (processResponses cfg st)) /\
  forall st', processResponses cfg st = Ok tt st' -> responseBuffer st' = [].
Proof.
  intros H. unfold processResponses.
  pose proof (Ordered_processResponseList (responseBuffer st) seen false st H) as H1.
  destruct (processResponseList cfg _ false st) as [dg st1|e st1|st1]; simpl in *;
    [|done..].
  split; [|by intros st' [= <-]].
  destruct (_ && _); revert H1; apply Ordered_ext; reflexivity.
Qed.

Lemma constructPage_responseBuffer gotos : forall st,
  responseBuffer (finalState (constructPage cfg gotos st)) = responseBuffer st.
Proof.
  induction gotos as [|g gotos IH]; intros st.
  - simpl. rewrite !progress_eq. reflexivity.
  - destruct g as [e|].
    + rewrite constructPage_failed. destruct (_ && _).
      * unfold visit. rewrite !progress_eq. reflexivity.
      * rewrite IH. unfold retry, visit. rewrite sleep_eq, !progress_eq. reflexivity.
    + rewrite constructPage_loaded. unfold visit. rewrite !progress_eq. reflexivity.
Qed.

Lemma start_responseBuffer gotos st :
  responseBuffer (finalState (start cfg gotos st)) = responseBuffer st.
Proof.
  unfold start. pose proof (constructPage_responseBuffer gotos st) as H.
  by destruct (constructPage cfg gotos st).
Qed.

Lemma initiateGraft_responseBuffer gotos st :
  responseBuffer st = [] ->
  responseBuffer (finalState (initiateGraft cfg detailPage gotos st)) = [].
Proof.
  intros H. unfold initiateGraft. destruct (negb _); [exact H|].
  rewrite stop_eq, !progress_eq. cbn [page emit set_events].
  destruct (page st); cbn [bind finalState];
    [by rewrite start_responseBuffer|by rewrite awaitPagePromises_eq].
Qed.

Lemma stimulate_responseBuffer resumes gotos st :
  responseBuffer st = [] ->
  responseBuffer (finalState (stimulate cfg detailPage resumes gotos st)) = [].
Proof.
  intros H. unfold stimulate.
  destruct (waitResume_eq cfg resumes st) as (turns & p & Hw).
  destruct (waitResume cfg resumes st) as [[] st1|e st1|st1]; cbn [bind finalState] in *;
    subst st1; try exact H.
  rewrite jump_eq. cbn [page set_paused emit set_events].
  destruct (page st); cbn [bind finalState]; [|exact H].
  match goal with |- context [bind ?g0 _] => set (g := g0) end.
  assert (Hg : responseBuffer (finalState g) = []).
  { subst g. destruct (_ =? _); [|exact H]. by apply initiateGraft_responseBuffer. }
  destruct g as [gotos' st3|e st3|st3]; simpl in Hg |- *; try exact Hg.
  destruct (hibernate _); simpl; rewrite ?sleep_eq; exact Hg.
Qed.

Lemma Ordered_stimulate seen resumes gotos st :
  Ordered seen st -> Ordered seen (finalState (stimulate cfg detailPage resumes gotos st)).
Proof.
  apply (stimulate_inv cfg detailPage (Ordered seen)).
  - apply Ordered_neutral.
  - intros b s. apply Ordered_ext; reflexivity.
  - intros s _. apply Ordered_ext; reflexivity.
  - apply Ordered_await.
Qed.

Lemma Ordered_pollOnce seen a gotos st :
  responseBuffer st = [] -> Ordered seen st ->
  Ordered (seen ++ List.concat (map (postsOf cfg) (arr_responses a)))
    (finalState (pollOnce cfg detailPage a gotos st)) /\
  forall r st', pollOnce cfg detailPage a gotos st = Ok r st' -> responseBuffer st' = [].
Proof.
  intros Hb H. unfold pollOnce.
  assert (H1 : Ordered seen (processRequests (deliver a st))).
  { revert H. rewrite processRequests_eq, deliver_eq.
    apply Ordered_ext; (destruct (graft _); [reflexivity|]);
      unfold capture; by destruct (last _). }
  assert (Hrs : responseBuffer (processRequests (deliver a st)) = arr_responses a).
  { rewrite processRequests_eq, deliver_eq.
    transitivity (responseBuffer st ++ arr_responses a); [|by rewrite Hb].
    simpl. destruct (graft st); [reflexivity|]. unfold capture. by destruct (last _). }
  destruct (Ordered_processResponses seen _ H1) as [H2 Hclear]. rewrite Hrs in H2.
  destruct (processResponses cfg _) as [[] st2|e st2|st2]; simpl in H2 |- *;
    [|done..].
  specialize (Hclear st2 eq_refl).
  set (st4 := set_pagePromises [] (awaitPagePromises detailPage (progress cfg BRANCHING st2))).
  assert (H4 : Ordered (seen ++ List.concat (map (postsOf cfg) (arr_responses a))) st4).
  { subst st4. pose proof (Ordered_await _ _ (Ordered_neutral _ _ _
      (progress_neutral cfg BRANCHING st2) H2)) as H3.
    destruct H3 as [Hp Hs]. split; [reflexivity|exact Hs]. }
  assert (Hb4 : responseBuffer st4 = []).
  { subst st4. rewrite awaitPagePromises_eq, progress_eq. exact Hclear. }
  match goal with |- context [if ?c then _ else _] => destruct c end.
  - split; [exact H4|]. intros r st' [= _ <-]. exact Hb4.
  - split; [exact (Ordered_stimulate _ (arr_resumes a) gotos st4 H4)|].
    intros r st' Hr.
    pose proof (stimulate_responseBuffer (arr_resumes a) gotos st4 Hb4) as H5.
    change (stimulate cfg detailPage (arr_resumes a) gotos st4 = Ok r st') in Hr.
    by rewrite Hr in H5.
Qed.

Lemma Ordered_finish seen st :
  Ordered seen st -> Ordered seen (finalState (finish cfg detailPage st)).
Proof.
  apply (finish_inv cfg detailPage (Ordered seen)).
  - apply Ordered_neutral.
  - apply Ordered_await.
Qed.

Lemma Ordered_pump arrivals : forall seen gotos st,
  responseBuffer st = [] -> Ordered seen st ->
  Ordered (seen ++ supplied cfg arrivals)
    (finalState (pump cfg detailPage arrivals gotos st)).
Proof.
  induction arrivals as [|a rest IH]; intros seen gotos st Hb H;
    [by apply Ordered_more|].
  unfold supplied. cbn [map List.concat]. fold (supplied cfg rest). rewrite app_assoc.
  destruct (Ordered_pollOnce seen a gotos st Hb H) as [H1 Hclear].
  cbn [pump]. destruct (pollOnce cfg detailPage a gotos st) as [r st1|e st1|st1];
    cbn [bind finalState] in *; [|by apply Ordered_more..].
  specialize (Hclear r st1 eq_refl).
  destruct (fst r); [|by apply IH].
  assert (Hd : responseBuffer (drain st1) = []) by (by rewrite drain_eq).
  destruct (finished (drain st1)); cbn [finalState].
  - by apply Ordered_more, Ordered_finish, Ordered_drain.
  - apply IH; [by rewrite progress_eq|].
    eapply Ordered_neutral; [apply progress_neutral|]. by apply Ordered_drain.
Qed.

Lemma Ordered_generator arrivals gotos :
  Ordered (supplied cfg arrivals)
    (finalState (generator cfg detailPage arrivals gotos initialState)).
Proof.
  unfold generator. change (started initialState) with false. cbv iota.
  pose proof (start_neutral cfg gotos initialState) as Hn.
  pose proof (start_responseBuffer gotos initialState) as Hb.
  assert (H0 : Ordered [] initialState) by (split; [reflexivity|constructor]).
  apply (Ordered_neutral _ _ _ Hn) in H0.
  destruct (start cfg gotos initialState) as [gotos1 st1|e st1|st1];
    cbn [bind finalState] in *; [|by apply (Ordered_more [])..].
  apply (Ordered_pump arrivals [] gotos1).
  - rewrite progress_eq. exact Hb.
  - eapply Ordered_neutral; [apply progress_neutral|exact H0].
Qed.

End Order.

(** X10.  The order of the posts in the default mode.  Without the full API
    the posts a session yields are a subsequence of the posts of the edge
    lists of the matching responses, in the order in which the responses
    arrived and in the order of each list: posts are dropped (duplicates,
    posts beyond the cap, posts of a rate-limited answer) but never
    reordered, repeated from nowhere or invented, whatever the outcome of the
    run. *)
Theorem arrival_order (cfg : Config) (detailPage : JSval -> JSON)
    (arrivals : list Arrival) (gotos : list (option string)) :
  fullAPI cfg = false ->
  sublist (yielded (finalState (generator cfg detailPage arrivals gotos initialState)))
    (supplied cfg arrivals).
Proof.
  intros Hmode.
  destruct (Ordered_generator cfg detailPage Hmode arrivals gotos) as [_ Hs].
  etrans; [|exact Hs]. by apply sublist_inserts_r.
Qed.

(** Two pages that share a post: the three posts come out in the order of
    arrival. *)
Lemma arrival_order_witness :
  sublist
    (yielded (finalState
       (generator (sampleConfig 0) noDetail
          [poll [sampleResponse true ["a"; "b"]];
           poll [sampleResponse false ["b"; "c"]]] [None] initialState)))
    (supplied (sampleConfig 0)
       [poll [sampleResponse true ["a"; "b"]];
        poll [sampleResponse false ["b"; "c"]]]).
Proof.
  apply (arrival_order (sampleConfig 0) noDetail). reflexivity.
Defined.

(** ** A falsy record in the buffer *)

Lemma truthyPrefix_cut good bad behind :
  Forall (fun post => truthy post = true) good -> truthy bad = false ->
  truthyPrefix (good ++ bad :: behind) = good /\
  afterFalsy (good ++ bad :: behind) = behind.
Proof.
  intros Hg Hb. induction Hg as [|post good Hp _ [IH1 IH2]]; simpl.
  - by rewrite Hb.
  - by rewrite Hp, IH1, IH2.
Qed.

(** X11.  The yield loop of the generator stops at the first falsy record
    it pops, as the full API can queue when a detail page holds [null]: the
    records before it are yielded, the falsy record is dropped, and the
    records behind it stay in the buffer.  When [getNext] had returned with
    the session finished, the generator then ends, and the records behind the
    falsy one are never yielded: it returns when the instance has a page,
    and ends by the [TypeError] of [stop] when it has none. *)
Theorem falsy_record_cuts_yield (cfg : Config) (detailPage : JSval -> JSON)
    (good : list JSON) (bad : JSON) (behind : list JSON) (st : State) :
  Forall (fun post => truthy post = true) good ->
  truthy bad = false ->
  postBuffer st = good ++ bad :: behind ->
  drain st = set_yielded (yielded st ++ good) (set_postBuffer behind st) /\
  forall a rest gotos gotos' st0,
    pollOnce cfg detailPage a gotos st0 = Ok (true, gotos') st ->
    finished st = true ->
    exists st',
      pump cfg detailPage (a :: rest) gotos st0
      = (if page st then Ok tt st' else Throw TypeError st') /\
      yielded st' = yielded st ++ good /\
      postBuffer st' = behind.
Proof.
  intros Hg Hb Hbuf. destruct (truthyPrefix_cut good bad behind Hg Hb) as [Hpre Hpost].
  assert (Hd : drain st = set_yielded (yielded st ++ good) (set_postBuffer behind st))
    by (by rewrite drain_eq, Hbuf, Hpre, Hpost).
  split; [exact Hd|].
  intros a rest gotos gotos' st0 Hpoll Hfin.
  pose proof (pollOnce_promises _ _ _ _ _ _ _ Hpoll) as Hp.
  cbn [pump]. rewrite Hpoll. cbn [bind fst snd].
  assert (Hf : finished (drain st) = true) by (by rewrite Hd).
  rewrite Hf.
  destruct (finish_fields cfg detailPage (drain st)) as (_ & Hy & Hq & _).
  assert (Hpg : page (drain st) = page st) by (by rewrite Hd).
  exists (finalState (finish cfg detailPage (drain st))). split.
  - unfold finish. rewrite stop_eq, Hpg. by destruct (page st).
  - rewrite Hy, Hq, Hd. unfold pendingRecords. simpl. rewrite Hp. simpl.
    by rewrite app_nil_r.
Qed.

(** The detail page of the second of three posts holds [null]: the first
    record is yielded, the third stays behind. *)
Lemma falsy_record_cuts_yield_witness :
  yielded (drain lostRound) = [JObj [("shortcode", JStr "a")]] /\
  postBuffer (drain lostRound) = [JObj [("shortcode", JStr "c")]].
Proof.
  destruct (falsy_record_cuts_yield fullConfig lostDetail
              [JObj [("shortcode", JStr "a")]] JNull [JObj [("shortcode", JStr "c")]]
              lostRound) as [Hd _].
  - by repeat constructor.
  - reflexivity.
  - vm_compute. reflexivity.
  - rewrite Hd. split; vm_compute; reflexivity.
Defined.

(** ** What a session launches and visits *)

Lemma tally_stray cfg evs :
  tally (stray cfg) evs = 0 -> Forall (fun e => sanctioned cfg e = true) evs.
Proof.
  assert (Hpos : forall l, 0 <= tally (stray cfg) l).
  { induction l as [|e l IH]; simpl; [lia|]. unfold stray at 1.
    destruct (sanctioned cfg e); lia. }
  induction evs as [|e evs IH]; simpl; [constructor|].
  intros H. pose proof (Hpos evs) as Hevs. unfold stray at 1 in H.
  destruct (sanctioned cfg e) eqn:He; [|lia].
  constructor; [exact He|]. apply IH. lia.
Qed.

(** X12.  Every browser a session launches, be it the first, one of a retry
    or one of a graft, is launched with the arguments and the mode of the
    configuration, and every navigation of the main page goes to the url of
    the resource; so a configured proxy is the last argument of every launch,
    and the sandbox flags are passed exactly when the environment asks for
    them. *)
Theorem launches_follow_configuration (cfg : Config) (detailPage : JSval -> JSON)
    (arrivals : list Arrival) (gotos : list (option string)) :
  Forall (fun e => sanctioned cfg e = true)
    (events (finalState (generator cfg detailPage arrivals gotos initialState))) /\
  (forall p, proxyURL cfg = Some p ->
     last (browserArgs cfg) = Some ("--proxy-server=" ++ p)%string) /\
  (bool_decide ("--no-sandbox" ∈ browserArgs cfg) = noSandbox cfg) /\
  (proxyURL cfg = None -> noSandbox cfg = false -> browserArgs cfg = []).
Proof.
  split; [|split; [|split]].
  - apply tally_stray.
    rewrite (T_generator cfg detailPage (stray cfg) 0).
    + by destruct (returned _).
    + unfold stray, sanctioned. rewrite bool_decide_eq_true_2 by done.
      by rewrite Bool.eqb_reflx.
    + reflexivity.
    + unfold stray, sanctioned. by rewrite String.eqb_refl.
    + intros e He. by destruct e.
    + reflexivity.
  - intros p Hp. unfold browserArgs. rewrite Hp. by rewrite last_snoc.
  - unfold browserArgs. destruct (noSandbox cfg).
    + apply bool_decide_eq_true_2. set_solver.
    + apply bool_decide_eq_false_2. destruct (proxyURL cfg); simpl; [|set_solver].
      intros Hin. apply list_elem_of_singleton in Hin. discriminate.
  - intros Hp Hn. unfold browserArgs. by rewrite Hp, Hn.
Qed.

(** ** When [getNext] returns *)

(** X13.  [getNext] never returns empty-handed: when it returns, the
    session is finished or the post buffer is not empty.  The detail pages
    it waited for are all settled, a hibernation that was due has been served
    unless the session finished first, and at least one poll of the buffers
    was made. *)
Theorem getNext_returns (cfg : Config) (detailPage : JSval -> JSON)
    (arrivals : list Arrival) (gotos : list (option string)) (st : State)
    (r : list Arrival * list (option string)) (st' : State) :
  getNext cfg detailPage arrivals gotos st = Ok r st' ->
  (finished st' = true \/ postBuffer st' <> []) /\
  pagePromises st' = [] /\
  (finished st' = false -> hibernate st' = false) /\
  (List.length (fst r) < List.length arrivals)%nat.
Proof. unfold getNext. apply getNextRounds_returns. Qed.

(** An empty poll, then a page with a post: [getNext] returns after the
    second poll, with the post. *)
Lemma getNext_returns_witness :
  exists r st',
    getNext (sampleConfig 0) noDetail
      [poll []; poll [sampleResponse true ["a"]]; poll []] []
      startedState = Ok r st' /\
    (finished st' = true \/ postBuffer st' <> []) /\
    List.length (fst r) = 1%nat.
Proof.
  destruct (getNext (sampleConfig 0) noDetail
              [poll []; poll [sampleResponse true ["a"]]; poll []] []
              startedState) as [r st'|e st'|st'] eqn:H.
  - exists r, st'. split; [reflexivity|].
    destruct (getNext_returns _ _ _ _ _ _ _ H) as (Hgot & _).
    split; [exact Hgot|]. vm_compute in H. by injection H as <- _.
  - vm_compute in H. discriminate.
  - vm_compute in H. discriminate.
Defined.
